(** * Shallow embedding of the dirigera-moodz actuation layer, scene engine,
    beat detector and colour smoothing, with the properties checked
    against it. *)

From Stdlib Require Import ZArith Lia Bool String List Reals Lra.
From Stdlib Require Import Sorted Permutation.
From Stdlib Require PrimFloat SpecFloat FloatOps.
Import ListNotations.
Open Scope Z_scope.

(* ================================================================= *)
(** ** CommandQueue  (src/src/server/controllers/LightsController.ts)  *)
(* ================================================================= *)

Module CommandQueue.

(** [new CommandQueue(10, logger)] in [DirigeraService]'s constructor:
    [minInterval = 1000 / commandsPerSecond] (exact for 10). *)
Definition commandsPerSecond : Z := 10.
Definition minInterval : Z := 1000 / commandsPerSecond.

(** One queued unit of work, together with what the environment does while
    the loop handles it: [pre_gap] is the time spent before the loop reads
    [Date.now()] (awaits of the previous iteration), [sleep_over] is how
    much later than requested the [setTimeout] of [sleep] fires, [dur] is
    how long [await command()] takes, and [fails] says whether the user
    command passed to [add] throws. *)
Record Item := mkItem {
  pre_gap : Z;
  sleep_over : Z;
  dur : Z;
  fails : bool
}.

(** Observable events: an item starts executing; the promise returned by
    [add] to its caller settles (resolved = true, rejected = false); the
    queue logs ['Command execution failed:']. *)
Inductive Event :=
| Start (t : Z)
| Settle (t : Z) (resolved : bool)
| LogFail (t : Z).

(** The closure pushed by [add]:
    [try { await command(); resolve(); } catch (error) { reject(error); }].
    It returns whether it threw (it never does: the user command's error is
    caught and handed to [reject]) and the settlement of the caller's
    promise. *)
Definition wrapper (it : Item) (t : Z) : bool * Event :=
  if fails it then (false, Settle t false) else (false, Settle t true).

(** [process()]: the [while (this.queue.length > 0)] loop, over the items it
    shifts in order (items appended by [add] during the run are at the end
    of this list). State: the clock and [lastExecutionTime]. *)
Fixpoint process (now last : Z) (items : list Item) : list Event * Z * Z :=
  match items with
  | [] => ([], now, last)
  | it :: rest =>
      let now0 := now + pre_gap it in                        (* Date.now() *)
      let since := now0 - last in
      let t := if since <? minInterval
               then now0 + (minInterval - since) + sleep_over it (* sleep *)
               else now0 in
      let t_end := t + dur it in
      let '(threw, settle) := wrapper it t_end in
      let last' := if threw then last else t_end in    (* lastExecutionTime *)
      let log := if threw then [LogFail t_end] else [] in
      let '(evs, n, l) := process t_end last' rest in
      (Start t :: settle :: log ++ evs, n, l)
  end.

(** The queue over its lifetime: [processing] goes back to false when the
    queue empties, and a later [add] restarts [process()] after an idle
    period; [lastExecutionTime] persists across runs (initially 0). *)
Fixpoint drain (now last : Z) (runs : list (Z * list Item)) : list Event :=
  match runs with
  | [] => []
  | (idle, items) :: rs =>
      let '(evs, n, l) := process (now + idle) last items in
      evs ++ drain n l rs
  end.

Definition start_times (evs : list Event) : list Z :=
  flat_map (fun e => match e with Start t => [t] | _ => [] end) evs.

Definition logged (evs : list Event) : list Z :=
  flat_map (fun e => match e with LogFail t => [t] | _ => [] end) evs.

Definition settlements (evs : list Event) : list bool :=
  flat_map (fun e => match e with Settle _ b => [b] | _ => [] end) evs.

(** Start time of the next item, as computed by one loop iteration. *)
Definition first_start (now last : Z) (it : Item) : Z :=
  let now0 := now + pre_gap it in
  let since := now0 - last in
  if since <? minInterval
  then now0 + (minInterval - since) + sleep_over it
  else now0.

(** Time never runs backwards in the environment. *)
Definition item_ok (it : Item) : Prop :=
  0 <= pre_gap it /\ 0 <= sleep_over it /\ 0 <= dur it.

Definition runs_ok (runs : list (Z * list Item)) : Prop :=
  Forall (fun r => 0 <= fst r /\ Forall item_ok (snd r)) runs.

End CommandQueue.

(* ================================================================= *)
(** ** DirigeraService.updateLights  (LightsController.ts)             *)
(* ================================================================= *)

Module Dirigera.
Local Open Scope R_scope.

(** [Color] of src/src/server/types. *)
Record Color := mkColor { hue : R; saturation : R }.

Record Capabilities := mkCaps {
  canChangeBrightness : bool;
  canChangeColor : bool
}.

Record DeviceState := mkState {
  isOn : bool;
  brightness : R;
  color : option Color
}.

Record Device := mkDevice {
  id : string;
  name : string;
  capabilities : Capabilities;
  currentState : DeviceState;
  isSelected : bool
}.

(** [LightUpdate]: [{ color?, brightness?, transitionTime?, isOn? }]. *)
Record LightUpdate := mkUpdate {
  u_color : option Color;
  u_brightness : option R;
  u_transitionTime : option R;
  u_isOn : option bool
}.

(** The hub client calls issued from the queued unit of work. *)
Inductive Call :=
| SetIsOn (dev : string) (on : bool)
| SetLightColor (dev : string) (colorHue : Z) (colorSaturation : R) (transitionTime : R)
| SetLightLevel (dev : string) (lightLevel : Z) (transitionTime : R).

Definition call_dev (c : Call) : string :=
  match c with SetIsOn d _ | SetLightColor d _ _ _ | SetLightLevel d _ _ => d end.

Definition is_color_call (c : Call) : bool :=
  match c with SetLightColor _ _ _ _ => true | _ => false end.

Definition is_level_call (c : Call) : bool :=
  match c with SetLightLevel _ _ _ => true | _ => false end.

(** A unit of work in the command queue (only [updateLights]' is modelled). *)
Inductive Job := JUpdateLights (u : LightUpdate).

Record Service := mkService {
  client : bool;                      (* [this.client] is initialised *)
  devices : list Device;              (* [this.devices], in Map order *)
  queue : list Job;                   (* units of work handed to [add] *)
  emitted : list (list Device)        (* ['devicesUpdate'] payloads *)
}.

(** [Math.round(x)] = floor (x + 1/2). *)
Definition js_round (x : R) : Z := Int_part (x + / 2).

(** [update.transitionTime || 100] ([0] and [undefined] are falsy). *)
Definition tt_or_default (t : option R) : R :=
  match t with
  | Some v => if Req_dec_T v 0 then 100 else v
  | None => 100
  end.

(** [update.isOn !== true]. *)
Definition not_turning_on (u : LightUpdate) : bool :=
  match u_isOn u with Some true => false | _ => true end.

(** The body of [this.devices.forEach(...)]: the optimistic update of one
    device; returns the updated device and [hasChanges]. *)
Definition optimistic (u : LightUpdate) (d : Device) : Device * bool :=
  if negb (isSelected d) then (d, false)
  else if negb (isOn (currentState d)) && not_turning_on u then (d, false)
  else
    let s := currentState d in
    let '(s1, c1) :=
      match u_isOn u with
      | Some b => (mkState b (brightness s) (color s), true)
      | None => (s, false)
      end in
    let '(s2, c2) :=
      match u_color u with
      | Some c => if canChangeColor (capabilities d)
                  then (mkState (isOn s1) (brightness s1)
                          (Some (mkColor (hue c) (saturation c))), true)
                  else (s1, c1)
      | None => (s1, c1)
      end in
    let '(s3, c3) :=
      match u_brightness u with
      | Some b => if canChangeBrightness (capabilities d)
                  then (mkState (isOn s2) b (color s2), true)
                  else (s2, c2)
      | None => (s2, c2)
      end in
    (mkDevice (id d) (name d) (capabilities d) s3 (isSelected d), c3).

(** One iteration of the [for (const device of this.devices.values())] loop
    of the queued unit of work. *)
Definition device_calls (u : LightUpdate) (d : Device) : list Call :=
  if negb (isSelected d) then []
  else if negb (isOn (currentState d)) && not_turning_on u then []
  else
    (match u_isOn u with Some b => [SetIsOn (id d) b] | None => [] end) ++
    (match u_color u with
     | Some c => if canChangeColor (capabilities d)
                 then [SetLightColor (id d) (js_round (hue c)) (saturation c)
                         (tt_or_default (u_transitionTime u))]
                 else []
     | None => [] end) ++
    (match u_brightness u with
     | Some b => if canChangeBrightness (capabilities d)
                 then [SetLightLevel (id d) (js_round (Rmax 1 (Rmin 100 b)))
                         (tt_or_default (u_transitionTime u))]
                 else []
     | None => [] end).

(** Running a queued unit of work against the registry as it is when the
    queue reaches it (the closure reads [this.devices] at that time). *)
Definition run_job (devs : list Device) (j : Job) : list Call :=
  match j with JUpdateLights u => flat_map (device_calls u) devs end.

(** [async updateLights(update)]: optimistic update, ['devicesUpdate']
    emission, then [this.commandQueue.add(...)]. *)
Definition updateLights (svc : Service) (u : LightUpdate) : Service :=
  if negb (client svc) then svc
  else
    let res := map (optimistic u) (devices svc) in
    let updated := map fst (filter snd res) in
    mkService (client svc) (map fst res) (queue svc ++ [JUpdateLights u])
      (if (0 <? List.length updated)%nat then emitted svc ++ [updated]
       else emitted svc).

(** The device calls issued by the unit of work one [updateLights] call
    enqueues, when the queue runs it on the registry this call left. *)
Definition calls_of_update (svc : Service) (u : LightUpdate) : list Call :=
  if client svc then run_job (devices (updateLights svc u)) (JUpdateLights u)
  else [].

Definition calls_to (dev : string) (cs : list Call) : list Call :=
  filter (fun c => String.eqb (call_dev c) dev) cs.

End Dirigera.

(* ================================================================= *)
(** ** SceneEngine  (src/src/server/services/SceneEngine.ts)           *)
(* ================================================================= *)

Module SceneEngine.
Import Dirigera.
Local Open Scope R_scope.

Inductive SceneType := Drift | Static.
Inductive SpatialMode := Linear | Radial | RandomMode.

(** [scene.spatial]: [{ mode, scale, speed, angle = 0 }]. *)
Record Spatial := mkSpatial {
  mode : SpatialMode;
  scale : R;
  speed : R;
  angle : option R
}.

Record Scene := mkScene {
  sc_id : string;
  sc_name : string;
  palette : list Color;
  type : SceneType;
  transitionSpeed : R;
  sc_brightness : R;
  spatial : option Spatial
}.

(** [Partial<Scene>] as built by the [PUT /api/scenes/:id] handler: only
    [transitionSpeed] and [brightness] can be present. *)
Record SceneUpdate := mkSceneUpdate {
  upd_transitionSpeed : option R;
  upd_brightness : option R
}.

(** The two interval callbacks of the source: the closure of [startScene],
    which captured [scene] and tests [scene.spatial], and the closure of
    [updateScene], which always calls [driftLoop]. *)
Inductive Callback := CbStart (scene : Scene) | CbDrift.

(** A live [setInterval] timer: handle, period, callback; [t_owner] is the
    id of the scene for which it was created (bookkeeping for attributing
    its ticks, not a field of the source). *)
Record Timer := mkTimer {
  t_handle : nat;
  t_period : R;
  t_cb : Callback;
  t_owner : string
}.

Record State := mkEngine {
  scenes : list Scene;
  activeInterval : option nat;
  currentScene : option Scene;
  isRunning : bool;
  startTime : R;
  live : list Timer;          (* timers not yet cleared *)
  next_handle : nat
}.

Definition init (scs : list Scene) : State := mkEngine scs None None false 0 [] 0.

(** [setInterval(cb, period)]: a fresh handle. *)
Definition setInterval (st : State) (period : R) (cb : Callback) (owner : string)
  : State * nat :=
  let h := next_handle st in
  (mkEngine (scenes st) (activeInterval st) (currentScene st) (isRunning st)
     (startTime st) (live st ++ [mkTimer h period cb owner]) (S h), h).

(** [clearInterval(h)]. *)
Definition clearInterval (st : State) (h : nat) : State :=
  mkEngine (scenes st) (activeInterval st) (currentScene st) (isRunning st)
    (startTime st) (filter (fun t => negb (Nat.eqb (t_handle t) h)) (live st))
    (next_handle st).

Definition set_active (st : State) (a : option nat) : State :=
  mkEngine (scenes st) a (currentScene st) (isRunning st) (startTime st)
    (live st) (next_handle st).

Definition set_current (st : State) (c : option Scene) (r : bool) : State :=
  mkEngine (scenes st) (activeInterval st) c r (startTime st) (live st)
    (next_handle st).

(** [this.scenes.find(s => s.id === sceneId)]. *)
Definition find_scene (scs : list Scene) (sid : string) : option Scene :=
  find (fun s => String.eqb (sc_id s) sid) scs.

(** [{ ...scene, ...updates }]. *)
Definition merge_scene (s : Scene) (u : SceneUpdate) : Scene :=
  mkScene (sc_id s) (sc_name s) (palette s) (type s)
    (match upd_transitionSpeed u with Some v => v | None => transitionSpeed s end)
    (match upd_brightness u with Some v => v | None => sc_brightness s end)
    (spatial s).

(** [this.scenes[index] = ...] at the first index with the given id. *)
Fixpoint replace_first (scs : list Scene) (sid : string) (u : SceneUpdate)
  : list Scene :=
  match scs with
  | [] => []
  | s :: rest => if String.eqb (sc_id s) sid then merge_scene s u :: rest
                 else s :: replace_first rest sid u
  end.

(** [stop()]. *)
Definition stop (st : State) : State :=
  let st1 := match activeInterval st with
             | Some h => set_active (clearInterval st h) None
             | None => st
             end in
  set_current st1 None false.

(** [startScene(sceneId)]; [now] is [Date.now()].  The asynchronous
    [applySceneInitialState()] only sends a batch update to the actuation
    layer and does not touch the engine's state. *)
Definition startScene (st : State) (sid : string) (now : R) : State * bool :=
  match find_scene (scenes st) sid with
  | None => (st, false)
  | Some scene =>
      let st1 := stop st in
      let st2 := mkEngine (scenes st1) (activeInterval st1) (Some scene) true now
                   (live st1) (next_handle st1) in
      match type scene with
      | Drift =>
          let intervalTime := match spatial scene with
                              | Some _ => 1000
                              | None => transitionSpeed scene / 2
                              end in
          let '(st3, h) := setInterval st2 intervalTime (CbStart scene) (sc_id scene) in
          (set_active st3 (Some h), true)
      | Static => (st2, true)
      end
  end.

(** [updateScene(sceneId, updates)]. *)
Definition updateScene (st : State) (sid : string) (u : SceneUpdate)
  : State * option Scene :=
  match find_scene (scenes st) sid with
  | None => (st, None)
  | Some old =>
      let updated := merge_scene old u in
      let st1 := mkEngine (replace_first (scenes st) sid u) (activeInterval st)
                   (currentScene st) (isRunning st) (startTime st) (live st)
                   (next_handle st) in
      match currentScene st with
      | Some cs =>
          if String.eqb (sc_id cs) sid then
            let st2 := set_current st1 (Some updated) (isRunning st1) in
            match isRunning st2, activeInterval st2 with
            | true, Some h =>
                let st3 := clearInterval st2 h in
                match type updated with
                | Drift =>
                    let '(st4, h') := setInterval st3 (transitionSpeed updated / 2)
                                        CbDrift sid in
                    (set_active st4 (Some h'), Some updated)
                | Static => (st3, Some updated)
                end
            | _, _ => (st2, Some updated)
            end
          else (st1, Some updated)
      | None => (st1, Some updated)
      end
  end.

(** What one tick of a loop does: a drift tick (random palette colours,
    [driftLoop]), a spatial tick ([spatialLoop]), or nothing (the loop's
    early return). *)
Inductive TickKind := DriftTick (s : Scene) | SpatialTick (s : Scene) | NoTick.

Definition driftLoop (st : State) : TickKind :=
  match currentScene st with
  | Some s => if isRunning st then DriftTick s else NoTick
  | None => NoTick
  end.

Definition spatialLoop (st : State) : TickKind :=
  match currentScene st with
  | Some s => if isRunning st then
                match spatial s with Some _ => SpatialTick s | None => NoTick end
              else NoTick
  | None => NoTick
  end.

Definition run_callback (st : State) (cb : Callback) : TickKind :=
  match cb with
  | CbStart scene => match spatial scene with
                     | Some _ => spatialLoop st
                     | None => driftLoop st
                     end
  | CbDrift => driftLoop st
  end.

(** The timer with handle [h] fires: [None] if it is not live, otherwise the
    owner of the timer and what its callback does. *)
Definition fire (st : State) (h : nat) : option (string * TickKind) :=
  match find (fun t => Nat.eqb (t_handle t) h) (live st) with
  | Some t => Some (t_owner t, run_callback st (t_cb t))
  | None => None
  end.

(** Two entries of [SCENE_PRESETS] (src/src/server/config/scenes.ts). *)
Definition savanna_sunset : Scene :=
  mkScene "savanna-sunset" "Savanna Sunset"
    [mkColor 30 (9/10); mkColor 10 (85/100); mkColor 45 (7/10);
     mkColor 340 (4/10); mkColor 20 (6/10)]
    Drift 8000 60 None.

Definition arctic_aurora : Scene :=
  mkScene "arctic-aurora" "Arctic Aurora"
    [mkColor 180 (8/10); mkColor 200 (9/10); mkColor 260 (7/10);
     mkColor 160 (8/10); mkColor 240 (9/10)]
    Drift 10000 50 None.

(** A spatial drift scene: the "Deep Ocean" preset with a linear wave, as a
    scene override file ([.dirigera_scenes.json], merged by
    [loadSceneOverrides]) can make it. *)
Definition deep_ocean_spatial : Scene :=
  mkScene "deep-ocean" "Deep Ocean"
    [mkColor 200 1; mkColor 220 (9/10); mkColor 190 (8/10)]
    Drift 6000 60 (Some (mkSpatial Linear 1 (2/10) (Some 0))).

(** States the engine can reach through its public operations (ticks do not
    change the engine's state). *)
Inductive reachable : State -> Prop :=
| reach_init : forall scs, reachable (init scs)
| reach_start : forall st sid now, reachable st -> reachable (fst (startScene st sid now))
| reach_stop : forall st, reachable st -> reachable (stop st)
| reach_update : forall st sid u, reachable st -> reachable (fst (updateScene st sid u)).

End SceneEngine.

(* ================================================================= *)
(** ** LightsController.updateLights  (POST /api/lights/update)        *)
(* ================================================================= *)

Module Controller.
Import Dirigera.
Local Open Scope R_scope.

(** JSON values of a request body. *)
#[warnings="-register-all"]
Inductive JSValue :=
| JUndefined
| JNull
| JBool (b : bool)
| JNum (r : R)
| JStr (s : string)
| JObj (fields : list (string * JSValue)).

(** Property access [v.k] on a non-null value. *)
Definition get (v : JSValue) (k : string) : JSValue :=
  match v with
  | JObj fs => match find (fun p => String.eqb (fst p) k) fs with
               | Some (_, x) => x
               | None => JUndefined
               end
  | _ => JUndefined
  end.

Definition truthy (v : JSValue) : bool :=
  match v with
  | JUndefined | JNull => false
  | JBool b => b
  | JNum r => if Req_dec_T r 0 then false else true
  | JStr s => negb (String.eqb s "")
  | JObj _ => true
  end.

Definition msg_hue : string := "Invalid hue value. Must be between 0 and 359.".
Definition msg_saturation : string := "Invalid saturation value. Must be between 0 and 1.".
Definition msg_brightness : string := "Invalid brightness value. Must be between 1 and 100.".
Definition msg_isOn : string := "isOn must be a boolean.".

Inductive Response := Ok200 | Err400 (error : string) | Err500.

(** The [// Validate input] block, in source order; [Some m] is the 400
    response's [error]. *)
Definition validate (color brightness isOn : JSValue) : option string :=
  let color_check :=
    if truthy color then
      match get color "hue" with
      | JNum h =>
          if Rlt_dec h 0 then Some msg_hue
          else if Rle_dec 360 h then Some msg_hue
          else match get color "saturation" with
               | JNum s => if Rlt_dec s 0 then Some msg_saturation
                           else if Rlt_dec 1 s then Some msg_saturation
                           else None
               | _ => Some msg_saturation
               end
      | _ => Some msg_hue
      end
    else None in
  match color_check with
  | Some m => Some m
  | None =>
      match brightness with
      | JUndefined => match isOn with
                      | JUndefined | JBool _ => None
                      | _ => Some msg_isOn
                      end
      | JNum b => if Rlt_dec b 1 then Some msg_brightness
                  else if Rlt_dec 100 b then Some msg_brightness
                  else match isOn with
                       | JUndefined | JBool _ => None
                       | _ => Some msg_isOn
                       end
      | _ => Some msg_brightness
      end
  end.

(** The [LightUpdate] passed on to the service once validation passed
    (a non-numeric [transitionTime] is not modelled and read as absent). *)
Definition to_update (color brightness transitionTime isOn : JSValue) : LightUpdate :=
  mkUpdate
    (if truthy color then
       match get color "hue", get color "saturation" with
       | JNum h, JNum s => Some (mkColor h s)
       | _, _ => None
       end
     else None)
    (match brightness with JNum b => Some b | _ => None end)
    (match transitionTime with JNum t => Some t | _ => None end)
    (match isOn with JBool b => Some b | _ => None end).

Record Ctrl := mkCtrl {
  engine : SceneEngine.State;
  service : Service
}.

(** [updateLights = async (req, res) => ...]: the scene engine is stopped
    first, then [req.body] is destructured (throwing, hence a 500, on a
    null or missing body), validated, and passed to the service. *)
Definition handle_updateLights (c : Ctrl) (body : JSValue) : Ctrl * Response :=
  let c1 := mkCtrl (SceneEngine.stop (engine c)) (service c) in
  match body with
  | JNull | JUndefined => (c1, Err500)
  | _ =>
      let color := get body "color" in
      let brightness := get body "brightness" in
      let transitionTime := get body "transitionTime" in
      let isOn := get body "isOn" in
      match validate color brightness isOn with
      | Some m => (c1, Err400 m)
      | None =>
          (mkCtrl (engine c1)
             (updateLights (service c1) (to_update color brightness transitionTime isOn)),
           Ok200)
      end
  end.

(** Out-of-range parameters in the sense of the API contract. *)
Definition hue_out_of_range (body : JSValue) : Prop :=
  exists h, truthy (get body "color") = true /\
            get (get body "color") "hue" = JNum h /\ (h < 0 \/ 360 <= h).

Definition saturation_out_of_range (body : JSValue) : Prop :=
  exists s, truthy (get body "color") = true /\
            get (get body "color") "saturation" = JNum s /\ (s < 0 \/ 1 < s).

Definition brightness_out_of_range (body : JSValue) : Prop :=
  exists b, get body "brightness" = JNum b /\ (b < 1 \/ 100 < b).

(** A field passes the handler's check. *)
Definition hue_valid (body : JSValue) : Prop :=
  truthy (get body "color") = false \/
  exists h, get (get body "color") "hue" = JNum h /\ 0 <= h < 360.

Definition saturation_valid (body : JSValue) : Prop :=
  truthy (get body "color") = false \/
  exists s, get (get body "color") "saturation" = JNum s /\ 0 <= s <= 1.

Definition brightness_valid (body : JSValue) : Prop :=
  get body "brightness" = JUndefined \/
  exists b, get body "brightness" = JNum b /\ 1 <= b <= 100.

(** [m] contains the word [w]. *)
Definition mentions (w m : string) : bool :=
  match String.index 0 w m with Some _ => true | None => false end.

End Controller.

(* ================================================================= *)
(** ** Palette colours  (SceneEngine.interpolateColors,                 *)
(**    SceneEngine.getRandomColorFromPalette)                           *)
(* ================================================================= *)

Module SceneColor.
Import Dirigera SceneEngine.
Local Open Scope R_scope.

(** [interpolateColors(c1, c2, factor)]. *)
Definition interpolateColors (c1 c2 : Color) (factor : R) : Color :=
  let h1 := hue c1 in
  let h2 := hue c2 in
  let diff := h2 - h1 in
  let h2' := if Rlt_dec 180 diff then h2 - 360
             else if Rlt_dec diff (-180) then h2 + 360
             else h2 in
  let h := h1 + (h2' - h1) * factor in
  let h' := if Rlt_dec h 0 then h + 360 else h in
  let h'' := if Rle_dec 360 h' then h' - 360 else h' in
  let s := saturation c1 + (saturation c2 - saturation c1) * factor in
  mkColor h'' s.

(** [Math.trunc] and the JavaScript remainder [a % n] on numbers. *)
Definition js_trunc (x : R) : R :=
  if Rle_dec 0 x then IZR (Int_part x) else - IZR (Int_part (- x)).

Definition js_rem (a n : R) : R := a - n * js_trunc (a / n).

(** [palette[i]] for an integer-valued index ([undefined] outside). *)
Definition js_at (pal : list Color) (i : Z) : option Color :=
  if (i <? 0)%Z then None else nth_error pal (Z.to_nat i).

(** [getRandomColorFromPalette()] with [Math.random()] = [rnd]; it reads the
    palette of [this.currentScene], which is the scene [spatialLoop] passes. *)
Definition randomColor (pal : list Color) (rnd : R) : option Color :=
  js_at pal (Int_part (rnd * INR (List.length pal))).

(** Circular distance between two hues in [0, 360). *)
Definition hue_dist (a b : R) : R :=
  let d := Rabs (a - b) in Rmin d (360 - d).

End SceneColor.

(* ================================================================= *)
(** ** Spatial colour field in doubles  (SceneEngine.getSpatialColor)  *)
(* ================================================================= *)

(** [getSpatialColor] computes with JavaScript numbers, i.e. IEEE 754
    binary64 doubles, modelled by the kernel's primitive floats: every
    [+], [-], [*], [/] and [Math.sqrt] rounds to the nearest double. *)
Module SceneColorF.
Import SceneEngine PrimFloat SpecFloat FloatOps.
Local Open Scope float_scope.
(* Decimal literals denote the nearest double, as in the TypeScript source. *)
Local Set Warnings "-inexact-float".

(** A colour as the engine holds it at run time. *)
Record ColorF := mkColorF { hueF : float; saturationF : float }.

(** [scene.spatial] with its numbers as doubles. *)
Record SpatialF := mkSpatialF {
  modeF : SpatialMode;
  scaleF : float;
  speedF : float;
  angleF : option float
}.

(** The double nearest to the integer [z] (exact for the small integers
    used here: palette lengths and indices). *)
Definition float_of_Z (z : Z) : float :=
  SF2Prim (binary_normalize prec emax z 0%Z false).

(** The integer value of [f] when [f] is a finite integral number. *)
Definition int_value (f : float) : option Z :=
  match Prim2SF f with
  | S754_zero _ => Some 0%Z
  | S754_finite s m e =>
      let k := Z.shiftl (Zpos m) e in
      if (Z.shiftl k (- e) =? Zpos m)%Z then Some (if s then (- k)%Z else k) else None
  | _ => None
  end.

(** [Math.floor(f)]. *)
Definition js_floor (f : float) : float :=
  match Prim2SF f with
  | S754_finite s m e =>
      let k := Z.shiftl (Zpos m) e in
      if (Z.shiftl k (- e) =? Zpos m)%Z then f
      else if s then float_of_Z (- (k + 1)) else float_of_Z k
  | _ => f
  end.

(** The remainder [n % d] of ECMAScript's [Number::remainder]: [NaN] for a
    [NaN] operand, an infinite [n] or a zero [d]; [n] for an infinite [d]
    or a zero [n]; otherwise the exact [n - d * q], [q] the integer quotient
    truncated towards zero, carrying the sign of [n]. *)
Definition js_fmod (n d : float) : float :=
  match Prim2SF n, Prim2SF d with
  | S754_finite sn mn en, S754_finite _ md ed =>
      let e0 := Z.min en ed in
      let r := Z.modulo (Z.shiftl (Zpos mn) (en - e0)) (Z.shiftl (Zpos md) (ed - e0)) in
      SF2Prim (binary_normalize prec emax (if sn then (- r)%Z else r) e0 sn)
  | S754_zero _, S754_finite _ _ _ => n
  | S754_zero _, S754_infinity _ => n
  | S754_finite _ _ _, S754_infinity _ => n
  | _, _ => nan
  end.

(** [palette[i]] for a number [i]: the key is [ToString(i)], so only an
    integral [i] (with [-0] read as [0]) in range finds an entry. *)
Definition js_at_f (pal : list ColorF) (i : float) : option ColorF :=
  match int_value i with
  | Some k => if (k <? 0)%Z then None else nth_error pal (Z.to_nat k)
  | None => None
  end.

(** [Math.PI]. *)
Definition Math_PI : float := 0x1.921fb54442d18p+1.

(** [interpolateColors(c1, c2, factor)] on doubles. *)
Definition interpolateColorsF (c1 c2 : ColorF) (factor : float) : ColorF :=
  let h1 := hueF c1 in
  let h2 := hueF c2 in
  let diff := h2 - h1 in
  let h2' := if 180 <? diff then h2 - 360
             else if diff <? -180 then h2 + 360
             else h2 in
  let h := h1 + (h2' - h1) * factor in
  let h' := if h <? 0 then h + 360 else h in
  let h'' := if 360 <=? h' then h' - 360 else h' in
  let s := saturationF c1 + (saturationF c2 - saturationF c1) * factor in
  mkColorF h'' s.

Section Host.
(** The host's [Math.cos] and [Math.sin]. *)
Variables Math_cos Math_sin : float -> float.

(** The [switch (mode)] computing [phase] ([None]: the random branch). *)
Definition spatial_phaseF (sp : SpatialF) (x y : float) : option float :=
  let nx := x / 100 in
  let ny := y / 100 in
  match modeF sp with
  | Linear =>
      let a := match angleF sp with Some a => a | None => 0 end in
      let rad := (a * Math_PI) / 180 in
      Some (nx * Math_cos rad + ny * Math_sin rad)
  | Radial =>
      let dx := nx - 0.5 in
      let dy := ny - 0.5 in
      Some (PrimFloat.sqrt (dx * dx + dy * dy))
  | RandomMode => None
  end.

(** [patternValue % len], then [normalizedIndex += len] when negative; the
    addition is rounded to the nearest double. *)
Definition normalizedIndexF (patternValue len : float) : float :=
  let r := js_fmod patternValue len in
  if r <? 0 then r + len else r.

(** [getRandomColorFromPalette()] with [Math.random()] = [rnd]. *)
Definition randomColorF (pal : list ColorF) (rnd : float) : option ColorF :=
  js_at_f pal (js_floor (rnd * float_of_Z (Z.of_nat (List.length pal)))).

(** [getSpatialColor(x, y, time, scene)] for a scene with [spatial] [sp]
    and palette [pal]; [None] is the [TypeError] raised when
    [interpolateColors] reads a field of an [undefined] palette entry. *)
Definition getSpatialColorF (x y time : float) (sp : option SpatialF)
    (pal : list ColorF) (rnd : float) : option ColorF :=
  match sp with
  | None => randomColorF pal rnd
  | Some sp =>
      match spatial_phaseF sp x y with
      | None => randomColorF pal rnd
      | Some phase =>
          let t := time * speedF sp in
          let patternValue := phase * scaleF sp - t in
          let len := float_of_Z (Z.of_nat (List.length pal)) in
          let normalizedIndex := normalizedIndexF patternValue len in
          let index1 := js_floor normalizedIndex in
          let index2 := js_fmod (index1 + 1) len in
          let fraction := normalizedIndex - index1 in
          match js_at_f pal index1, js_at_f pal index2 with
          | Some c1, Some c2 => Some (interpolateColorsF c1 c2 fraction)
          | _, _ => None
          end
      end
  end.
End Host.

(** The palette of the "Deep Ocean" preset (src/src/server/config/scenes.ts). *)
Definition deep_ocean_paletteF : list ColorF :=
  [mkColorF 230 0.9; mkColorF 210 0.8; mkColorF 190 0.9;
   mkColorF 240 1; mkColorF 200 0.6].
End SceneColorF.

(* ================================================================= *)
(** ** BeatDetector  (src/src/lib/services/AudioAnalyzer.ts)           *)
(* ================================================================= *)

Module Beat.
Local Open Scope R_scope.

Definition historySize : nat := 43.
Definition threshold : R := 13 / 10.
Definition minBeatInterval : R := 100.
Definition energyVarianceThreshold : R := 2 / 100.

Record BeatState := mkBeatState {
  energyHistory : list R;
  lastBeatTime : R
}.

Definition initial : BeatState := mkBeatState [] 0.

(** [BeatResult]. *)
Record BeatResult := mkBeat { intensity : R; confidence : R }.

(** [array.reduce((a, b) => a + b, 0)]. *)
Definition sumR (l : list R) : R := fold_left Rplus l 0.

Definition averageEnergy (h : list R) : R := sumR h / INR (List.length h).

(** [calculateVariance(array, mean)]. *)
Definition calculateVariance (array : list R) (mean : R) : R :=
  sumR (map (fun value => (value - mean) ^ 2) array) / INR (List.length array).

(** [calculateEnergy(bassData, timeDomainData)] on byte arrays. *)
Definition calculateEnergy (frequencyData timeDomainData : list Z) : R :=
  let frequencyEnergy := sumR (map (fun v => IZR v * IZR v) frequencyData) in
  let rms := sqrt (sumR (map (fun v => ((IZR v - 128) / 128) ^ 2) timeDomainData)
                   / INR (List.length timeDomainData)) in
  (frequencyEnergy / INR (List.length frequencyData)) * rms.

(** [energyHistory.push(currentEnergy)], then [shift()] past
    [historySize]. *)
Definition window (st : BeatState) (currentEnergy : R) : list R :=
  let h0 := energyHistory st ++ [currentEnergy] in
  if (historySize <? List.length h0)%nat then tl h0 else h0.

Definition dynamicThreshold (h : list R) : R :=
  averageEnergy h + threshold * sqrt (calculateVariance h (averageEnergy h)).

(** The body of [detect] once [currentEnergy] is known; [now] is
    [Date.now()]. *)
Definition detect_energy (st : BeatState) (now currentEnergy : R)
  : BeatState * option BeatResult :=
  let h := window st currentEnergy in
  if (List.length h <? historySize)%nat then (mkBeatState h (lastBeatTime st), None)
  else
    let avg := averageEnergy h in
    let variance := calculateVariance h avg in
    let dyn := dynamicThreshold h in
    if Rlt_dec dyn currentEnergy then
      if Rlt_dec energyVarianceThreshold variance then
        if Rlt_dec minBeatInterval (now - lastBeatTime st) then
          (mkBeatState h now,
           Some (mkBeat (Rmin 1 ((currentEnergy - avg) / avg))
                        (Rmin 1 (Rmax 0 ((currentEnergy - dyn) / dyn)))))
        else (mkBeatState h (lastBeatTime st), None)
      else (mkBeatState h (lastBeatTime st), None)
    else (mkBeatState h (lastBeatTime st), None).

(** [frequencyData.slice(0, Math.floor(frequencyData.length * 0.1))]. *)
Definition bassData (frequencyData : list Z) : list Z :=
  firstn (List.length frequencyData / 10) frequencyData.

Definition currentEnergy (frequencyData timeDomainData : list Z) : R :=
  calculateEnergy (bassData frequencyData) timeDomainData.

(** [detect(frequencyData, timeDomainData)]. *)
Definition detect (st : BeatState) (now : R) (frequencyData timeDomainData : list Z)
  : BeatState * option BeatResult :=
  detect_energy st now (currentEnergy frequencyData timeDomainData).

(** The detector after a sequence of [(Date.now(), frequencyData,
    timeDomainData)] frames. *)
Fixpoint feed (st : BeatState) (frames : list (R * list Z * list Z)) : BeatState :=
  match frames with
  | [] => st
  | (now, f, t) :: rest => feed (fst (detect st now f t)) rest
  end.

(** Feeding a sequence of [(Date.now(), energy)] samples; the result lists
    the emitted beats with the time they were emitted at. *)
Fixpoint run (st : BeatState) (samples : list (R * R)) : list (R * BeatResult) :=
  match samples with
  | [] => []
  | (now, e) :: rest =>
      let '(st', r) := detect_energy st now e in
      match r with
      | Some b => (now, b) :: run st' rest
      | None => run st' rest
      end
  end.

Definition clamp01 (x : R) : R := Rmax 0 (Rmin 1 x).

End Beat.

(* ================================================================= *)
(** ** AnalysisState.smoothColor
       (src/backend/src/controllers/SpotifyController.ts)              *)
(* ================================================================= *)

Module Smoothing.
Local Open Scope R_scope.

Record Color := mkColor { hue : R; saturation : R }.

Record AnalysisState := mkAnalysisState { colorHistory : list Color }.

Definition historySize : nat := 5.

(** [Math.atan2(y, x)] on finite arguments (with [y = +0] read as 0). *)
Definition js_atan2 (y x : R) : R :=
  if Rlt_dec 0 x then atan (y / x)
  else if Rlt_dec x 0 then
    (if Rle_dec 0 y then atan (y / x) + PI else atan (y / x) - PI)
  else if Rlt_dec 0 y then PI / 2
  else if Rlt_dec y 0 then - (PI / 2)
  else 0.

(** The [forEach((color, index) => ...)] loop, with the running
    [totalHue], [totalSaturation] and [totalWeight]; [len] is
    [colorHistory.length]. *)
Fixpoint accumulate (len : R) (index : nat) (l : list Color)
    (totalHue totalSaturation totalWeight : R) : R * R * R :=
  match l with
  | [] => (totalHue, totalSaturation, totalWeight)
  | color :: rest =>
      let weight := INR (index + 1) / len in
      let hueRadians := (hue color * PI) / 180 in
      accumulate len (S index) rest
        (totalHue + cos hueRadians * weight)
        (totalSaturation + saturation color * weight)
        (totalWeight + weight)
  end.

(** [smoothColor(newColor)]. *)
Definition smoothColor (st : AnalysisState) (newColor : Color) : AnalysisState * Color :=
  let h0 := colorHistory st ++ [newColor] in
  let h := if (historySize <? List.length h0)%nat then tl h0 else h0 in
  if (List.length h =? 1)%nat then (mkAnalysisState h, newColor)
  else
    let '(totalHue, totalSaturation, totalWeight) :=
      accumulate (INR (List.length h)) 0 h 0 0 0 in
    let smoothedHue := (js_atan2 0 (totalHue / totalWeight) * 180) / PI in
    let normalizedHue := if Rlt_dec smoothedHue 0 then smoothedHue + 360 else smoothedHue in
    (mkAnalysisState h,
     mkColor normalizedHue (Rmax 0 (Rmin 1 (totalSaturation / totalWeight)))).

(** Reference reading of the saturation: the mean of the history
    saturations weighted by position [1, 2, ..., n] (oldest first). *)
Fixpoint position_weighted_sum (index : nat) (l : list Color) : R :=
  match l with
  | [] => 0
  | c :: rest => INR (index + 1) * saturation c + position_weighted_sum (S index) rest
  end.

Fixpoint position_weight_total (index : nat) (l : list Color) : R :=
  match l with
  | [] => 0
  | _ :: rest => INR (index + 1) + position_weight_total (S index) rest
  end.

Definition weighted_mean_saturation (l : list Color) : R :=
  position_weighted_sum 0 l / position_weight_total 0 l.

End Smoothing.

(* ================================================================= *)
(** ** DirigeraService: registry, selection, hub events, batch and
       single-light updates, commands  (LightsController.ts)          *)
(* ================================================================= *)

Module Hub.
Import Dirigera.
Local Open Scope R_scope.

(** [this.devices : Map<string, Device>] as the list of its values in
    insertion order, keyed by [id]. *)
Definition get_device (devs : list Device) (key : string) : option Device :=
  find (fun d => String.eqb (id d) key) devs.

(** [this.devices.set(d.id, d)]: replace in place, or append a new key. *)
Fixpoint map_set (devs : list Device) (d : Device) : list Device :=
  match devs with
  | [] => [d]
  | d' :: rest => if String.eqb (id d') (id d) then d :: rest else d' :: map_set rest d
  end.

(** Mutating the object [this.devices.get(key)] in place. *)
Fixpoint map_update (devs : list Device) (key : string) (f : Device -> Device)
  : list Device :=
  match devs with
  | [] => []
  | d :: rest => if String.eqb (id d) key then f d :: rest else d :: map_update rest key f
  end.

(** [Set<string>] in insertion order. *)
Definition set_has (s : list string) (x : string) : bool := existsb (String.eqb x) s.
Definition set_add (s : list string) (x : string) : list string :=
  if set_has s x then s else s ++ [x].
Definition set_delete (s : list string) (x : string) : list string :=
  filter (fun y => negb (String.eqb y x)) s.

Definition set_isSelected (b : bool) (d : Device) : Device :=
  mkDevice (id d) (name d) (capabilities d) (currentState d) b.

Definition set_state (s : DeviceState) (d : Device) : Device :=
  mkDevice (id d) (name d) (capabilities d) s (isSelected d).

(** Events: ['deviceUpdate'] and ['devicesUpdate'], recorded by the ids
    of the (live) device objects they carry. *)
Inductive HubEvent :=
| EvDeviceUpdate (dev : string)
| EvDevicesUpdate (devs : list string).

Record BatchUpdate := mkBatch {
  bu_deviceId : string;
  bu_color : option Color;
  bu_brightness : option R;
  bu_transitionTime : option R
}.

(** [{ deviceId, color, brightness, transitionTime }] of [updateSingleLight];
    [brightness] and [transitionTime] are numbers. *)
Record SingleUpdate := mkSingle {
  su_deviceId : string;
  su_color : option Color;
  su_brightness : R;
  su_transitionTime : R
}.

(** Hub client calls whose [transitionTime] is passed through as given. *)
Inductive BCall :=
| BSetLightColor (dev : string) (colorHue : Z) (colorSaturation : R) (transitionTime : option R)
| BSetLightLevel (dev : string) (lightLevel : Z) (transitionTime : option R).

Definition bcall_dev (c : BCall) : string :=
  match c with BSetLightColor d _ _ _ | BSetLightLevel d _ _ => d end.

(** Units of work handed to [commandQueue.add]: the batch closure looks
    devices up when it runs; the single-light closure holds the [device]
    object it captured. *)
Inductive HubJob :=
| HBatch (us : list BatchUpdate)
| HSingle (d : Device) (u : SingleUpdate).

Record Hub := mkHub {
  h_client : bool;
  h_devices : list Device;
  h_selected : list string;             (* [this.selectedDeviceIds] *)
  h_selection_file : option (list string); (* SELECTION_FILE, if it exists *)
  h_jobs : list HubJob;
  h_events : list HubEvent
}.

Inductive Result (A : Type) := Ok (a : A) | Throw (msg : string).
Arguments Ok {A} a.
Arguments Throw {A} msg.

(** ---- discovery ---- *)

(** The [capabilities] object of a listed device: its keys and the two
    flags it may carry. *)
Record RawCaps := mkRawCaps {
  rc_keys : list string;
  rc_canChangeBrightness : option bool;
  rc_canChangeColor : option bool
}.

(** A light as [this.client.lights.list()] returns it. *)
Record RawLight := mkRaw {
  r_id : string;
  r_deviceType : string;
  r_customName : option string;
  r_model : option string;
  r_isOn : option bool;
  r_lightLevel : option R;
  r_colorHue : option R;
  r_colorSaturation : option R;
  r_colorTemperature : option R;
  r_capabilities : option RawCaps
}.

Definition ascii_lower (c : Ascii.ascii) : Ascii.ascii :=
  let n := Ascii.nat_of_ascii c in
  if (65 <=? n)%nat && (n <=? 90)%nat then Ascii.ascii_of_nat (n + 32) else c.

(** [s.toLowerCase()] on ASCII text. *)
Fixpoint to_lower (s : string) : string :=
  match s with
  | EmptyString => EmptyString
  | String c rest => String (ascii_lower c) (to_lower rest)
  end.

(** [s.includes(sub)]. *)
Definition includes (s sub : string) : bool :=
  match index 0 sub s with Some _ => true | None => false end.

Definition is_some {A} (o : option A) : bool := match o with Some _ => true | None => false end.

(** [a || b] on optional strings ([""] is falsy). *)
Definition str_or (a : option string) (b : string) : string :=
  match a with Some s => if String.eqb s "" then b else s | None => b end.

(** [x || d] on an optional number ([0] is falsy). *)
Definition num_or (a : option R) (d : R) : R :=
  match a with Some v => if Req_dec_T v 0 then d else v | None => d end.

Definition bool_or_false (a : option bool) : bool :=
  match a with Some b => b | None => false end.

Definition isColorLight (r : RawLight) : bool :=
  is_some (r_colorHue r) || is_some (r_colorTemperature r) ||
  match r_capabilities r with
  | Some c => existsb (fun key => includes (to_lower key) "color") (rc_keys c)
  | None => false
  end.

(** [deviceInfo] built in [discoverDevices] for one listed light, given
    the [isSelected] flag. ([colorTemperatureRange] is not carried.) *)
Definition device_info (r : RawLight) (sel : bool) : Device :=
  mkDevice (r_id r)
    (str_or (r_customName r) (str_or (r_model r) "Unknown Device"))
    (mkCaps
       (match option_map rc_canChangeBrightness (r_capabilities r) with
        | Some (Some b) => b
        | _ => is_some (r_lightLevel r)
        end)
       (match option_map rc_canChangeColor (r_capabilities r) with
        | Some (Some b) => b
        | _ => is_some (r_colorHue r) ||
               (String.eqb (r_deviceType r) "light" && isColorLight r)
        end))
    (mkState (bool_or_false (r_isOn r)) (num_or (r_lightLevel r) 0)
       (match r_colorHue r with
        | Some h => Some (mkColor h (num_or (r_colorSaturation r) 1))
        | None => None
        end))
    sel.

(** One iteration of [devices.forEach(d => ...)] of [discoverDevices]. *)
Definition discover_one (acc : list Device * list string) (r : RawLight)
  : list Device * list string :=
  let '(devs, selected) := acc in
  let sel := if (List.length selected =? 0)%nat then true else set_has selected (r_id r) in
  let selected' := if sel then set_add selected (r_id r) else selected in
  (map_set devs (device_info r sel), selected').

(** [discoverDevices()] with the list the client returns. *)
Definition discoverDevices (h : Hub) (listed : list RawLight) : Result Hub :=
  if negb (h_client h) then Throw "DIRIGERA client not initialized"
  else
    let '(devs, selected) := fold_left discover_one listed (h_devices h, h_selected h) in
    let file :=
      match h_selection_file h with
      | None => if (0 <? List.length selected)%nat then Some selected else None
      | Some f => Some f
      end in
    Ok (mkHub (h_client h) devs selected file (h_jobs h) (h_events h)).

(** [toggleDeviceSelection(deviceId, isSelected)]. *)
Definition toggleDeviceSelection (h : Hub) (deviceId : string) (sel : bool) : Hub :=
  match get_device (h_devices h) deviceId with
  | None => h
  | Some _ =>
      let selected := if sel then set_add (h_selected h) deviceId
                      else set_delete (h_selected h) deviceId in
      mkHub (h_client h) (map_update (h_devices h) deviceId (set_isSelected sel))
        selected (Some selected) (h_jobs h) (h_events h)
  end.

(** ---- hub events and refresh ---- *)

Record MsgAttributes := mkAttrs {
  a_isOn : option bool;
  a_lightLevel : option R;
  a_colorHue : option R;
  a_colorSaturation : option R
}.

(** A device update pushed by the hub: [{ id?, attributes? }]. *)
Record DeviceMsg := mkMsg { m_id : option string; m_attributes : option MsgAttributes }.

(** The three [if]s on [update.attributes]: new state and [hasChanges]. *)
Definition apply_attributes (a : MsgAttributes) (s : DeviceState) : DeviceState * bool :=
  let '(s1, c1) :=
    match a_isOn a with
    | Some b => if Bool.eqb b (isOn s) then (s, false)
                else (mkState b (brightness s) (color s), true)
    | None => (s, false)
    end in
  let '(s2, c2) :=
    match a_lightLevel a with
    | Some v => if Req_dec_T v (brightness s1) then (s1, c1)
                else (mkState (isOn s1) v (color s1), true)
    | None => (s1, c1)
    end in
  match a_colorHue a with
  | Some hue => (mkState (isOn s2) (brightness s2)
                   (Some (mkColor hue (num_or (a_colorSaturation a) 1))), true)
  | None => (s2, c2)
  end.

(** [handleDeviceUpdate(update)]. *)
Definition handleDeviceUpdate (h : Hub) (m : DeviceMsg) : Hub :=
  match m_id m with
  | None => h
  | Some key =>
      if String.eqb key "" then h else
      match get_device (h_devices h) key with
      | None => h
      | Some d =>
          let '(s', changed) :=
            match m_attributes m with
            | Some a => apply_attributes a (currentState d)
            | None => (currentState d, false)
            end in
          mkHub (h_client h) (map_update (h_devices h) key (set_state s'))
            (h_selected h) (h_selection_file h) (h_jobs h)
            (if changed then h_events h ++ [EvDeviceUpdate key] else h_events h)
      end
  end.

(** One iteration of [currentDevices.forEach(...)] of [refreshDeviceStates]. *)
Definition refresh_one (devs : list Device) (r : RawLight) : list Device :=
  match get_device devs (r_id r) with
  | None => devs
  | Some d =>
      let s := currentState d in
      let s' := mkState (bool_or_false (r_isOn r)) (num_or (r_lightLevel r) 0)
                  (match r_colorHue r with
                   | Some hue => Some (mkColor hue (num_or (r_colorSaturation r) 1))
                   | None => color s
                   end) in
      map_update devs (r_id r) (set_state s')
  end.

(** [refreshDeviceStates()]; [None] is a failing [lights.list()], which is
    caught and logged. *)
Definition refreshDeviceStates (h : Hub) (listed : option (list RawLight)) : Hub :=
  if negb (h_client h) then h
  else match listed with
       | None => h
       | Some l => mkHub (h_client h) (fold_left refresh_one l (h_devices h))
                     (h_selected h) (h_selection_file h) (h_jobs h) (h_events h)
       end.

(** ---- batch and single-light updates ---- *)

(** The guard [!device || !device.isSelected || !device.currentState.isOn]. *)
Definition batch_target (devs : list Device) (key : string) : option Device :=
  match get_device devs key with
  | Some d => if isSelected d && isOn (currentState d) then Some d else None
  | None => None
  end.

(** One iteration of the optimistic [updates.forEach(...)]: the registry
    after it and whether the device goes into [updatedDevices]. *)
Definition batch_optimistic_one (devs : list Device) (u : BatchUpdate)
  : list Device * bool :=
  match batch_target devs (bu_deviceId u) with
  | None => (devs, false)
  | Some d =>
      let s := currentState d in
      let '(s1, c1) :=
        match bu_color u with
        | Some c => if canChangeColor (capabilities d)
                    then (mkState (isOn s) (brightness s) (Some (mkColor (hue c) (saturation c))), true)
                    else (s, false)
        | None => (s, false)
        end in
      let '(s2, c2) :=
        match bu_brightness u with
        | Some b => if canChangeBrightness (capabilities d)
                    then (mkState (isOn s1) b (color s1), true)
                    else (s1, c1)
        | None => (s1, c1)
        end in
      (map_update devs (bu_deviceId u) (set_state s2), c2)
  end.

Fixpoint batch_optimistic (devs : list Device) (us : list BatchUpdate)
  : list Device * list string :=
  match us with
  | [] => (devs, [])
  | u :: rest =>
      let '(devs1, changed) := batch_optimistic_one devs u in
      let '(devs2, ids) := batch_optimistic devs1 rest in
      (devs2, if changed then bu_deviceId u :: ids else ids)
  end.

(** [updateLightsBatch(updates)]: when connected, the optimistic update,
    the ['devicesUpdate'] event and the queued unit of work. *)
Definition updateLightsBatch (h : Hub) (us : list BatchUpdate) : Hub :=
  if negb (h_client h) then h
  else
    let '(devs, ids) := batch_optimistic (h_devices h) us in
    mkHub (h_client h) devs (h_selected h) (h_selection_file h)
      (h_jobs h ++ [HBatch us])
      (if (0 <? List.length ids)%nat then h_events h ++ [EvDevicesUpdate ids] else h_events h).

(** One iteration of [for (const update of updates)] in the queued work. *)
Definition batch_calls_one (devs : list Device) (u : BatchUpdate) : list BCall :=
  match batch_target devs (bu_deviceId u) with
  | None => []
  | Some d =>
      (match bu_color u with
       | Some c => if canChangeColor (capabilities d)
                   then [BSetLightColor (bu_deviceId u) (js_round (hue c)) (saturation c)
                           (bu_transitionTime u)]
                   else []
       | None => [] end) ++
      (match bu_brightness u with
       | Some b => if canChangeBrightness (capabilities d)
                   then [BSetLightLevel (bu_deviceId u) (js_round (Rmax 1 (Rmin 100 b)))
                           (bu_transitionTime u)]
                   else []
       | None => [] end)
  end.

(** [update.brightness && ...]: [0] is falsy. *)
Definition truthy_num (x : R) : bool := if Req_dec_T x 0 then false else true.

(** [updateSingleLight(update)]. *)
Definition updateSingleLight (h : Hub) (u : SingleUpdate) : Result Hub :=
  if negb (h_client h) then Throw "DIRIGERA client not initialized"
  else
    match get_device (h_devices h) (su_deviceId u) with
    | None => Ok h
    | Some d =>
        if negb (isOn (currentState d)) then Ok h
        else
          let s := currentState d in
          let '(s1, c1) :=
            match su_color u with
            | Some c => if canChangeColor (capabilities d)
                        then (mkState (isOn s) (brightness s) (Some (mkColor (hue c) (saturation c))), true)
                        else (s, false)
            | None => (s, false)
            end in
          let '(s2, c2) :=
            if truthy_num (su_brightness u) && canChangeBrightness (capabilities d)
            then (mkState (isOn s1) (su_brightness u) (color s1), true)
            else (s1, c1) in
          let d' := set_state s2 d in
          Ok (mkHub (h_client h) (map_update (h_devices h) (su_deviceId u) (set_state s2))
                (h_selected h) (h_selection_file h) (h_jobs h ++ [HSingle d' u])
                (if c2 then h_events h ++ [EvDeviceUpdate (su_deviceId u)] else h_events h))
    end.

(** The queued work of [updateSingleLight], on the captured [device]. *)
Definition single_calls (d : Device) (u : SingleUpdate) : list BCall :=
  (match su_color u with
   | Some c => if canChangeColor (capabilities d)
               then [BSetLightColor (su_deviceId u) (js_round (hue c)) (saturation c)
                       (Some (su_transitionTime u))]
               else []
   | None => [] end) ++
  (if truthy_num (su_brightness u) && canChangeBrightness (capabilities d)
   then [BSetLightLevel (su_deviceId u) (js_round (Rmax 1 (Rmin 100 (su_brightness u))))
           (Some (su_transitionTime u))]
   else []).

(** Running a queued unit of work on the registry as it is then. *)
Definition run_hub_job (devs : list Device) (j : HubJob) : list BCall :=
  match j with
  | HBatch us => flat_map (batch_calls_one devs) us
  | HSingle d u => single_calls d u
  end.

(** ---- commands ---- *)

Inductive CommandType := PULSE | SET_COLOR | SET_BRIGHTNESS | STROBE.

Record LightCommand := mkCommand {
  c_type : CommandType;
  c_color : option Color;
  c_brightness : option R;
  c_transitionTime : option R;
  c_returnToPrevious : bool;
  c_returnDelay : option R
}.

(** An [updateLights] call issued now, or from a [setTimeout] after [ms]. *)
Inductive Issued := Now (u : LightUpdate) | Later (ms : R) (u : LightUpdate).

(** [executePulseCommand(command)] on the registry values in Map order. *)
Definition executePulseCommand (devs : list Device) (cmd : LightCommand) : list Issued :=
  match c_brightness cmd with
  | None => []
  | Some b =>
      match devs with
      | [] => []
      | d0 :: _ =>
          let originalBrightness := num_or (Some (brightness (currentState d0))) 50 in
          let tt := num_or (c_transitionTime cmd) 50 in
          Now (mkUpdate None (Some b) (Some tt) None) ::
          (if c_returnToPrevious cmd
           then [Later (num_or (c_returnDelay cmd) 100)
                   (mkUpdate None (Some originalBrightness) (Some tt) None)]
           else [])
      end
  end.

(** [executeStrobeCommand()]: ten updates, each followed by a 100 ms sleep. *)
Definition executeStrobeCommand : list Issued :=
  map (fun i : nat => Now (mkUpdate None (Some (if Nat.even i then 100 else 10)) (Some 0) None))
      (seq 0 10).

(** [executeCommand(command)]. *)
Definition executeCommand (devs : list Device) (cmd : LightCommand) : list Issued :=
  match c_type cmd with
  | PULSE => executePulseCommand devs cmd
  | SET_COLOR =>
      match c_color cmd with
      | Some c => [Now (mkUpdate (Some c) None (c_transitionTime cmd) None)]
      | None => []
      end
  | SET_BRIGHTNESS =>
      match c_brightness cmd with
      | Some b => [Now (mkUpdate None (Some b) (c_transitionTime cmd) None)]
      | None => []
      end
  | STROBE => executeStrobeCommand
  end.

Definition discover_rest (devs : list Device) (rs : list RawLight) : list Device :=
  fold_left (fun ds r => map_set ds (device_info r false)) rs devs.

(** The selection invariant: registry keys are unique and a device is
    flagged [isSelected] exactly when its id is in [selectedDeviceIds]. *)
Definition selection_consistent (h : Hub) : Prop :=
  NoDup (map id (h_devices h)) /\
  forall d, In d (h_devices h) -> isSelected d = set_has (h_selected h) (id d).


(** The invariant on a registry and a selection set. *)
Definition consistent_on (devs : list Device) (sel : list string) : Prop :=
  NoDup (map id devs) /\ forall d, In d devs -> isSelected d = set_has sel (id d).

End Hub.

(* ================================================================= *)
(** ** SceneEngine loops and persisted overrides                       *)
(**    (src/src/server/services/SceneEngine.ts)                         *)
(* ================================================================= *)

Module SceneLoops.
Import Dirigera SceneEngine SceneColor Hub.
Local Open Scope R_scope.

(** [getEligibleDevices()] on [dirigeraService.getDevices()], the registry
    values in Map order. *)
Definition getEligibleDevices (devs : list Device) : list Device :=
  filter (fun d => isOn (currentState d) && isSelected d && canChangeColor (capabilities d)) devs.

(** [getRandomColorFromPalette()] with [Math.random()] = [rnd]; [None] is
    [undefined]. *)
Definition getRandomColorFromPalette (cur : option Scene) (rnd : R) : option Color :=
  match cur with
  | None => Some (mkColor 0 0)
  | Some s => randomColor (palette s) rnd
  end.

(** [Math.random()] as the sequence of its results: [rand k] is the value
    of the [k]-th call. *)
Definition Random := nat -> R.

(** [devices.filter(() => Math.random() > 0.3)], the [k]-th call first. *)
Fixpoint filter_random (rand : Random) (k : nat) (ds : list Device) : list Device :=
  match ds with
  | [] => []
  | d :: rest =>
      if Rlt_dec (3/10) (rand k) then d :: filter_random rand (S k) rest
      else filter_random rand (S k) rest
  end.

(** The [devicesToUpdate.map(...)] of [driftLoop]: two calls of
    [Math.random()] per device, the colour first. *)
Fixpoint drift_map (s : Scene) (rand : Random) (k : nat) (ds : list Device)
  : list SingleUpdate :=
  match ds with
  | [] => []
  | d :: rest =>
      let color := getRandomColorFromPalette (Some s) (rand k) in
      let variation := transitionSpeed s * (4/10) in
      let transitionTime := transitionSpeed s + (rand (S k) * variation - variation / 2) in
      mkSingle (id d) color (sc_brightness s) (IZR (js_round transitionTime))
        :: drift_map s rand (S (S k)) rest
  end.

(** [driftLoop()]: the [updateSingleLight] calls it makes, the [k]-th
    [Math.random()] call being [rand k]. *)
Definition driftLoop (st : State) (devs : list Device) (rand : Random) : list SingleUpdate :=
  match currentScene st with
  | Some s =>
      if isRunning st then
        let ds := getEligibleDevices devs in
        drift_map s rand (List.length ds) (filter_random rand 0 ds)
      else []
  | None => []
  end.

Fixpoint initial_map (s : Scene) (rand : Random) (k : nat) (ds : list Device)
  : list BatchUpdate :=
  match ds with
  | [] => []
  | d :: rest =>
      mkBatch (id d) (getRandomColorFromPalette (Some s) (rand k)) (Some (sc_brightness s))
        (Some 500) :: initial_map s rand (S k) rest
  end.

(** [applySceneInitialState()]: the argument of its [updateLightsBatch]
    call, if it makes one. *)
Definition applySceneInitialState (cur : option Scene) (devs : list Device) (rand : Random)
  : option (list BatchUpdate) :=
  match cur with
  | None => None
  | Some s =>
      match getEligibleDevices devs with
      | [] => None
      | ds => Some (initial_map s rand 0 ds)
      end
  end.

(** The object [overrides : Record<string, Partial<Scene>>], keys in
    insertion order; the file holds its JSON text, which [JSON.parse]
    reads back as the same object. *)
Definition Overrides := list (string * SceneUpdate).

(** [overrides[key] = v]. *)
Fixpoint ov_set (o : Overrides) (key : string) (v : SceneUpdate) : Overrides :=
  match o with
  | [] => [(key, v)]
  | (k, w) :: rest => if String.eqb k key then (k, v) :: rest else (k, w) :: ov_set rest key v
  end.

(** [overrides[key]] ([None] is [undefined]). *)
Definition ov_get (o : Overrides) (key : string) : option SceneUpdate :=
  match find (fun kv => String.eqb (fst kv) key) o with
  | Some kv => Some (snd kv)
  | None => None
  end.

(** [x !== y] on numbers. *)
Definition num_neq (x y : R) : bool := if Req_dec_T x y then false else true.

(** One iteration of [this.scenes.forEach(...)] of [saveSceneOverrides]. *)
Definition save_one (presets : list Scene) (o : Overrides) (s : Scene) : Overrides :=
  match find_scene presets (sc_id s) with
  | Some p =>
      if num_neq (transitionSpeed s) (transitionSpeed p) || num_neq (sc_brightness s) (sc_brightness p)
      then ov_set o (sc_id s) (mkSceneUpdate (Some (transitionSpeed s)) (Some (sc_brightness s)))
      else o
  | None => o
  end.

(** [saveSceneOverrides()]: the object written to SCENES_FILE. *)
Definition saveSceneOverrides (presets scs : list Scene) : Overrides :=
  fold_left (save_one presets) scs [].

(** [loadSceneOverrides()] on [this.scenes]; [None] is a missing file. *)
Definition loadSceneOverrides (scs : list Scene) (file : option Overrides) : list Scene :=
  match file with
  | None => scs
  | Some o => map (fun s => match ov_get o (sc_id s) with
                            | Some u => merge_scene s u
                            | None => s
                            end) scs
  end.

(** A scene as [updateScene] leaves a preset: the preset with its two
    editable fields replaced. *)
Definition edited_from (s p : Scene) : Prop :=
  s = merge_scene p (mkSceneUpdate (Some (transitionSpeed s)) (Some (sc_brightness s))).

(** What the optimistic updates of the registry leave unchanged. *)
Definition reg_key (d : Device) : string * bool * bool * Capabilities :=
  (id d, isSelected d, isOn (currentState d), capabilities d).

End SceneLoops.

(* ================================================================= *)
(** ** SyncEngine  (src/backend/src/controllers/SpotifyController.ts)   *)
(**    and the backend DirigeraService.updateSingleLight it drives      *)
(**    (src/backend/src/services/DirigeraService.ts)                    *)
(* ================================================================= *)

Module Sync.
Import Dirigera Hub SceneColor.
Local Open Scope R_scope.

Inductive ColorMode := Frequency | Mood | RandomColors.

Record SyncSettings := mkSettings {
  sensitivity : R;
  colorMode : ColorMode;
  effectIntensity : R;
  smoothing : R;
  beatDetectionThreshold : R;
  colorTransitionSpeed : R
}.

(** [getDefaultSettings()]. *)
Definition getDefaultSettings : SyncSettings :=
  mkSettings (7/10) Frequency (8/10) (6/10) (6/10) 200.






(** ---- light patterns ---- *)

Definition bassColor : Color := mkColor 0 (9/10).
Definition midsColor : Color := mkColor 120 (8/10).
Definition trebleColor : Color := mkColor 240 (9/10).
Definition accentColor : Color := mkColor 60 (8/10).

(** An element of the [updates] array of a pattern. *)
Record PatternUpdate := mkPattern {
  p_deviceId : string;
  p_color : Color;
  p_brightness : R
}.

(** [devices.map((device, index) => ...)]. *)
Fixpoint mapi {A B} (f : nat -> A -> B) (i : nat) (l : list A) : list B :=
  match l with
  | [] => []
  | x :: rest => f i x :: mapi f (S i) rest
  end.

Definition createAlternatingPattern (devices : list Device) (color1 color2 : Color)
    (brightness1 brightness2 : R) : list PatternUpdate :=
  mapi (fun index device =>
          mkPattern (id device) (if Nat.even index then color1 else color2)
            (if Nat.even index then brightness1 else brightness2)) 0 devices.

Definition createTrioPattern (devices : list Device) (color1 color2 color3 : Color)
    (brightness1 brightness2 brightness3 : R) : list PatternUpdate :=
  mapi (fun index device =>
          let groupIndex := Nat.modulo index 3 in
          mkPattern (id device)
            (if (groupIndex =? 0)%nat then color1 else if (groupIndex =? 1)%nat then color2 else color3)
            (if (groupIndex =? 0)%nat then brightness1
             else if (groupIndex =? 1)%nat then brightness2 else brightness3)) 0 devices.

(** [createWavePattern]; [now] is [Date.now()]. *)
Definition createWavePattern (now : R) (devices : list Device) (color1 color2 : Color)
    (brightness1 brightness2 : R) : list PatternUpdate :=
  let wavePhase := js_rem (now / 2000) (PI * 2) in
  mapi (fun index device =>
          let devicePhase := (INR index / INR (List.length devices)) * PI * 2 in
          let waveValue := (sin (wavePhase + devicePhase) + 1) / 2 in
          mkPattern (id device) (if Rlt_dec (1/2) waveValue then color1 else color2)
            (IZR (js_round (brightness1 + waveValue * (brightness2 - brightness1))))) 0 devices.

Definition createQuadrantPattern (devices : list Device) (color1 color2 color3 color4 : Color)
    (brightness1 brightness2 brightness3 : R) : list PatternUpdate :=
  mapi (fun index device =>
          match Nat.modulo index 4 with
          | 0%nat => mkPattern (id device) color1 brightness1
          | 1%nat => mkPattern (id device) color2 brightness2
          | 2%nat => mkPattern (id device) color3 brightness3
          | _ => mkPattern (id device) color4 (IZR (js_round ((brightness1 + brightness2) / 2)))
          end) 0 devices.

(** [createLightPattern(totalEnergy, bass, mids, treble)] on the registry
    [getDevices()] returns after its [refreshDeviceStates()]; [now] is
    [Date.now()].  The result is the array given to
    [executePatternUpdates]. *)
Definition createLightPattern (devs : list Device) (now bass mids treble : R)
  : list PatternUpdate :=
  let devices := filter (fun d => isOn (currentState d) && canChangeColor (capabilities d)) devs in
  match devices with
  | [] => []
  | _ =>
      let minBrightness := 40 in
      let maxBrightness := 85 in
      let bassBrightness := IZR (js_round (minBrightness + bass * (maxBrightness - minBrightness))) in
      let midsBrightness := IZR (js_round (minBrightness + mids * (maxBrightness - minBrightness))) in
      let trebleBrightness := IZR (js_round (minBrightness + treble * (maxBrightness - minBrightness))) in
      let patternIndex := Z.rem (Int_part (now / 15000)) 4 in
      match patternIndex with
      | 0%Z => createAlternatingPattern devices bassColor trebleColor bassBrightness trebleBrightness
      | 1%Z => createTrioPattern devices bassColor midsColor trebleColor
                 bassBrightness midsBrightness trebleBrightness
      | 2%Z => createWavePattern now devices bassColor accentColor bassBrightness midsBrightness
      | 3%Z => createQuadrantPattern devices bassColor midsColor trebleColor accentColor
                 bassBrightness midsBrightness trebleBrightness
      | _ => []
      end
  end.

(** The backend [updateSingleLight(update)] on its registry: the hub calls
    it makes ([Throw] without a client). *)
Definition backend_updateSingleLight (client : bool) (devs : list Device) (u : SingleUpdate)
  : Result (list BCall) :=
  if negb client then Throw "DIRIGERA client not initialized"
  else
    match get_device devs (su_deviceId u) with
    | None => Ok []
    | Some device =>
        if negb (isOn (currentState device)) then Ok []
        else
          Ok ((match su_color u with
               | Some c => if canChangeColor (capabilities device)
                           then [BSetLightColor (su_deviceId u) (js_round (hue c)) (saturation c)
                                   (Some (su_transitionTime u))]
                           else []
               | None => [] end) ++
              (if truthy_num (su_brightness u) && canChangeBrightness (capabilities device)
               then [BSetLightLevel (su_deviceId u)
                       (js_round (Rmax 1 (Rmin 100 (su_brightness u))))
                       (Some (su_transitionTime u))]
               else []))
    end.

(** [executePatternUpdates(updates)]: the calls of the successive
    [updateSingleLight] calls, on a connected service whose registry does
    not change meanwhile. *)
Definition executePatternUpdates (devs : list Device) (updates : list PatternUpdate) : list BCall :=
  flat_map (fun pu =>
              match backend_updateSingleLight true devs
                      (mkSingle (p_deviceId pu) (Some (p_color pu)) (p_brightness pu) 300) with
              | Ok cs => cs
              | Throw _ => []
              end) updates.

(** ---- frequency updates ---- *)

Definition lightUpdateInterval : R := 3000.

Definition VIBRANT_COLORS : list Smoothing.Color :=
  [Smoothing.mkColor 0 (9/10); Smoothing.mkColor 30 (9/10); Smoothing.mkColor 60 (8/10);
   Smoothing.mkColor 120 (9/10); Smoothing.mkColor 180 (8/10); Smoothing.mkColor 240 (9/10);
   Smoothing.mkColor 270 (9/10); Smoothing.mkColor 300 (8/10)].

(** [array[i]] at an integer index ([None] is [undefined]). *)
Definition js_index {A} (l : list A) (i : Z) : option A :=
  if (i <? 0)%Z then None else nth_error l (Z.to_nat i).

(** [mapFrequencyBandsToColor(bass, mids, treble)]; [clock] is its
    [Date.now()]. *)
Definition mapFrequencyBandsToColor (clock bass mids treble : R) : option Smoothing.Color :=
  let total := bass + mids + treble in
  let timeComponent := Int_part (clock / 3000) in
  let audioComponent := Int_part (total * 50) in
  let colorIndex := Z.rem (timeComponent + audioComponent) (Z.of_nat (List.length VIBRANT_COLORS)) in
  js_index VIBRANT_COLORS colorIndex.

(** [mapMoodToColor(bass, mids, treble)] with [Math.random()] = [rnd]. *)
Definition mapMoodToColor (bass mids treble rnd : R) : Smoothing.Color :=
  let totalEnergy := bass + mids + treble in
  if Rlt_dec totalEnergy (3/10) then Smoothing.mkColor (240 + rnd * 60) (6/10)
  else if Rlt_dec totalEnergy (6/10) then Smoothing.mkColor (120 + rnd * 60) (7/10)
  else Smoothing.mkColor (rnd * 60) (8/10).

(** [generateRandomColor(energy)] with [Math.random()] = [rnd]. *)
Definition generateRandomColor (energy rnd : R) : Smoothing.Color :=
  Smoothing.mkColor (rnd * 360) (Rmin 1 (4/10 + energy * (6/10))).

(** [mapFrequencyToColor(bass, mids, treble)]. *)
Definition mapFrequencyToColor (settings : SyncSettings) (clock bass mids treble rnd : R)
  : option Smoothing.Color :=
  match colorMode settings with
  | Frequency => mapFrequencyBandsToColor clock bass mids treble
  | Mood => Some (mapMoodToColor bass mids treble rnd)
  | RandomColors => Some (generateRandomColor (bass + mids + treble) rnd)
  end.

Fixpoint all_defined {A} (l : list (option A)) : option (list A) :=
  match l with
  | [] => Some []
  | None :: _ => None
  | Some x :: rest => match all_defined rest with Some r => Some (x :: r) | None => None end
  end.

(** [AnalysisState.smoothColor(newColor)] on a history that may hold
    [undefined] (pushed when a colour index was out of range): reading
    [color.hue] of such an entry in the [forEach] throws a [TypeError],
    after the push and shift. *)
Definition smoothColor_js (hist : list (option Smoothing.Color)) (newColor : option Smoothing.Color)
  : list (option Smoothing.Color) * Result (option Smoothing.Color) :=
  let h0 := hist ++ [newColor] in
  let h := if (Smoothing.historySize <? List.length h0)%nat then tl h0 else h0 in
  if (List.length h =? 1)%nat then (h, Ok newColor)
  else
    match all_defined h with
    | None => (h, Throw "TypeError")
    | Some l =>
        let '(totalHue, totalSaturation, totalWeight) :=
          Smoothing.accumulate (INR (List.length h)) 0 l 0 0 0 in
        let smoothedHue := (Smoothing.js_atan2 0 (totalHue / totalWeight) * 180) / PI in
        let normalizedHue := if Rlt_dec smoothedHue 0 then smoothedHue + 360 else smoothedHue in
        (h, Ok (Some (Smoothing.mkColor normalizedHue
                        (Rmax 0 (Rmin 1 (totalSaturation / totalWeight))))))
    end.

Record FreqSync := mkFreqSync {
  lastLightUpdate : R;
  colorHistory : list (option Smoothing.Color);
  freqSettings : SyncSettings
}.

(** [handleFrequencyUpdate({ bass, mids, treble })] at [Date.now()] = [now]
    ([clock] and [rnd] as in [mapFrequencyToColor]): the state after it and
    the arguments [(totalEnergy, bass, mids, treble)] of the
    [createLightPattern] call, if it is reached. *)
Definition handleFrequencyUpdate (st : FreqSync) (bass mids treble now clock rnd : R)
  : FreqSync * option (R * R * R * R) :=
  let color := mapFrequencyToColor (freqSettings st) clock bass mids treble rnd in
  if Rlt_dec (now - lastLightUpdate st) lightUpdateInterval then
    let '(h, _) := smoothColor_js (colorHistory st) color in
    (mkFreqSync (lastLightUpdate st) h (freqSettings st), None)
  else
    let '(h, r) := smoothColor_js (colorHistory st) color in
    let st' := mkFreqSync now h (freqSettings st) in
    match r with
    | Throw _ => (st', None)
    | Ok _ => (st', Some (bass + mids + treble, bass, mids, treble))
    end.

(** Frequency messages [(bass, mids, treble, now, clock, rnd)] handled one
    after the other: the times at which [createLightPattern] is called. *)
Fixpoint freq_run (st : FreqSync) (msgs : list (R * R * R * R * R * R)) : list R :=
  match msgs with
  | [] => []
  | (b, m, t, now, clock, rnd) :: rest =>
      let '(st', call) := handleFrequencyUpdate st b m t now clock rnd in
      match call with
      | Some _ => now :: freq_run st' rest
      | None => freq_run st' rest
      end
  end.

(** A pattern entry as the four patterns build them from bands in [0, 1]. *)
Definition pattern_ok (pu : PatternUpdate) : Prop :=
  In (p_color pu) [bassColor; midsColor; trebleColor; accentColor] /\
  exists k, p_brightness pu = IZR k /\ (40 <= k <= 85)%Z.

End Sync.

(* ================================================================= *)
(** ** Backend DirigeraService.updateLights and the song-section effects
       (src/backend/src/services/DirigeraService.ts,
        src/backend/src/controllers/SpotifyController.ts)             *)
(* ================================================================= *)

Module Backend.
Import Dirigera Hub.
Local Open Scope R_scope.

(** One iteration of [for (const device of this.devices.values())] in the
    unit of work queued by the backend [updateLights(update)]. The backend
    [LightUpdate] has no [isOn] field and the code reads none: [u_isOn] is
    ignored. *)
Definition device_calls (u : LightUpdate) (device : Device) : list BCall :=
  if negb (isOn (currentState device)) then []
  else
    (match u_color u with
     | Some c => if canChangeColor (capabilities device)
                 then [BSetLightColor (id device) (js_round (hue c)) (saturation c)
                         (Some (tt_or_default (u_transitionTime u)))]
                 else []
     | None => [] end) ++
    (match u_brightness u with
     | Some b => if canChangeBrightness (capabilities device)
                 then [BSetLightLevel (id device) (js_round (Rmax 1 (Rmin 100 b)))
                         (Some (tt_or_default (u_transitionTime u)))]
                 else []
     | None => [] end).

(** The backend [updateLights(update)]: [Throw] without a client, otherwise
    the calls of the queued unit of work on the registry when it runs. *)
Definition updateLights (client : bool) (devs : list Device) (u : LightUpdate) : Result (list BCall) :=
  if negb client then Throw "DIRIGERA client not initialized"
  else Ok (flat_map (device_calls u) devs).

(** Successive [await updateLights(...)] calls inside one [try]: the calls
    made, on a registry that does not change meanwhile; a throw ends the
    sequence. *)
Fixpoint run_updates (client : bool) (devs : list Device) (us : list LightUpdate) : list BCall :=
  match us with
  | [] => []
  | u :: rest =>
      match updateLights client devs u with
      | Ok cs => cs ++ run_updates client devs rest
      | Throw _ => []
      end
  end.

Definition issued_update (i : Issued) : LightUpdate :=
  match i with Now u => u | Later _ u => u end.

(** The backend [executeCommand(command)] has the same code as the one of
    LightsController.ts: the calls of the updates it issues, the delayed
    pulse return included, on an unchanged registry. *)
Definition executeCommand_calls (client : bool) (devs : list Device) (cmd : LightCommand) : list BCall :=
  run_updates client devs (map issued_update (executeCommand devs cmd)).

(** [SongSection['type']]. *)
Inductive SectionType := DROP | BUILD | BREAKDOWN | VERSE | CHORUS.

(** [applyDropEffect()]: twelve updates, each followed by an 80 ms sleep. *)
Definition applyDropEffect : list LightUpdate :=
  map (fun i : nat =>
         mkUpdate (Some (mkColor (IZR (Z.rem (Z.of_nat i * 30) 360)) 1))
                  (Some (if Nat.even i then 100 else 20)) (Some 0) None) (seq 0 12).

(** [applyBuildEffect()]: [steps + 1 = 21] updates, each followed by a
    150 ms sleep. *)
Definition applyBuildEffect : list LightUpdate :=
  let steps := 20 in
  let stepDelay := 150 in
  map (fun i : nat =>
         let progress := INR i / steps in
         let brightness := 30 + (70 * progress) in
         let saturation := 4 / 10 + (6 / 10 * progress) in
         let hue := 200 + (160 * progress) in
         mkUpdate (Some (mkColor hue saturation)) (Some brightness) (Some stepDelay) None)
      (seq 0 21).

Definition applyBreakdownEffect : list LightUpdate :=
  [mkUpdate (Some (mkColor 220 (3 / 10))) (Some 15) (Some 1000) None].

Definition applyChorusEffect : list LightUpdate :=
  [mkUpdate (Some (mkColor 60 (9 / 10))) (Some 85) (Some 300) None].

(** [handleSongSection(section)]: the [updateLights] calls of the effect. *)
Definition handleSongSection (t : SectionType) : list LightUpdate :=
  match t with
  | DROP => applyDropEffect
  | BUILD => applyBuildEffect
  | BREAKDOWN => applyBreakdownEffect
  | CHORUS => applyChorusEffect
  | VERSE => []
  end.

Definition section_calls (client : bool) (devs : list Device) (t : SectionType) : list BCall :=
  run_updates client devs (handleSongSection t).

Definition bcall_tt (c : BCall) : option R :=
  match c with BSetLightColor _ _ _ t | BSetLightLevel _ _ t => t end.

End Backend.

(* ================================================================= *)
(** ** LightsController.updateLightSelection
       (src/src/server/controllers/LightsController.ts)                *)
(* ================================================================= *)

Module Selection.
Import Dirigera Hub.

(** [updateLightSelection] with an array body [selectedLights]: for each
    device of the [getDevices()] snapshot, in Map order,
    [toggleDeviceSelection(device.id, selectedLights.includes(device.id))]. *)
Definition updateLightSelection (h : Hub) (selectedLights : list string) : Hub :=
  fold_left (fun h d => toggleDeviceSelection h (id d) (set_has selectedLights (id d)))
            (h_devices h) h.

End Selection.

(** ** [LatencyCompensator] (backend/src/controllers/SpotifyController.ts) *)
Module Latency.
Import Hub.
Local Open Scope R_scope.

(** [ScheduledCommand] (types/index.ts). *)
Record ScheduledCommand := mkScheduled {
  command : LightCommand;
  sendTime : R
}.

Record LatencyCompensator := mkCompensator {
  commandBuffer : list ScheduledCommand;
  averageLatency : R
}.

(** [commandBuffer.sort((a, b) => a.sendTime - b.sendTime)]: the array sort
    is stable, so it is the insertion sort that puts each element after
    those whose [sendTime] is not larger. *)
Fixpoint insert_by_sendTime (x : ScheduledCommand) (l : list ScheduledCommand) : list ScheduledCommand :=
  match l with
  | [] => [x]
  | y :: ys => if Rlt_dec (sendTime x) (sendTime y) then x :: y :: ys else y :: insert_by_sendTime x ys
  end.

Definition sort_by_sendTime (l : list ScheduledCommand) : list ScheduledCommand :=
  fold_left (fun acc x => insert_by_sendTime x acc) l [].

(** [scheduleCommand(command, targetTime)]. *)
Definition scheduleCommand (lc : LatencyCompensator) (c : LightCommand) (targetTime : R) : LatencyCompensator :=
  let sc := mkScheduled c (targetTime - averageLatency lc) in
  mkCompensator (sort_by_sendTime (commandBuffer lc ++ [sc])) (averageLatency lc).

(** The [while] loop of the processing interval: shift and execute the head
    while its [sendTime <= now]. *)
Fixpoint drain (now : R) (buf : list ScheduledCommand) : list LightCommand * list ScheduledCommand :=
  match buf with
  | [] => ([], [])
  | x :: rest =>
      if Rle_dec (sendTime x) now then
        let '(ex, r) := drain now rest in (command x :: ex, r)
      else ([], buf)
  end.

(** One run of the 10 ms interval at [Date.now()] = [now]: the commands
    passed to [executeCommand], in order, and the compensator after it. *)
Definition processTick (lc : LatencyCompensator) (now : R) : list LightCommand * LatencyCompensator :=
  let '(ex, r) := drain now (commandBuffer lc) in
  let cutoffTime := now - 5000 in
  (ex, mkCompensator (filter (fun cmd => if Rlt_dec cutoffTime (sendTime cmd) then true else false) r)
                     (averageLatency lc)).

(** [updateLatency(newLatency)]. *)
Definition updateLatency (lc : LatencyCompensator) (newLatency : R) : LatencyCompensator :=
  mkCompensator (commandBuffer lc) newLatency.

Definition sorted_buffer (l : list ScheduledCommand) : Prop :=
  Sorted (fun a b => sendTime a <= sendTime b) l.

End Latency.

(* ================================================================= *)
(** ** AudioAnalyzer.analyzeFrequencyBands
       (src/lib/services/AudioAnalyzer.ts)                             *)
(* ================================================================= *)

Module Audio.
Import Hub.
Local Open Scope R_scope.

(** [FrequencyData] (types/index.ts). *)
Record FrequencyData := mkFrequencyData {
  bass : R;
  mids : R;
  treble : R;
  dominantFrequency : R;
  spectrum : list Z
}.

(** [array.slice(start, end)]: negative indices count from the end, both
    are clamped to [[0, length]], and [end <= start] gives an empty array. *)
Definition js_slice {A} (l : list A) (start end_ : Z) : list A :=
  let len := Z.of_nat (List.length l) in
  let k := if (start <? 0)%Z then Z.max (len + start) 0 else Z.min start len in
  let f := if (end_ <? 0)%Z then Z.max (len + end_) 0 else Z.min end_ len in
  firstn (Z.to_nat (f - k)) (skipn (Z.to_nat k) l).

(** [getAverageVolume(array)]. *)
Definition getAverageVolume (array : list Z) : R :=
  if (List.length array =? 0)%nat then 0
  else fold_left (fun a b => a + IZR b) array 0 / INR (List.length array).

(** The loop looking for the dominant bin: [i] is the index of the head of
    [data]; a bin replaces the current one only when strictly larger. *)
Fixpoint dominant_loop (data : list Z) (i : nat) (maxValue : Z) (dominantBin : nat) : nat :=
  match data with
  | [] => dominantBin
  | v :: rest =>
      if (maxValue <? v)%Z then dominant_loop rest (S i) v i
      else dominant_loop rest (S i) maxValue dominantBin
  end.

(** [analyzeFrequencyBands(frequencyData)]; [audioContext] is [None] when
    [this.audioContext] is null, otherwise its [sampleRate]. The analyser
    hands it [frequencyBinCount > 0] bins; on an empty array JS would divide
    by zero, which the model does not follow. *)
Definition analyzeFrequencyBands (audioContext : option R) (frequencyData : list Z) : Result FrequencyData :=
  match audioContext with
  | None => Throw "Audio context not available"
  | Some sampleRate =>
      let nyquist := sampleRate / 2 in
      let binWidth := nyquist / INR (List.length frequencyData) in
      let bassBins := (Int_part (20 / binWidth), Int_part (200 / binWidth)) in
      let midBins := (Int_part (200 / binWidth), Int_part (1000 / binWidth)) in
      let trebleBins := (Int_part (1000 / binWidth),
                         Z.min (Int_part (20000 / binWidth)) (Z.of_nat (List.length frequencyData) - 1)) in
      let bass := getAverageVolume (js_slice frequencyData (fst bassBins) (snd bassBins)) / 255 in
      let mids := Rmin 1 ((getAverageVolume (js_slice frequencyData (fst midBins) (snd midBins)) / 255) * (12 / 10)) in
      let treble := Rmin 1 ((getAverageVolume (js_slice frequencyData (fst trebleBins) (snd trebleBins)) / 255) * (18 / 10)) in
      let dominantBin := dominant_loop frequencyData 0 0 0 in
      Ok (mkFrequencyData bass mids treble (INR dominantBin * binWidth) frequencyData)
  end.

Definition byte (v : Z) : Prop := (0 <= v <= 255)%Z.

End Audio.

(* ================================================================= *)
(** * Properties                                                       *)
(* ================================================================= *)

Module CommandQueueFacts.
Import CommandQueue.

Lemma start_times_app : forall a b,
  start_times (a ++ b) = start_times a ++ start_times b.
Proof. intros; unfold start_times; apply flat_map_app. Qed.

Lemma logged_app : forall a b, logged (a ++ b) = logged a ++ logged b.
Proof. intros; unfold logged; apply flat_map_app. Qed.

Lemma settlements_app : forall a b,
  settlements (a ++ b) = settlements a ++ settlements b.
Proof. intros; unfold settlements; apply flat_map_app. Qed.

Lemma FOP_app {A} (R : A -> A -> Prop) : forall l1 l2,
  ForallOrdPairs R l1 -> ForallOrdPairs R l2 ->
  (forall a b, In a l1 -> In b l2 -> R a b) ->
  ForallOrdPairs R (l1 ++ l2).
Proof.
  induction l1 as [|x l1 IH]; intros l2 H1 H2 Hx; simpl; auto.
  inversion H1; subst. constructor.
  - apply Forall_app; split; auto.
    apply Forall_forall; intros b Hb; apply Hx; simpl; auto.
  - apply IH; auto. intros a b Ha Hb; apply Hx; simpl; auto.
Qed.

Lemma minInterval_eq : minInterval = 100.
Proof. reflexivity. Qed.

Lemma first_start_bound : forall now last it, item_ok it ->
  last + 100 <= first_start now last it /\ now <= first_start now last it.
Proof.
  intros now last it [Hg [Hs Hd]]; unfold first_start; rewrite minInterval_eq.
  destruct (Z.ltb_spec (now + pre_gap it - last) 100); lia.
Qed.

Lemma process_cons : forall now last it rest,
  process now last (it :: rest) =
  let t := first_start now last it in
  let '(evs, n, l) := process (t + dur it) (t + dur it) rest in
  (Start t :: Settle (t + dur it) (negb (fails it)) :: evs, n, l).
Proof.
  intros. cbn [process]. unfold wrapper, first_start.
  destruct (fails it); reflexivity.
Qed.

(** One run of [process()]. *)
Lemma process_spec : forall items now last,
  Forall item_ok items ->
  let '(evs, n, l) := process now last items in
  Forall (fun s => last + 100 <= s) (start_times evs) /\
  ForallOrdPairs (fun a b => a + 100 <= b) (start_times evs) /\
  Forall (fun s => s <= l) (start_times evs) /\
  last <= l /\ now <= n /\
  logged evs = [] /\
  settlements evs = map (fun it => negb (fails it)) items /\
  length (start_times evs) = length items.
Proof.
  induction items as [|it rest IH]; intros now last Hok.
  - simpl. repeat split; auto; try lia; constructor.
  - inversion Hok as [|? ? Hit Hrest]; subst.
    rewrite process_cons. cbv zeta.
    destruct (first_start_bound now last it Hit) as [Ht1 Ht2].
    pose proof Hit as (Hg & Hs & Hd).
    set (t := first_start now last it) in *.
    specialize (IH (t + dur it) (t + dur it) Hrest).
    destruct (process (t + dur it) (t + dur it) rest) as [[evs n] l].
    destruct IH as (Hlo & Hord & Hhi & Hl & Hn & Hlog & Hset & Hlen).
    unfold start_times, logged, settlements in *; simpl.
    rewrite Hlog, Hset, Hlen.
    repeat split; try lia; try reflexivity.
    + constructor; [lia|]. eapply Forall_impl; [|exact Hlo]; simpl; intros; lia.
    + constructor; [|exact Hord]. eapply Forall_impl; [|exact Hlo]; simpl; intros; lia.
    + constructor; [lia|exact Hhi].
Qed.

Lemma drain_spec : forall runs now last,
  runs_ok runs ->
  let evs := drain now last runs in
  Forall (fun s => last + 100 <= s) (start_times evs) /\
  ForallOrdPairs (fun a b => a + 100 <= b) (start_times evs) /\
  logged evs = [] /\
  settlements evs = map (fun it => negb (fails it)) (flat_map snd runs) /\
  length (start_times evs) = length (flat_map snd runs).
Proof.
  induction runs as [|[idle items] rs IH]; intros now last Hok; simpl.
  - repeat split; constructor.
  - inversion Hok as [|? ? [Hidle Hitems] Hrs]; subst; simpl in *.
    pose proof (process_spec items (now + idle) last Hitems) as Hp.
    destruct (process (now + idle) last items) as [[evs n] l].
    destruct Hp as (Hlo & Hord & Hhi & Hl & Hn & Hlog & Hset & Hlen).
    destruct (IH n l Hrs) as (Hlo' & Hord' & Hlog' & Hset' & Hlen').
    rewrite start_times_app, logged_app, settlements_app, Hlog, Hlog', Hset, Hset',
      map_app, !length_app, Hlen, Hlen'.
    repeat split; auto.
    + apply Forall_app; split; auto.
      eapply Forall_impl; [|exact Hlo']; simpl; intros; lia.
    + apply FOP_app; auto.
      intros a b Ha Hb.
      rewrite Forall_forall in Hhi, Hlo'.
      specialize (Hhi a Ha); specialize (Hlo' b Hb); lia.
Qed.

(** C1 (amended).  Whatever the units of work, their failures and the
    timing of the environment, no two queue items start less than
    [minInterval] = 1000/10 = 100 ms apart; every item is executed, in FIFO
    order, whether or not earlier ones failed; a failing item's error goes to
    its caller as the rejection of the promise returned by [add], and the
    queue's own ['Command execution failed:'] log is never reached. *)
Theorem queue_min_interval_between_items : forall now runs,
  runs_ok runs ->
  let evs := drain now 0 runs in
  ForallOrdPairs (fun a b => a + minInterval <= b) (start_times evs) /\
  length (start_times evs) = length (flat_map snd runs) /\
  settlements evs = map (fun it => negb (fails it)) (flat_map snd runs) /\
  logged evs = [].
Proof.
  intros now runs Hok.
  destruct (drain_spec runs now 0 Hok) as (_ & Hord & Hlog & Hset & Hlen).
  rewrite minInterval_eq. auto.
Qed.

Lemma queue_min_interval_between_items_witness :
  runs_ok [(0, [mkItem 0 0 30 true; mkItem 5 0 10 false]); (500, [mkItem 0 3 0 false])] /\
  let evs := drain 1000 0
       [(0, [mkItem 0 0 30 true; mkItem 5 0 10 false]); (500, [mkItem 0 3 0 false])] in
  ForallOrdPairs (fun a b => a + minInterval <= b) (start_times evs) /\
  length (start_times evs) = 3%nat /\
  settlements evs = [false; true; true] /\
  logged evs = [].
Proof.
  assert (H : runs_ok [(0, [mkItem 0 0 30 true; mkItem 5 0 10 false]);
                       (500, [mkItem 0 3 0 false])]).
  { unfold runs_ok, item_ok; simpl; repeat constructor; simpl; lia. }
  split; [exact H|].
  exact (queue_min_interval_between_items 1000 _ H).
Defined.

(** C1, counterexample: a failing unit of work is not logged by the queue
    (its error is handed to [reject], so [process()]'s catch never runs). *)
Lemma queue_failing_item_not_logged :
  let evs := drain 1000 0 [(0, [mkItem 0 0 5 true; mkItem 0 0 5 false])] in
  settlements evs = [false; true] /\ start_times evs = [1000; 1105] /\
  logged evs = [].
Proof. vm_compute. repeat split. Qed.

End CommandQueueFacts.

Module DirigeraFacts.
Import Dirigera.
Local Open Scope R_scope.

Lemma optimistic_id : forall u d, id (fst (optimistic u d)) = id d.
Proof.
  intros u d; unfold optimistic.
  destruct (isSelected d), (isOn (currentState d)), (not_turning_on u); simpl; auto;
  destruct (u_isOn u), (u_color u), (u_brightness u); simpl; auto;
  repeat match goal with |- context [if ?b then _ else _] => destruct b end; reflexivity.
Qed.

Lemma device_calls_dev : forall u d c,
  In c (device_calls u d) -> call_dev c = id d.
Proof.
  intros u d c; unfold device_calls.
  destruct (isSelected d), (isOn (currentState d)), (not_turning_on u); simpl;
    try tauto;
  destruct (u_isOn u), (u_color u), (u_brightness u);
  repeat match goal with |- context [if ?b then _ else _] => destruct b end;
  simpl; intuition (subst; reflexivity).
Qed.

Lemma calls_to_own : forall u d,
  calls_to (id d) (device_calls u d) = device_calls u d.
Proof.
  intros u d; unfold calls_to.
  apply forallb_filter_id, forallb_forall; intros c Hc.
  rewrite (device_calls_dev u d c Hc); apply String.eqb_refl.
Qed.

Lemma calls_to_other : forall u d x, id d <> x ->
  calls_to x (device_calls u d) = [].
Proof.
  intros u d x Hne; unfold calls_to.
  rewrite (filter_ext_in _ (fun _ => false)); [apply filter_false|].
  intros c Hc; rewrite (device_calls_dev u d c Hc).
  apply String.eqb_neq; exact Hne.
Qed.

Lemma calls_to_app : forall x a b,
  calls_to x (a ++ b) = calls_to x a ++ calls_to x b.
Proof. intros; unfold calls_to; apply filter_app. Qed.

Lemma calls_to_flat_map : forall u ds d,
  NoDup (map id ds) -> In d ds ->
  calls_to (id d) (flat_map (device_calls u) (map (fun x => fst (optimistic u x)) ds)) =
  device_calls u (fst (optimistic u d)).
Proof.
  intros u ds d; induction ds as [|x ds IH]; intros Hnd Hin; [destruct Hin|].
  inversion Hnd as [|? ? Hnotin Hnd']; subst.
  cbn [flat_map map]; rewrite calls_to_app.
  destruct Hin as [<-|Hin].
  - assert (H1 : calls_to (id x) (device_calls u (fst (optimistic u x))) =
                 device_calls u (fst (optimistic u x))).
    { rewrite <- (optimistic_id u x); apply calls_to_own. }
    rewrite H1; unfold calls_to.
    rewrite (filter_ext_in _ (fun _ => false)); [rewrite filter_false, app_nil_r; reflexivity|].
    intros c Hc. apply in_flat_map in Hc as [y [Hy Hc]].
    apply in_map_iff in Hy as [z [<- Hz]].
    rewrite (device_calls_dev _ _ _ Hc), optimistic_id.
    apply String.eqb_neq; intros He; apply Hnotin; rewrite <- He; apply in_map; auto.
  - rewrite calls_to_other; [simpl; apply IH; auto|].
    rewrite optimistic_id; intros He; apply Hnotin; rewrite He; apply in_map; auto.
Qed.

Lemma calls_of_update_to : forall svc u d,
  NoDup (map id (devices svc)) -> In d (devices svc) ->
  calls_to (id d) (calls_of_update svc u) =
  if client svc then device_calls u (fst (optimistic u d)) else [].
Proof.
  intros svc u d Hnd Hin; unfold calls_of_update, updateLights.
  destruct (client svc); simpl; [|reflexivity].
  rewrite map_map; apply calls_to_flat_map; auto.
Qed.

(** C2 (amended).  For an [updateLights] call carrying a colour and a
    brightness: a fixture with [canChangeColor = false] gets no colour call;
    a powered-off fixture gets no call at all unless the update has
    [isOn: true]; and a participating ([isSelected]), powered-on,
    brightness-only fixture gets exactly one brightness call and no colour
    call, provided the hub client is initialised and the update does not
    carry [isOn: false].  A non-participating fixture gets no call, and
    while the hub client is not initialised [updateLights] leaves the
    service as it is (no unit of work is queued), so no call is sent. *)
Theorem update_lights_capability_gating : forall svc u c b d,
  u_color u = Some c -> u_brightness u = Some b ->
  NoDup (map id (devices svc)) -> In d (devices svc) ->
  let cs := calls_to (id d) (calls_of_update svc u) in
  (canChangeColor (capabilities d) = false -> filter is_color_call cs = []) /\
  (isOn (currentState d) = false -> u_isOn u <> Some true -> cs = []) /\
  (client svc = true -> isSelected d = true -> isOn (currentState d) = true ->
   canChangeColor (capabilities d) = false ->
   canChangeBrightness (capabilities d) = true ->
   u_isOn u <> Some false ->
   List.length (filter is_level_call cs) = 1%nat /\ filter is_color_call cs = []) /\
  (isSelected d = false -> cs = []) /\
  (client svc = false -> updateLights svc u = svc /\ calls_of_update svc u = []).
Proof.
  intros svc u c b d Hc Hb Hnd Hin cs; unfold cs; clear cs.
  assert (Hnc : client svc = false -> updateLights svc u = svc /\ calls_of_update svc u = []).
  { intros E; unfold updateLights, calls_of_update; rewrite E; split; reflexivity. }
  rewrite (calls_of_update_to svc u d Hnd Hin).
  destruct (client svc); [|destruct (Hnc eq_refl) as [Hn1 Hn2];
     repeat split; intros; first [reflexivity | discriminate | assumption]].
  destruct d as [did dname [cb cc] [on br col] sel]; simpl.
  unfold optimistic, device_calls, not_turning_on; simpl; rewrite Hc, Hb.
  destruct (u_isOn u) as [[|]|] eqn:Hon;
    destruct sel, on, cc, cb; simpl;
    repeat split; intros; try reflexivity; try discriminate; try congruence.
Qed.

Lemma update_lights_capability_gating_witness :
  let dB := mkDevice "lamp-b" "Bulb" (mkCaps true false) (mkState true 40 None) true in
  let dC := mkDevice "lamp-c" "Colour" (mkCaps true true) (mkState false 40 None) true in
  let svc := mkService true [dB; dC] [] [] in
  let u := mkUpdate (Some (mkColor 0 1)) (Some 80) None None in
  let csB := calls_to (id dB) (calls_of_update svc u) in
  let csC := calls_to (id dC) (calls_of_update svc u) in
  (filter is_color_call csB = [] /\ (isOn (currentState dB) = false -> u_isOn u <> Some true -> csB = []) /\
   (client svc = true -> isSelected dB = true -> isOn (currentState dB) = true ->
    canChangeColor (capabilities dB) = false -> canChangeBrightness (capabilities dB) = true ->
    u_isOn u <> Some false ->
    List.length (filter is_level_call csB) = 1%nat /\ filter is_color_call csB = [])) /\
  (isOn (currentState dC) = false -> u_isOn u <> Some true -> csC = []).
Proof.
  intros dB dC svc u csB csC.
  assert (Hnd : NoDup (map id (devices svc))).
  { simpl; constructor; [simpl; intros [H|[]]; discriminate|].
    constructor; [intros []|constructor]. }
  destruct (update_lights_capability_gating svc u (mkColor 0 1) 80 dB
              eq_refl eq_refl Hnd (or_introl eq_refl)) as (H1 & H2 & H3 & _ & _).
  destruct (update_lights_capability_gating svc u (mkColor 0 1) 80 dC
              eq_refl eq_refl Hnd (or_intror (or_introl eq_refl))) as (_ & H2' & _).
  split; [split; [apply H1; reflexivity|split; assumption]|exact H2'].
Defined.

(** C2, counterexample: a powered-on, brightness-only fixture that does not
    participate ([isSelected = false]) receives no brightness call, and
    neither does any fixture while the hub client is not initialised. *)
Lemma update_lights_non_participating_no_call :
  let d := mkDevice "lamp-b" "Bulb" (mkCaps true false) (mkState true 40 None) false in
  let d' := mkDevice "lamp-b" "Bulb" (mkCaps true false) (mkState true 40 None) true in
  let u := mkUpdate (Some (mkColor 0 1)) (Some 80) None None in
  calls_to "lamp-b" (calls_of_update (mkService true [d] [] []) u) = [] /\
  calls_to "lamp-b" (calls_of_update (mkService false [d'] [] []) u) = [].
Proof. split; reflexivity. Qed.

End DirigeraFacts.

Module SceneEngineFacts.
Import Dirigera SceneEngine.
Local Open Scope R_scope.

(** The engine's timer discipline: handles are fresh, and at most one timer
    is live, the one [activeInterval] holds, created for the current scene. *)
Definition Inv (st : State) : Prop :=
  (forall t, In t (live st) -> (t_handle t < next_handle st)%nat) /\
  (live st = [] \/
   exists t cs, live st = [t] /\ activeInterval st = Some (t_handle t) /\
                currentScene st = Some cs /\ t_owner t = sc_id cs).

Lemma find_scene_id : forall scs sid s,
  find_scene scs sid = Some s -> sc_id s = sid.
Proof.
  intros scs sid s H; unfold find_scene in H.
  apply find_some in H as [_ H]; apply String.eqb_eq; exact H.
Qed.

Lemma clear_single : forall t,
  filter (fun t' => negb (Nat.eqb (t_handle t') (t_handle t))) [t] = [].
Proof. intros t; simpl; rewrite Nat.eqb_refl; reflexivity. Qed.

Lemma stop_spec : forall st, Inv st ->
  live (stop st) = [] /\ activeInterval (stop st) = None /\
  currentScene (stop st) = None /\ isRunning (stop st) = false /\
  next_handle (stop st) = next_handle st /\ scenes (stop st) = scenes st.
Proof.
  intros st [Hfresh [Hnil | (t & cs & Hl & Ha & Hc & Ho)]]; unfold stop.
  - destruct (activeInterval st) eqn:E; simpl; rewrite ?Hnil; simpl; repeat split; auto.
  - rewrite Ha; simpl; rewrite Hl, clear_single; repeat split; auto.
Qed.

Lemma stop_inv : forall st, Inv st -> Inv (stop st).
Proof.
  intros st H; destruct (stop_spec st H) as (Hl & _ & _ & _ & _).
  split; [rewrite Hl; intros t []|left; exact Hl].
Qed.

Lemma startScene_spec : forall st sid now scene, Inv st ->
  find_scene (scenes st) sid = Some scene ->
  let st' := fst (startScene st sid now) in
  snd (startScene st sid now) = true /\
  currentScene st' = Some scene /\ isRunning st' = true /\
  (live st' = [] \/
   exists t, live st' = [t] /\ t_handle t = next_handle st /\
             activeInterval st' = Some (t_handle t) /\ t_owner t = sc_id scene) /\
  (next_handle st <= next_handle st')%nat /\ scenes st' = scenes st.
Proof.
  intros st sid now scene Hinv Hf; unfold startScene; rewrite Hf.
  destruct (stop_spec st Hinv) as (Hl & Ha & Hc & Hr & Hn & Hs).
  remember (stop st) as st1 eqn:E; clear E.
  destruct (type scene); simpl; rewrite ?Hl, ?Hn, ?Hs.
  - repeat split; auto. right; eexists; repeat split; reflexivity.
  - repeat split; auto.
Qed.

Lemma startScene_inv : forall st sid now, Inv st -> Inv (fst (startScene st sid now)).
Proof.
  intros st sid now Hinv.
  destruct (find_scene (scenes st) sid) as [scene|] eqn:Hf.
  - destruct (startScene_spec st sid now scene Hinv Hf)
      as (_ & Hc & _ & [Hl | (t & Hl & Hh & Ha & Ho)] & Hn & _).
    + split; [rewrite Hl; intros ? []|left; exact Hl].
    + split.
      * rewrite Hl; intros t' [<-|[]].
        unfold startScene in *; rewrite Hf in *.
        destruct (stop_spec st Hinv) as (Hl1 & _ & _ & _ & Hn1 & _).
        remember (stop st) as st1 eqn:E; clear E.
        destruct (type scene); simpl in *; [|rewrite Hl1 in Hl; discriminate Hl].
        rewrite Hl1 in Hl; injection Hl as <-; simpl; lia.
      * right; exists t, scene; auto.
  - unfold startScene; rewrite Hf; exact Hinv.
Qed.

Lemma clear_active : forall st h, Inv st -> activeInterval st = Some h ->
  filter (fun t => negb (Nat.eqb (t_handle t) h)) (live st) = [].
Proof.
  intros st h [_ [Hnil | (t & cs & Hl & Ha & _)]] Hh.
  - rewrite Hnil; reflexivity.
  - rewrite Hl; rewrite Ha in Hh; injection Hh as <-; apply clear_single.
Qed.

Lemma merge_scene_id : forall s u, sc_id (merge_scene s u) = sc_id s.
Proof. reflexivity. Qed.

Lemma updateScene_inv : forall st sid u, Inv st -> Inv (fst (updateScene st sid u)).
Proof.
  intros st sid u Hinv; unfold updateScene.
  destruct (find_scene (scenes st) sid) as [old|] eqn:Hf; [|exact Hinv].
  pose proof (find_scene_id _ _ _ Hf) as Hid.
  pose proof Hinv as [Hfresh Hlive].
  destruct (currentScene st) as [cs|] eqn:Hc; [|split; [exact Hfresh|exact Hlive]].
  destruct (String.eqb (sc_id cs) sid) eqn:Heq; [|split; [exact Hfresh|exact Hlive]].
  apply String.eqb_eq in Heq.
  destruct (isRunning st) eqn:Hr; destruct (activeInterval st) as [h|] eqn:Ha; simpl.
  - assert (Hcl : filter (fun t => negb (Nat.eqb (t_handle t) h)) (live st) = [])
      by (apply clear_active; auto).
    destruct (type old); unfold Inv, set_active, clearInterval, set_current; simpl;
      rewrite Hcl.
    + split; [intros t [<-|[]]; simpl; lia|].
      right; eexists; eexists; repeat split; simpl; rewrite ?Hid; reflexivity.
    + split; [intros t []|left; reflexivity].
  - split; [exact Hfresh|].
    destruct Hlive as [Hnil | (t & cs' & Hl & Ha' & Hc' & Ho)]; [left; exact Hnil|].
    discriminate Ha'.
  - split; [exact Hfresh|].
    destruct Hlive as [Hnil | (t & cs' & Hl & Ha' & Hc' & Ho)]; [left; exact Hnil|].
    right; exists t, (merge_scene old u); repeat split; auto.
    injection Hc' as <-. rewrite merge_scene_id, Ho, Hid, Heq; reflexivity.
  - split; [exact Hfresh|].
    destruct Hlive as [Hnil | (t & cs' & Hl & Ha' & Hc' & Ho)]; [left; exact Hnil|].
    discriminate Ha'.
Qed.

Lemma reachable_inv : forall st, reachable st -> Inv st.
Proof.
  induction 1.
  - split; [intros t []|left; reflexivity].
  - apply startScene_inv; auto.
  - apply stop_inv; auto.
  - apply updateScene_inv; auto.
Qed.

(** C4.  Starting scene B (known to the engine) from any reachable state
    first stops the running scene: every timer live before is cleared and
    never fires again, the only live timer afterwards (if any) is B's and is
    the active interval, and B is the one current, running scene.  [stop()]
    leaves no current scene and no live timer. *)
Theorem start_scene_exclusive : forall st sidB sceneB now,
  reachable st ->
  find_scene (scenes st) sidB = Some sceneB ->
  let st' := fst (startScene st sidB now) in
  currentScene st' = Some sceneB /\ isRunning st' = true /\
  (forall t, In t (live st) -> fire st' (t_handle t) = None) /\
  (forall t, In t (live st') -> t_owner t = sc_id sceneB /\
                                activeInterval st' = Some (t_handle t)) /\
  (forall h o k, fire st' h = Some (o, k) -> o = sc_id sceneB) /\
  (let st0 := stop st in
   currentScene st0 = None /\ isRunning st0 = false /\ live st0 = [] /\
   activeInterval st0 = None).
Proof.
  intros st sidB sceneB now Hr Hf st'.
  pose proof (reachable_inv st Hr) as Hinv.
  destruct (startScene_spec st sidB now sceneB Hinv Hf)
    as (_ & Hc & Hrun & Hl & _ & _).
  fold st' in Hc, Hrun, Hl.
  destruct (stop_spec st Hinv) as (Hl0 & Ha0 & Hc0 & Hr0 & _ & _).
  assert (Hlive : forall t, In t (live st') -> t_owner t = sc_id sceneB /\
                    t_handle t = next_handle st /\ activeInterval st' = Some (t_handle t)).
  { intros t Ht; destruct Hl as [Hnil | (t' & Hl & Hh & Ha & Ho)].
    - rewrite Hnil in Ht; destruct Ht.
    - rewrite Hl in Ht; destruct Ht as [<-|[]]; auto. }
  repeat split; auto.
  - intros t Ht; unfold fire.
    destruct (find (fun t' => Nat.eqb (t_handle t') (t_handle t)) (live st'))
      as [t'|] eqn:Hfd; [|reflexivity].
    apply find_some in Hfd as [Hin Heq]; apply Nat.eqb_eq in Heq.
    destruct (Hlive t' Hin) as (_ & Hh & _).
    destruct Hinv as [Hfresh _]; specialize (Hfresh t Ht); lia.
  - apply Hlive; assumption.
  - apply Hlive; assumption.
  - intros h o k; unfold fire.
    destruct (find (fun t' => Nat.eqb (t_handle t') h) (live st')) as [t'|] eqn:Hfd;
      [|discriminate].
    intros He; injection He as <- _.
    apply find_some in Hfd as [Hin _]; apply Hlive; auto.
Qed.

Lemma start_scene_exclusive_witness :
  let st := fst (startScene (init [savanna_sunset; arctic_aurora]) "savanna-sunset" 0) in
  reachable st /\
  find_scene (scenes st) "arctic-aurora" = Some arctic_aurora /\
  let st' := fst (startScene st "arctic-aurora" 1000) in
  currentScene st' = Some arctic_aurora /\ isRunning st' = true /\
  (forall t, In t (live st) -> fire st' (t_handle t) = None) /\
  (forall t, In t (live st') -> t_owner t = sc_id arctic_aurora /\
                                activeInterval st' = Some (t_handle t)) /\
  (forall h o k, fire st' h = Some (o, k) -> o = sc_id arctic_aurora) /\
  (let st0 := stop st in
   currentScene st0 = None /\ isRunning st0 = false /\ live st0 = [] /\
   activeInterval st0 = None).
Proof.
  intros st.
  assert (Hr : reachable st) by (apply reach_start, reach_init).
  assert (Hf : find_scene (scenes st) "arctic-aurora" = Some arctic_aurora)
    by reflexivity.
  split; [exact Hr|]. split; [exact Hf|].
  exact (start_scene_exclusive st "arctic-aurora" arctic_aurora 1000 Hr Hf).
Defined.

(** C8: updating the speed of a running spatial scene replaces its interval
    by a [driftLoop] interval at [transitionSpeed / 2]: its ticks are random
    drift ticks, no longer spatial ones, although the scene still has its
    [spatial] settings; starting the updated scene would tick [spatialLoop]
    every 1000 ms. *)
Lemma update_spatial_scene_drops_wave :
  let upd := mkSceneUpdate (Some 4000) None in
  let st1 := fst (startScene (init [deep_ocean_spatial]) "deep-ocean" 0) in
  let st2 := fst (updateScene st1 "deep-ocean" upd) in
  let updated := merge_scene deep_ocean_spatial upd in
  fire st1 0 = Some ("deep-ocean"%string, SpatialTick deep_ocean_spatial) /\
  map t_period (live st2) = [4000 / 2] /\
  fire st2 1 = Some ("deep-ocean"%string, DriftTick updated) /\
  spatial updated = spatial deep_ocean_spatial /\
  let st3 := fst (startScene (init (scenes st2)) "deep-ocean" 0) in
  map t_period (live st3) = [1000] /\
  fire st3 0 = Some ("deep-ocean"%string, SpatialTick updated).
Proof. repeat split; reflexivity. Qed.

End SceneEngineFacts.

Module ControllerFacts.
Import Dirigera Controller.
Local Open Scope R_scope.

Definition hue_field_ok (color : JSValue) : Prop :=
  exists h, get color "hue" = JNum h /\ 0 <= h < 360.
Definition sat_field_ok (color : JSValue) : Prop :=
  exists s, get color "saturation" = JNum s /\ 0 <= s <= 1.
Definition bri_field_ok (brightness : JSValue) : Prop :=
  brightness = JUndefined \/ exists b, brightness = JNum b /\ 1 <= b <= 100.

Lemma validate_rejects : forall color brightness isOn,
  (exists h, truthy color = true /\ get color "hue" = JNum h /\ (h < 0 \/ 360 <= h)) \/
  (exists s, truthy color = true /\ get color "saturation" = JNum s /\ (s < 0 \/ 1 < s)) \/
  (exists b, brightness = JNum b /\ (b < 1 \/ 100 < b)) ->
  exists m, validate color brightness isOn = Some m /\
    ((m = msg_hue /\ truthy color = true /\ ~ hue_field_ok color) \/
     (m = msg_saturation /\ truthy color = true /\ ~ sat_field_ok color) \/
     (m = msg_brightness /\ ~ bri_field_ok brightness)).
Proof.
  intros color brightness isOn Hout; unfold validate, hue_field_ok, sat_field_ok, bri_field_ok.
  destruct (truthy color) eqn:Ht.
  - destruct (get color "hue") as [| | |h| |] eqn:Hh;
      try (eexists; split; [reflexivity|]; left; repeat split;
           intros (h' & E & _); discriminate E).
    destruct (Rlt_dec h 0) as [Hlt|Hge].
    { eexists; split; [reflexivity|]; left; repeat split.
      intros (h' & E & R); injection E as <-; lra. }
    destruct (Rle_dec 360 h) as [Hle|Hgt].
    { eexists; split; [reflexivity|]; left; repeat split.
      intros (h' & E & R); injection E as <-; lra. }
    destruct (get color "saturation") as [| | |sv| |] eqn:Hs;
      try (eexists; split; [reflexivity|]; right; left; repeat split;
           intros (s' & E & _); discriminate E).
    destruct (Rlt_dec sv 0) as [Hlt'|Hge'].
    { eexists; split; [reflexivity|]; right; left; repeat split.
      intros (s' & E & R); injection E as <-; lra. }
    destruct (Rlt_dec 1 sv) as [Hlt''|Hge''].
    { eexists; split; [reflexivity|]; right; left; repeat split.
      intros (s' & E & R); injection E as <-; lra. }
    destruct Hout as [(h' & _ & E & R) | [(s' & _ & E & R) | (b & Hb & R)]].
    + injection E as <-; lra.
    + injection E as <-; lra.
    + subst brightness.
      destruct (Rlt_dec b 1); [|destruct (Rlt_dec 100 b); [|lra]];
        (eexists; split; [reflexivity|]; right; right; split; [reflexivity|]);
        (intros [E | (b' & E & R')]; [discriminate E| injection E as <-; lra]).
  - destruct Hout as [(h' & E & _) | [(s' & E & _) | (b & Hb & R)]];
      [discriminate E | discriminate E |].
    subst brightness.
    destruct (Rlt_dec b 1); [|destruct (Rlt_dec 100 b); [|lra]];
      (eexists; split; [reflexivity|]; right; right; split; [reflexivity|]);
      (intros [E | (b' & E & R')]; [discriminate E| injection E as <-; lra]).
Qed.

(** C3.  An [updateLights] request with an out-of-range hue, saturation or
    brightness gets a 400 response whose [error] names an invalid field;
    the actuation layer (its registry, its queue, its emitted updates) is
    left as it was, so nothing is enqueued and no device state changes.
    (The scene engine is stopped before validation; that touches neither.) *)
Theorem update_lights_rejects_out_of_range : forall c body,
  hue_out_of_range body \/ saturation_out_of_range body \/
  brightness_out_of_range body ->
  let '(c', resp) := handle_updateLights c body in
  service c' = service c /\
  exists m, resp = Err400 m /\
    ((m = msg_hue /\ ~ hue_valid body /\ mentions "hue" m = true) \/
     (m = msg_saturation /\ ~ saturation_valid body /\
      mentions "saturation" m = true) \/
     (m = msg_brightness /\ ~ brightness_valid body /\
      mentions "brightness" m = true)).
Proof.
  intros c body Hout.
  assert (Hv : exists m, validate (get body "color") (get body "brightness")
                           (get body "isOn") = Some m /\
    ((m = msg_hue /\ truthy (get body "color") = true /\ ~ hue_field_ok (get body "color")) \/
     (m = msg_saturation /\ truthy (get body "color") = true /\
      ~ sat_field_ok (get body "color")) \/
     (m = msg_brightness /\ ~ bri_field_ok (get body "brightness"))))
    by (apply validate_rejects; exact Hout).
  destruct Hv as (m & Hm & Hcase).
  unfold handle_updateLights.
  unfold hue_out_of_range, saturation_out_of_range, brightness_out_of_range in Hout.
  destruct body as [| | | | |fs];
    try (destruct Hout as [(h0 & E & _) | [(s0 & E & _) | (b0 & E & _)]];
         simpl in E; discriminate E).
  rewrite Hm; split; [reflexivity|]; exists m; split; [reflexivity|].
  unfold hue_valid, saturation_valid, brightness_valid.
  destruct Hcase as [(-> & Ht & Hn) | [(-> & Ht & Hn) | (-> & Hn)]].
  - left; split; [reflexivity|]; split; [|vm_compute; reflexivity].
    rewrite Ht; intros [E|E]; [discriminate E|apply Hn; exact E].
  - right; left; split; [reflexivity|]; split; [|vm_compute; reflexivity].
    rewrite Ht; intros [E|E]; [discriminate E|apply Hn; exact E].
  - right; right; split; [reflexivity|]; split; [|vm_compute; reflexivity].
    exact Hn.
Qed.

Lemma update_lights_rejects_out_of_range_witness :
  let body := JObj [("color"%string, JObj [("hue"%string, JNum 400);
                                           ("saturation"%string, JNum 1)]);
                    ("brightness"%string, JNum 80)] in
  let c := mkCtrl (SceneEngine.init [SceneEngine.savanna_sunset])
                  (mkService true [] [] []) in
  (hue_out_of_range body \/ saturation_out_of_range body \/
   brightness_out_of_range body) /\
  let '(c', resp) := handle_updateLights c body in
  service c' = service c /\
  exists m, resp = Err400 m /\
    ((m = msg_hue /\ ~ hue_valid body /\ mentions "hue" m = true) \/
     (m = msg_saturation /\ ~ saturation_valid body /\
      mentions "saturation" m = true) \/
     (m = msg_brightness /\ ~ brightness_valid body /\
      mentions "brightness" m = true)).
Proof.
  intros body c.
  assert (H : hue_out_of_range body \/ saturation_out_of_range body \/
              brightness_out_of_range body).
  { left; exists 400; split; [reflexivity|]; split; [reflexivity|]; right; lra. }
  split; [exact H|].
  exact (update_lights_rejects_out_of_range c body H).
Defined.

End ControllerFacts.

Module SceneColorFacts.
Import Dirigera SceneEngine SceneColor.
Local Open Scope R_scope.

Ltac case_R :=
  repeat match goal with
  | |- context [Rlt_dec ?a ?b] => destruct (Rlt_dec a b)
  | |- context [Rle_dec ?a ?b] => destruct (Rle_dec a b)
  end.

Lemma interpolate_hue_range : forall c1 c2 f,
  0 <= hue c1 < 360 -> 0 <= hue c2 < 360 -> 0 <= f <= 1 ->
  0 <= hue (interpolateColors c1 c2 f) < 360.
Proof.
  intros [h1 s1] [h2 s2] f H1 H2 Hf; simpl in *; unfold interpolateColors; simpl.
  case_R; simpl; nra.
Qed.

Lemma Rabs_le_180 : forall x, -180 <= x <= 180 -> Rabs x <= 180.
Proof. intros x Hx; unfold Rabs; destruct (Rcase_abs x); lra. Qed.

Lemma hue_dist_shift : forall a b b',
  0 <= a < 360 -> 0 <= b < 360 ->
  (b' = b \/ b' = b - 360 \/ b' = b + 360 \/ b' = b - 720 \/ b' = b + 720) ->
  -180 <= b' - a <= 180 ->
  hue_dist a b = Rabs (b' - a).
Proof.
  intros a b b' Ha Hb Hb' Hd; unfold hue_dist, Rmin.
  destruct (Rle_dec (Rabs (a - b)) (360 - Rabs (a - b)));
    unfold Rabs in *; destruct (Rcase_abs (a - b)); destruct (Rcase_abs (b' - a)); lra.
Qed.

Lemma interpolate_shape : forall c1 c2 f,
  0 <= hue c1 < 360 -> 0 <= hue c2 < 360 -> 0 <= f <= 1 ->
  exists h2', (h2' = hue c2 \/ h2' = hue c2 - 360 \/ h2' = hue c2 + 360) /\
    -180 <= h2' - hue c1 <= 180 /\
    let h := hue c1 + (h2' - hue c1) * f in
    (hue (interpolateColors c1 c2 f) = h \/
     hue (interpolateColors c1 c2 f) = h + 360 \/
     hue (interpolateColors c1 c2 f) = h - 360).
Proof.
  intros [h1 s1] [h2 s2] f H1 H2 Hf; simpl in *; unfold interpolateColors; simpl.
  destruct (Rlt_dec 180 (h2 - h1)).
  - exists (h2 - 360); split; [lra|]; split; [lra|]; cbv zeta.
    case_R; lra.
  - destruct (Rlt_dec (h2 - h1) (-180)).
    + exists (h2 + 360); split; [lra|]; split; [lra|]; cbv zeta.
      case_R; lra.
    + exists h2; split; [lra|]; split; [lra|]; cbv zeta.
      case_R; lra.
Qed.

(** C5.  Hue interpolation takes the shorter arc: for hues in [0, 360) and a
    factor in [0, 1] the interpolated hue is in [0, 360), lies on a shortest
    arc between the two hues (the circular distances add up) at the fraction
    [factor] of it; and 350 and 10 interpolate at 0.5 to 0. *)
Theorem interpolate_hue_shorter_arc :
  (forall s1 s2, hue (interpolateColors (mkColor 350 s1) (mkColor 10 s2) (1/2)) = 0) /\
  (forall c1 c2 f,
   0 <= hue c1 < 360 -> 0 <= hue c2 < 360 -> 0 <= f <= 1 ->
   let h := hue (interpolateColors c1 c2 f) in
   0 <= h < 360 /\
   hue_dist (hue c1) h + hue_dist h (hue c2) = hue_dist (hue c1) (hue c2) /\
   hue_dist (hue c1) h = f * hue_dist (hue c1) (hue c2)).
Proof.
  split.
  { intros s1 s2; unfold interpolateColors; simpl; case_R; lra. }
  intros c1 c2 f H1 H2 Hf h.
  pose proof (interpolate_hue_range c1 c2 f H1 H2 Hf) as Hr; fold h in Hr.
  destruct (interpolate_shape c1 c2 f H1 H2 Hf) as (h2' & Hh2' & Hd & Hw).
  fold h in Hw; cbv zeta in Hw.
  set (h1 := hue c1) in *; set (h2 := hue c2) in *.
  set (hu := h1 + (h2' - h1) * f) in *.
  assert (Hu1 : hu - h1 = (h2' - h1) * f) by (unfold hu; ring).
  assert (Hu2 : h2' - hu = (h2' - h1) * (1 - f)) by (unfold hu; ring).
  assert (Hb1 : -180 <= hu - h1 <= 180) by (rewrite Hu1; split; nra).
  assert (Hb2 : -180 <= h2' - hu <= 180) by (rewrite Hu2; split; nra).
  rewrite (hue_dist_shift h1 h2 h2'); [|lra|lra|lra|lra].
  rewrite (hue_dist_shift h1 h hu); [|lra|lra|lra|lra].
  rewrite (hue_dist_shift h h2 (h2' + (h - hu))); [|lra|lra|lra|lra].
  replace (h2' + (h - hu) - h) with (h2' - hu) by ring.
  rewrite Hu1, Hu2.
  unfold Rabs; destruct (Rcase_abs (h2' - h1));
    destruct (Rcase_abs ((h2' - h1) * f)); destruct (Rcase_abs ((h2' - h1) * (1 - f)));
    split; try split; try nra; try lra.
Qed.

Lemma interpolate_hue_shorter_arc_witness :
  (0 <= hue (mkColor 350 1) < 360 /\ 0 <= hue (mkColor 10 1) < 360 /\ 0 <= 1/2 <= 1) /\
  let h := hue (interpolateColors (mkColor 350 1) (mkColor 10 1) (1/2)) in
  0 <= h < 360 /\
  hue_dist 350 h + hue_dist h 10 = hue_dist 350 10 /\
  hue_dist 350 h = 1/2 * hue_dist 350 10.
Proof.
  assert (H : 0 <= hue (mkColor 350 1) < 360 /\ 0 <= hue (mkColor 10 1) < 360 /\
              0 <= 1/2 <= 1) by (simpl; lra).
  split; [exact H|].
  destruct H as (Ha & Hb & Hc).
  exact (proj2 interpolate_hue_shorter_arc (mkColor 350 1) (mkColor 10 1) (1/2) Ha Hb Hc).
Defined.

Lemma Int_part_index : forall v (n : nat), 0 <= v < INR n ->
  (0 <= Int_part v < Z.of_nat n)%Z.
Proof.
  intros v n [H0 H1]; rewrite INR_IZR_INZ in H1.
  destruct (base_Int_part v) as [B1 B2]; split.
  - assert (-1 < IZR (Int_part v)) by lra.
    apply lt_IZR in H; lia.
  - apply lt_IZR; lra.
Qed.

Lemma js_at_in_bounds : forall (pal : list Color) i,
  (0 <= i < Z.of_nat (List.length pal))%Z -> exists c, js_at pal i = Some c.
Proof.
  intros pal i Hi; unfold js_at.
  destruct (Z.ltb_spec i 0); [lia|].
  destruct (nth_error pal (Z.to_nat i)) as [c|] eqn:E; [eauto|].
  apply nth_error_None in E; lia.
Qed.

End SceneColorFacts.

Module SceneColorFFacts.
Import SceneEngine SceneColorF PrimFloat.
Local Open Scope float_scope.
Local Set Warnings "-inexact-float".

(** C9.  The palette index is not total in doubles: for a linear wave with
    angle 0, scale 1 and speed 0.2 over the five-colour Deep Ocean palette,
    at x = 60, y = 0 and 3 elapsed seconds, the phase is 0.6 and the pattern
    value [0.6 * 1 - 3 * 0.2] is the negative double -1.1102230246251565e-16;
    adding the palette length 5 rounds to 5, so the normalised index equals
    the length, [Math.floor] keeps it, [palette[5]] is [undefined] and
    [getSpatialColor] fails.  The only assumptions are [Math.cos(+0) = 1]
    and [Math.sin(+0) = +0], which ECMAScript fixes. *)
Theorem spatial_index_reaches_palette_length :
  forall (Math_cos Math_sin : float -> float) (rnd : float),
  Math_cos 0 = 1 -> Math_sin 0 = 0 ->
  let sp := mkSpatialF Linear 1 0.2 (Some 0) in
  let pal := deep_ocean_paletteF in
  let len := float_of_Z (Z.of_nat (List.length pal)) in
  let patternValue := 0.6 * 1 - 3 * 0.2 in
  spatial_phaseF Math_cos Math_sin sp 60 0 = Some 0.6 /\
  (patternValue <? 0) = true /\
  len = 5 /\
  normalizedIndexF patternValue len = len /\
  js_floor (normalizedIndexF patternValue len) = len /\
  js_at_f pal len = None /\
  getSpatialColorF Math_cos Math_sin 60 0 3 (Some sp) pal rnd = None.
Proof.
  intros cos sin rnd Hc Hs sp pal len patternValue.
  assert (Hp : spatial_phaseF cos sin sp 60 0 = Some 0.6).
  { vm_compute. rewrite Hc, Hs. vm_compute. reflexivity. }
  split; [exact Hp|].
  repeat (split; [vm_compute; reflexivity|]).
  unfold getSpatialColorF; rewrite Hp. vm_compute. reflexivity.
Qed.

Lemma spatial_index_reaches_palette_length_witness :
  (fun _ : float => 1) 0 = 1 /\ (fun _ : float => 0) 0 = 0 /\
  getSpatialColorF (fun _ => 1) (fun _ => 0) 60 0 3
    (Some (mkSpatialF Linear 1 0.2 (Some 0))) deep_ocean_paletteF 0 = None.
Proof.
  split; [reflexivity|]. split; [reflexivity|].
  exact (proj2 (proj2 (proj2 (proj2 (proj2 (proj2
    (spatial_index_reaches_palette_length (fun _ => 1) (fun _ => 0) 0 eq_refl eq_refl))))))).
Defined.

End SceneColorFFacts.

Module BeatFacts.
Import Beat.
Local Open Scope R_scope.

Lemma detect_energy_hist : forall st now e,
  energyHistory (fst (detect_energy st now e)) = window st e.
Proof.
  intros st now e. unfold detect_energy.
  destruct (Nat.ltb _ _); [reflexivity|].
  destruct (Rlt_dec _ _); [|reflexivity].
  destruct (Rlt_dec _ _); [|reflexivity].
  destruct (Rlt_dec _ _); reflexivity.
Qed.

Lemma detect_energy_some : forall st now e st' r,
  detect_energy st now e = (st', Some r) ->
  let h := window st e in
  (historySize <= List.length h)%nat /\
  dynamicThreshold h < e /\
  energyVarianceThreshold < calculateVariance h (averageEnergy h) /\
  minBeatInterval < now - lastBeatTime st /\
  st' = mkBeatState h now /\
  r = mkBeat (Rmin 1 ((e - averageEnergy h) / averageEnergy h))
             (Rmin 1 (Rmax 0 ((e - dynamicThreshold h) / dynamicThreshold h))).
Proof.
  intros st now e st' r H h. unfold detect_energy in H. fold h in H.
  destruct (Nat.ltb _ _) eqn:Hl; [discriminate H|].
  apply Nat.ltb_ge in Hl.
  destruct (Rlt_dec _ _) as [H1|]; [|discriminate H].
  destruct (Rlt_dec _ _) as [H2|]; [|discriminate H].
  destruct (Rlt_dec _ _) as [H3|]; [|discriminate H].
  injection H as <- <-. repeat split; assumption.
Qed.

Lemma detect_energy_last : forall st now e,
  match snd (detect_energy st now e) with
  | Some _ => lastBeatTime (fst (detect_energy st now e)) = now /\
              minBeatInterval < now - lastBeatTime st
  | None => lastBeatTime (fst (detect_energy st now e)) = lastBeatTime st
  end.
Proof.
  intros st now e. unfold detect_energy.
  destruct (Nat.ltb _ _); [reflexivity|].
  destruct (Rlt_dec _ _); [|reflexivity].
  destruct (Rlt_dec _ _); [|reflexivity].
  destruct (Rlt_dec _ _); [|reflexivity].
  simpl. split; [reflexivity | assumption].
Qed.

Lemma run_spacing : forall samples st,
  Forall (fun p => lastBeatTime st + minBeatInterval < fst p) (run st samples) /\
  ForallOrdPairs (fun p q => fst p + minBeatInterval < fst q) (run st samples).
Proof.
  induction samples as [|[now e] rest IH]; intros st.
  - split; constructor.
  - simpl. pose proof (detect_energy_last st now e) as Hl.
    destruct (detect_energy st now e) as [st' r] eqn:Hd. simpl in Hl.
    destruct (IH st') as [Hf Hp].
    destruct r as [b|].
    + destruct Hl as [Hl1 Hl2]. rewrite Hl1 in Hf.
      split.
      * constructor; [simpl; lra|].
        eapply Forall_impl; [|exact Hf]. intros p Hp'. simpl in Hp'.
        unfold minBeatInterval in *. lra.
      * constructor; [|exact Hp].
        eapply Forall_impl; [|exact Hf]. intros p Hp'. simpl. exact Hp'.
    + rewrite Hl in Hf. split; assumption.
Qed.

Lemma sumR_acc : forall l a, fold_left Rplus l a = a + fold_left Rplus l 0.
Proof.
  induction l as [|x l IH]; intros a; simpl; [lra|].
  rewrite (IH (a + x)), (IH (0 + x)). lra.
Qed.

Lemma sumR_cons : forall x l, sumR (x :: l) = x + sumR l.
Proof. intros x l. unfold sumR. simpl. rewrite sumR_acc. lra. Qed.

Lemma sumR_nonneg : forall l, Forall (fun x => 0 <= x) l -> 0 <= sumR l.
Proof.
  induction 1 as [|x l Hx _ IH]; [unfold sumR; simpl; lra|].
  rewrite sumR_cons. lra.
Qed.

Lemma sumR_zero : forall l, Forall (fun x => 0 <= x) l -> sumR l = 0 ->
  Forall (fun x => x = 0) l.
Proof.
  induction 1 as [|x l Hx Hl IH]; intros Hs; constructor;
    rewrite sumR_cons in Hs; pose proof (sumR_nonneg l Hl).
  - lra.
  - apply IH. lra.
Qed.

Lemma variance_of_zeros : forall l, Forall (fun x => x = 0) l ->
  calculateVariance l 0 = 0.
Proof.
  intros l Hl. unfold calculateVariance.
  assert (Hs : forall m, Forall (fun x => x = 0) m ->
            sumR (map (fun value => (value - 0) ^ 2) m) = 0).
  { induction 1 as [|x m Hx _ IH]; [reflexivity|].
    cbn [map]. rewrite sumR_cons, IH, Hx. ring. }
  rewrite (Hs l Hl). unfold Rdiv. apply Rmult_0_l.
Qed.

Lemma Rdiv_nonneg : forall x y, 0 <= x -> 0 <= y -> 0 <= x / y.
Proof.
  intros x y Hx Hy. unfold Rdiv. apply Rmult_le_pos; [exact Hx|].
  destruct (Req_dec_T y 0) as [->|Hn].
  - rewrite Rinv_0. lra.
  - left. apply Rinv_0_lt_compat. lra.
Qed.

Lemma calculateEnergy_nonneg : forall f t, 0 <= calculateEnergy f t.
Proof.
  intros f t. unfold calculateEnergy.
  apply Rmult_le_pos; [|apply sqrt_pos].
  apply Rdiv_nonneg; [|apply pos_INR].
  apply sumR_nonneg. apply Forall_forall. intros v Hv.
  apply in_map_iff in Hv. destruct Hv as (z & <- & _).
  apply Rle_0_sqr.
Qed.

Lemma window_nonneg : forall st e,
  Forall (fun x => 0 <= x) (energyHistory st) -> 0 <= e ->
  Forall (fun x => 0 <= x) (window st e).
Proof.
  intros st e Hh He. unfold window.
  assert (Ha : Forall (fun x => 0 <= x) (energyHistory st ++ [e]))
    by (apply Forall_app; split; [exact Hh | constructor; [exact He | constructor]]).
  destruct (Nat.ltb _ _); [|exact Ha].
  destruct (energyHistory st ++ [e]); [constructor|].
  inversion Ha; assumption.
Qed.

Lemma feed_nonneg : forall frames st,
  Forall (fun x => 0 <= x) (energyHistory st) ->
  Forall (fun x => 0 <= x) (energyHistory (feed st frames)).
Proof.
  induction frames as [|[[now f] t] rest IH]; intros st Hst; [exact Hst|].
  simpl. apply IH. unfold detect. rewrite detect_energy_hist.
  apply window_nonneg; [exact Hst | apply calculateEnergy_nonneg].
Qed.

Lemma average_pos : forall h,
  Forall (fun x => 0 <= x) h -> (historySize <= List.length h)%nat ->
  energyVarianceThreshold < calculateVariance h (averageEnergy h) ->
  0 < averageEnergy h.
Proof.
  intros h Hh Hlen Hv.
  assert (Hn : 0 < INR (List.length h))
    by (apply lt_0_INR; unfold historySize in Hlen; lia).
  pose proof (sumR_nonneg h Hh) as Hs.
  destruct (Req_dec_T (sumR h) 0) as [Hz|Hz].
  - exfalso. assert (Ha : averageEnergy h = 0)
      by (unfold averageEnergy; rewrite Hz; unfold Rdiv; apply Rmult_0_l).
    rewrite Ha, (variance_of_zeros h (sumR_zero h Hh Hz)) in Hv.
    unfold energyVarianceThreshold in Hv. lra.
  - unfold averageEnergy, Rdiv. apply Rmult_lt_0_compat; [lra|].
    apply Rinv_0_lt_compat. exact Hn.
Qed.

Lemma beat_result_bounds : forall st now e st' r,
  Forall (fun x => 0 <= x) (window st e) ->
  detect_energy st now e = (st', Some r) ->
  let h := window st e in
  0 < averageEnergy h /\
  intensity r = clamp01 ((e - averageEnergy h) / averageEnergy h) /\
  confidence r = clamp01 ((e - dynamicThreshold h) / dynamicThreshold h) /\
  0 <= intensity r <= 1 /\ 0 <= confidence r <= 1.
Proof.
  intros st now e st' r Hnn H h.
  destruct (detect_energy_some st now e st' r H)
    as (Hlen & Hdyn & Hvar & _ & _ & ->). fold h in Hlen, Hdyn, Hvar |- *.
  pose proof (average_pos h Hnn Hlen Hvar) as Hav.
  assert (Hd : averageEnergy h <= dynamicThreshold h).
  { unfold dynamicThreshold, threshold.
    pose proof (sqrt_pos (calculateVariance h (averageEnergy h))). lra. }
  assert (Hi : 0 < (e - averageEnergy h) / averageEnergy h).
  { unfold Rdiv. apply Rmult_lt_0_compat; [lra | apply Rinv_0_lt_compat; lra]. }
  simpl. unfold clamp01, Rmin, Rmax.
  repeat split; repeat (destruct (Rle_dec _ _)); lra.
Qed.


Lemma feed_const : forall n st now f t,
  (List.length (energyHistory st) + n < historySize)%nat ->
  energyHistory (feed st (repeat (now, f, t) n)) =
    energyHistory st ++ repeat (currentEnergy f t) n /\
  lastBeatTime (feed st (repeat (now, f, t) n)) = lastBeatTime st.
Proof.
  induction n as [|n IH]; intros st now f t Hn.
  - simpl. rewrite app_nil_r. split; reflexivity.
  - cbn [repeat feed]. unfold detect, detect_energy, window.
    set (e := currentEnergy f t).
    assert (Hl : List.length (energyHistory st ++ [e]) = S (List.length (energyHistory st)))
      by (rewrite length_app; simpl; lia).
    destruct (historySize <? List.length (energyHistory st ++ [e]))%nat eqn:H1.
    { apply Nat.ltb_lt in H1. lia. }
    destruct (List.length (energyHistory st ++ [e]) <? historySize)%nat eqn:H2.
    2:{ apply Nat.ltb_ge in H2. lia. }
    simpl fst. destruct (IH (mkBeatState (energyHistory st ++ [e]) (lastBeatTime st)) now f t)
      as [IH1 IH2]; [simpl; lia|].
    rewrite IH1, IH2. simpl. rewrite <- app_assoc. split; reflexivity.
Qed.

(** A silent frame: a 10-bin spectrum of zeros. *)
Definition silent_frame : R * list Z * list Z := (0, repeat 0%Z 10, [0%Z]).

(** A frame whose bass bin is 2 and whose time-domain sample sits at 0. *)
Definition kick_freq : list Z := 2%Z :: repeat 0%Z 9.

Lemma silent_energy : currentEnergy (repeat 0%Z 10) [0%Z] = 0.
Proof.
  unfold currentEnergy, calculateEnergy, bassData, sumR. simpl. lra.
Qed.

Lemma kick_energy : currentEnergy kick_freq [0%Z] = 4.
Proof.
  unfold currentEnergy, calculateEnergy, bassData, sumR, kick_freq. simpl.
  replace ((0 + ((0 - 128) / 128) * (((0 - 128) / 128) * 1)) / 1) with 1 by field.
  rewrite sqrt_1. field.
Qed.

Definition quiet_state : BeatState := mkBeatState (repeat 0 42) 0.

Lemma feed_quiet :
  energyHistory (feed initial (repeat silent_frame 42)) = repeat 0 42 /\
  lastBeatTime (feed initial (repeat silent_frame 42)) = 0.
Proof.
  unfold silent_frame. destruct (feed_const 42 initial 0 (repeat 0%Z 10) [0%Z])
    as [H1 H2]; [simpl; unfold historySize; lia|].
  rewrite H1, H2, silent_energy. split; reflexivity.
Qed.

Lemma kick_fires : exists st' r,
  detect_energy (mkBeatState (repeat 0 42) 0) 1000 4 = (st', Some r).
Proof.
  set (h := repeat 0 42 ++ [4]).
  assert (Hw : window (mkBeatState (repeat 0 42) 0) 4 = h) by reflexivity.
  assert (Ha : averageEnergy h = 4 / 43)
    by (unfold averageEnergy, sumR, h; simpl; field).
  assert (Hv : calculateVariance h (4 / 43) = 28896 / 79507)
    by (unfold calculateVariance, sumR, h; simpl; field).
  assert (Hs : sqrt (28896 / 79507) < 1).
  { rewrite <- sqrt_1. apply sqrt_lt_1_alt. lra. }
  pose proof (sqrt_pos (28896 / 79507)) as Hs0.
  unfold detect_energy. rewrite Hw.
  change (List.length h <? historySize)%nat with false. cbv iota zeta.
  unfold dynamicThreshold. rewrite Ha, Hv.
  unfold threshold, energyVarianceThreshold, minBeatInterval. cbn [lastBeatTime].
  destruct (Rlt_dec _ _) as [_|Hn]; [|exfalso; lra].
  destruct (Rlt_dec _ _) as [_|Hn]; [|exfalso; lra].
  destruct (Rlt_dec _ _) as [_|Hn]; [|exfalso; lra].
  eexists; eexists; reflexivity.
Qed.

Lemma kick_after_quiet : exists st' r,
  detect (feed initial (repeat silent_frame 42)) 1000 kick_freq [0%Z] = (st', Some r).
Proof.
  destruct feed_quiet as [H1 H2].
  destruct (feed initial (repeat silent_frame 42)) as [hist last].
  simpl in H1, H2. subst hist last.
  unfold detect. rewrite kick_energy. exact kick_fires.
Qed.


(** Claim C6: over any sequence of [(Date.now(), energy)] samples, from any
    detector state, two emitted beats are always more than
    [minBeatInterval] = 100 ms apart (so of two samples closer than that at
    most one emits a beat); and a beat is only emitted when the current
    energy exceeds [mean + 1.3 * sqrt variance] of the (full) window, the
    window variance exceeds 0.02, and more than 100 ms have passed since
    the last emitted beat. *)
Theorem beat_refractory :
  (forall st samples,
     ForallOrdPairs (fun p q => fst p + minBeatInterval < fst q) (run st samples)) /\
  (forall st now e st' r,
     detect_energy st now e = (st', Some r) ->
     let h := window st e in
     (historySize <= List.length h)%nat /\
     averageEnergy h + threshold * sqrt (calculateVariance h (averageEnergy h)) < e /\
     energyVarianceThreshold < calculateVariance h (averageEnergy h) /\
     minBeatInterval < now - lastBeatTime st /\
     lastBeatTime st' = now).
Proof.
  split.
  - intros st samples. apply (run_spacing samples st).
  - intros st now e st' r H h.
    destruct (detect_energy_some st now e st' r H) as (H1 & H2 & H3 & H4 & H5 & _).
    subst st'. repeat split; assumption.
Qed.

Lemma beat_refractory_witness :
  ForallOrdPairs (fun p q => fst p + minBeatInterval < fst q)
    (run quiet_state [(1000, 4); (1050, 8); (1200, 9)]) /\
  exists st' r,
    detect_energy quiet_state 1000 4 = (st', Some r) /\
    let h := window quiet_state 4 in
    (historySize <= List.length h)%nat /\
    averageEnergy h + threshold * sqrt (calculateVariance h (averageEnergy h)) < 4 /\
    energyVarianceThreshold < calculateVariance h (averageEnergy h) /\
    minBeatInterval < 1000 - lastBeatTime quiet_state /\
    lastBeatTime st' = 1000.
Proof.
  split; [apply (proj1 beat_refractory)|].
  destruct kick_fires as (st' & r & H).
  exists st', r. split; [exact H|].
  exact (proj2 beat_refractory quiet_state 1000 4 st' r H).
Defined.

(** Claim C7: every beat emitted by [detect] on a detector that has only
    ever been fed frames (so every window energy comes from
    [calculateEnergy] and is non-negative) has a window mean that is
    strictly positive, intensity equal to [clamp((e - mean) / mean, 0, 1)]
    and confidence equal to
    [clamp((e - dynamicThreshold) / dynamicThreshold, 0, 1)], both in
    [0, 1]. *)
Theorem beat_event_bounds : forall frames now freq time st' r,
  detect (feed initial frames) now freq time = (st', Some r) ->
  let e := currentEnergy freq time in
  let h := energyHistory st' in
  0 < averageEnergy h /\
  intensity r = clamp01 ((e - averageEnergy h) / averageEnergy h) /\
  confidence r = clamp01 ((e - dynamicThreshold h) / dynamicThreshold h) /\
  0 <= intensity r <= 1 /\ 0 <= confidence r <= 1.
Proof.
  intros frames now freq time st' r H e h. unfold detect in H. fold e in H.
  set (st := feed initial frames) in H.
  destruct (detect_energy_some st now e st' r H) as (_ & _ & _ & _ & Hst & _).
  unfold h. rewrite Hst. simpl energyHistory.
  apply (beat_result_bounds st now e st' r); [|exact H].
  apply window_nonneg; [apply feed_nonneg; constructor | apply calculateEnergy_nonneg].
Qed.

Lemma beat_event_bounds_witness :
  exists st' r,
    detect (feed initial (repeat silent_frame 42)) 1000 kick_freq [0%Z] = (st', Some r) /\
    let e := currentEnergy kick_freq [0%Z] in
    let h := energyHistory st' in
    0 < averageEnergy h /\
    intensity r = clamp01 ((e - averageEnergy h) / averageEnergy h) /\
    confidence r = clamp01 ((e - dynamicThreshold h) / dynamicThreshold h) /\
    0 <= intensity r <= 1 /\ 0 <= confidence r <= 1.
Proof.
  destruct kick_after_quiet as (st' & r & H).
  exists st', r. split; [exact H|].
  exact (beat_event_bounds (repeat silent_frame 42) 1000 kick_freq [0%Z] st' r H).
Defined.


End BeatFacts.

Module SmoothingFacts.
Import Smoothing.
Local Open Scope R_scope.

Lemma accumulate_spec : forall l len index a b c, len <> 0 ->
  exists th, accumulate len index l a b c =
    (th, b + position_weighted_sum index l / len,
         c + position_weight_total index l / len).
Proof.
  induction l as [|col rest IH]; intros len index a b c Hlen.
  - exists a. simpl. f_equal; [f_equal|]; field; exact Hlen.
  - simpl. destruct (IH len (S index) (a + cos (hue col * PI / 180) * (INR (index + 1) / len))
      (b + saturation col * (INR (index + 1) / len)) (c + INR (index + 1) / len) Hlen)
      as [th Hth].
    exists th. rewrite Hth. f_equal; [f_equal|]; field; exact Hlen.
Qed.

Lemma weight_total_pos : forall l index, l <> [] -> 0 < position_weight_total index l.
Proof.
  induction l as [|col rest IH]; intros index Hl; [congruence|].
  simpl. pose proof (lt_0_INR (index + 1) ltac:(lia)).
  destruct rest as [|col' rest'].
  - simpl. lra.
  - pose proof (IH (S index) ltac:(discriminate)). lra.
Qed.

Lemma atan2_zero : forall x, js_atan2 0 x = 0 \/ js_atan2 0 x = PI.
Proof.
  intros x. unfold js_atan2.
  replace (0 / x) with 0 by (unfold Rdiv; ring). rewrite atan_0.
  destruct (Rlt_dec 0 x); [left; reflexivity|].
  destruct (Rlt_dec x 0).
  - destruct (Rle_dec 0 0); [right; ring | exfalso; lra].
  - destruct (Rlt_dec 0 0); [lra|]. left. reflexivity.
Qed.

(** Claim C10: once the history (after the push and shift) holds at least
    two colors, [smoothColor] returns a hue that is exactly 0 or exactly
    180, whatever the input hues, and a saturation equal to the
    position-weighted mean of the history saturations clamped to
    [0, 1]. *)
Theorem smooth_color_hue_collapses : forall st c st' out,
  smoothColor st c = (st', out) ->
  (2 <= List.length (colorHistory st'))%nat ->
  (hue out = 0 \/ hue out = 180) /\
  saturation out = Rmax 0 (Rmin 1 (weighted_mean_saturation (colorHistory st'))).
Proof.
  intros st c st' out H Hlen. unfold smoothColor in H.
  set (h := if (historySize <? List.length (colorHistory st ++ [c]))%nat
            then tl (colorHistory st ++ [c]) else colorHistory st ++ [c]) in H.
  destruct (List.length h =? 1)%nat eqn:E.
  - injection H as <- _. simpl in Hlen. apply Nat.eqb_eq in E. lia.
  - destruct (accumulate (INR (List.length h)) 0 h 0 0 0) as [[th ts] tw] eqn:Ha.
    assert (Hst : st' = mkAnalysisState h) by (injection H as <- _; reflexivity).
    subst st'. simpl in Hlen.
    assert (Hne : h <> []) by (intros Hh; rewrite Hh in Hlen; simpl in Hlen; lia).
    assert (Hn : INR (List.length h) <> 0)
      by (apply not_0_INR; intros Hh; apply Hne; apply length_zero_iff_nil; exact Hh).
    destruct (accumulate_spec h (INR (List.length h)) 0 0 0 0 Hn) as [th' Hacc].
    rewrite Hacc in Ha. injection Ha as <- <- <-.
    injection H as <-. simpl. pose proof (weight_total_pos h 0 Hne) as Ht.
    pose proof PI_RGT_0 as Hpi.
    split.
    + destruct (atan2_zero (th' / (0 + position_weight_total 0 h / INR (List.length h))))
        as [-> | ->].
      * replace (0 * 180 / PI) with 0 by (field; lra).
        destruct (Rlt_dec 0 0); [lra | left; reflexivity].
      * replace (PI * 180 / PI) with 180 by (field; lra).
        destruct (Rlt_dec 180 0); [lra | right; reflexivity].
    + unfold weighted_mean_saturation. f_equal. f_equal. field. split; lra.
Qed.

Lemma smooth_color_hue_collapses_witness :
  let st := mkAnalysisState [mkColor 90 (1/2)] in
  let c := mkColor 60 1 in
  smoothColor st c = (fst (smoothColor st c), snd (smoothColor st c)) /\
  (2 <= List.length (colorHistory (fst (smoothColor st c))))%nat /\
  (hue (snd (smoothColor st c)) = 0 \/ hue (snd (smoothColor st c)) = 180) /\
  saturation (snd (smoothColor st c)) =
    Rmax 0 (Rmin 1 (weighted_mean_saturation (colorHistory (fst (smoothColor st c))))).
Proof.
  intros st c.
  assert (H1 : smoothColor st c = (fst (smoothColor st c), snd (smoothColor st c)))
    by (destruct (smoothColor st c); reflexivity).
  assert (H2 : (2 <= List.length (colorHistory (fst (smoothColor st c))))%nat)
    by (vm_compute; lia).
  split; [exact H1|]. split; [exact H2|].
  exact (smooth_color_hue_collapses st c _ _ H1 H2).
Defined.

End SmoothingFacts.

Module HubFacts.
Import Dirigera Hub.
Local Open Scope R_scope.

Lemma get_device_map_set : forall devs d key,
  get_device (map_set devs d) key =
  if String.eqb (id d) key then Some d else get_device devs key.
Proof.
  induction devs as [|d' rest IH]; intros d key; simpl.
  - unfold get_device; simpl. destruct (String.eqb (id d) key); reflexivity.
  - unfold get_device in *. destruct (String.eqb (id d') (id d)) eqn:E.
    + apply String.eqb_eq in E. simpl. rewrite <- E.
      destruct (String.eqb (id d') key); reflexivity.
    + simpl. destruct (String.eqb (id d') key) eqn:E2.
      * apply String.eqb_eq in E2. subst key.
        rewrite String.eqb_sym, E. reflexivity.
      * apply IH.
Qed.

Lemma map_set_ids : forall devs d,
  map id (map_set devs d) = if existsb (fun d' => String.eqb (id d') (id d)) devs
                            then map id devs else map id devs ++ [id d].
Proof.
  induction devs as [|d' rest IH]; intros d; simpl; [reflexivity|].
  destruct (String.eqb (id d') (id d)) eqn:E; simpl.
  - apply String.eqb_eq in E. rewrite E. reflexivity.
  - rewrite IH. destruct (existsb _ rest); reflexivity.
Qed.

Lemma In_map_set : forall devs d x, NoDup (map id devs) ->
  In x (map_set devs d) -> x = d \/ (In x devs /\ id x <> id d).
Proof.
  induction devs as [|d' rest IH]; intros d x Hnd Hx; simpl in Hx.
  - destruct Hx as [<-|[]]. left; reflexivity.
  - inversion Hnd as [|? ? Hnotin Hnd']; subst.
    destruct (String.eqb (id d') (id d)) eqn:E.
    + apply String.eqb_eq in E.
      destruct Hx as [<-|Hx]; [left; reflexivity|].
      right. split; [right; exact Hx|]. intros Hid. apply Hnotin.
      rewrite E, <- Hid. apply in_map. exact Hx.
    + apply String.eqb_neq in E.
      destruct Hx as [<-|Hx]; [right; split; [left; reflexivity | exact E]|].
      destruct (IH d x Hnd' Hx) as [->|[H1 H2]]; [left; reflexivity|].
      right. split; [right; exact H1 | exact H2].
Qed.

Lemma map_set_nodup : forall devs d, NoDup (map id devs) -> NoDup (map id (map_set devs d)).
Proof.
  intros devs d Hnd. rewrite map_set_ids.
  destruct (existsb (fun d' => String.eqb (id d') (id d)) devs) eqn:E; [exact Hnd|].
  apply NoDup_app; [exact Hnd | constructor; [intros [] | constructor] |].
  intros x Hx [<-|[]]. apply in_map_iff in Hx as [y [Hy Hin]].
  assert (Hf : existsb (fun d' => String.eqb (id d') (id d)) devs = true)
    by (apply existsb_exists; exists y; split; [exact Hin | apply String.eqb_eq; exact Hy]).
  congruence.
Qed.

(** [map_update] with a function that keeps the key. *)
Lemma map_update_ids : forall devs key f, (forall d, id (f d) = id d) ->
  map id (map_update devs key f) = map id devs.
Proof.
  induction devs as [|d rest IH]; intros key f Hf; simpl; [reflexivity|].
  destruct (String.eqb (id d) key); simpl; rewrite ?Hf, ?IH; auto.
Qed.

Lemma In_map_update : forall devs key f x,
  In x (map_update devs key f) -> (exists d, In d devs /\ id d = key /\ x = f d) \/ In x devs.
Proof.
  induction devs as [|d rest IH]; intros key f x Hx; simpl in Hx; [destruct Hx|].
  destruct (String.eqb (id d) key) eqn:E.
  - apply String.eqb_eq in E. destruct Hx as [<-|Hx].
    + left. exists d. split; [left; reflexivity | split; [exact E | reflexivity]].
    + right. right. exact Hx.
  - destruct Hx as [<-|Hx]; [right; left; reflexivity|].
    destruct (IH key f x Hx) as [[d0 [H1 H2]]|H]; [left; exists d0; split; [right; exact H1 | exact H2]|].
    right. right. exact H.
Qed.

Lemma get_device_map_update : forall devs key f, (forall d, id (f d) = id d) ->
  forall key', get_device (map_update devs key f) key' =
    if String.eqb key key' then option_map f (get_device devs key') else get_device devs key'.
Proof.
  induction devs as [|d rest IH]; intros key f Hf key'; simpl.
  - destruct (String.eqb key key'); reflexivity.
  - unfold get_device in *. destruct (String.eqb (id d) key) eqn:E.
    + apply String.eqb_eq in E. subst key. simpl. rewrite Hf.
      destruct (String.eqb (id d) key'); reflexivity.
    + simpl. destruct (String.eqb (id d) key') eqn:E2.
      * apply String.eqb_eq in E2. subst key'. rewrite String.eqb_sym, E. reflexivity.
      * apply IH. exact Hf.
Qed.

Lemma get_device_In : forall devs key d, get_device devs key = Some d -> In d devs /\ id d = key.
Proof.
  intros devs key d H. unfold get_device in H. apply find_some in H as [H1 H2].
  split; [exact H1 | apply String.eqb_eq; exact H2].
Qed.

Lemma fold_first_run : forall rs devs x, (forall r, In r rs -> r_id r <> x) ->
  fold_left discover_one rs (devs, [x]) = (discover_rest devs rs, [x]).
Proof.
  induction rs as [|r rs IH]; intros devs x Hne; [reflexivity|].
  simpl. unfold set_has. simpl.
  assert (E : String.eqb (r_id r) x = false)
    by (apply String.eqb_neq; apply Hne; left; reflexivity).
  rewrite E. simpl. apply IH. intros r' Hr'. apply Hne. right. exact Hr'.
Qed.

Lemma get_rest_other : forall rs devs key, ~ In key (map r_id rs) ->
  get_device (discover_rest devs rs) key = get_device devs key.
Proof.
  induction rs as [|r rs IH]; intros devs key Hn; [reflexivity|].
  unfold discover_rest; simpl. fold (discover_rest (map_set devs (device_info r false)) rs).
  rewrite IH; [|intros Hin; apply Hn; right; exact Hin].
  rewrite get_device_map_set. simpl.
  destruct (String.eqb (r_id r) key) eqn:E; [|reflexivity].
  apply String.eqb_eq in E. exfalso. apply Hn. left. exact E.
Qed.

Lemma get_rest_in : forall rs devs r, NoDup (map r_id rs) -> In r rs ->
  get_device (discover_rest devs rs) (r_id r) = Some (device_info r false).
Proof.
  induction rs as [|r0 rs IH]; intros devs r Hnd Hin; [destruct Hin|].
  inversion Hnd as [|? ? Hnotin Hnd']; subst.
  unfold discover_rest; simpl. fold (discover_rest (map_set devs (device_info r0 false)) rs).
  destruct Hin as [<-|Hin].
  - rewrite get_rest_other by exact Hnotin.
    rewrite get_device_map_set. simpl. rewrite String.eqb_refl. reflexivity.
  - apply IH; assumption.
Qed.

Lemma In_map_update_nodup : forall devs key f x, NoDup (map id devs) ->
  In x (map_update devs key f) ->
  (exists d, In d devs /\ id d = key /\ x = f d) \/ (In x devs /\ id x <> key).
Proof.
  induction devs as [|d rest IH]; intros key f x Hnd Hx; simpl in Hx; [destruct Hx|].
  inversion Hnd as [|? ? Hnotin Hnd']; subst.
  destruct (String.eqb (id d) key) eqn:E.
  - apply String.eqb_eq in E. destruct Hx as [<-|Hx].
    + left. exists d. split; [left; reflexivity | split; [exact E | reflexivity]].
    + right. split; [right; exact Hx|]. intros Hid. apply Hnotin.
      rewrite E, <- Hid. apply in_map. exact Hx.
  - apply String.eqb_neq in E. destruct Hx as [<-|Hx].
    + right. split; [left; reflexivity | exact E].
    + destruct (IH key f x Hnd' Hx) as [[d0 [H1 H2]]|[H1 H2]].
      * left. exists d0. split; [right; exact H1 | exact H2].
      * right. split; [right; exact H1 | exact H2].
Qed.

Lemma set_has_add : forall s x y, set_has (set_add s x) y = set_has s y || String.eqb y x.
Proof.
  intros s x y. unfold set_add. destruct (set_has s x) eqn:E.
  - destruct (String.eqb y x) eqn:E2; [|rewrite orb_false_r; reflexivity].
    apply String.eqb_eq in E2. subst y. rewrite E. reflexivity.
  - unfold set_has. rewrite existsb_app. simpl. rewrite orb_false_r. reflexivity.
Qed.

Lemma set_has_delete : forall s x y,
  set_has (set_delete s x) y = set_has s y && negb (String.eqb y x).
Proof.
  induction s as [|z s IH]; intros x y; [reflexivity|].
  unfold set_delete, set_has in *. simpl.
  destruct (String.eqb z x) eqn:E; simpl.
  - apply String.eqb_eq in E. subst z. rewrite IH.
    destruct (String.eqb y x) eqn:E2; simpl; [rewrite !andb_false_r; reflexivity|].
    rewrite !andb_true_r. reflexivity.
  - rewrite IH. destruct (String.eqb y z) eqn:E2; simpl; [|reflexivity].
    apply String.eqb_eq in E2. subst z. rewrite E. reflexivity.
Qed.

Lemma consistent_map_update : forall devs sel key f,
  (forall d, id (f d) = id d /\ isSelected (f d) = isSelected d) ->
  consistent_on devs sel -> consistent_on (map_update devs key f) sel.
Proof.
  intros devs sel key f Hf [Hnd Hc]. split.
  - rewrite map_update_ids; [exact Hnd | intros d; apply Hf].
  - intros x Hx. destruct (In_map_update devs key f x Hx) as [[d [Hd [_ ->]]]|Hin].
    + destruct (Hf d) as [-> ->]. apply Hc. exact Hd.
    + apply Hc. exact Hin.
Qed.

Lemma set_state_keeps : forall s d, id (set_state s d) = id d /\ isSelected (set_state s d) = isSelected d.
Proof. intros; split; reflexivity. Qed.

Lemma discover_one_consistent : forall devs sel r,
  consistent_on devs sel ->
  consistent_on (fst (discover_one (devs, sel) r)) (snd (discover_one (devs, sel) r)).
Proof.
  intros devs sel r [Hnd Hc]. unfold discover_one.
  set (b := if (List.length sel =? 0)%nat then true else set_has sel (r_id r)).
  simpl. split; [apply map_set_nodup; exact Hnd|].
  intros x Hx. destruct (In_map_set devs _ x Hnd Hx) as [->|[Hin Hne]].
  - simpl. destruct b eqn:Eb.
    + rewrite set_has_add, String.eqb_refl, orb_true_r. reflexivity.
    + unfold b in Eb. destruct (List.length sel =? 0)%nat; [discriminate Eb|]. symmetry; exact Eb.
  - simpl in Hne. rewrite (Hc x Hin).
    destruct b; [|reflexivity].
    rewrite set_has_add. apply String.eqb_neq in Hne. rewrite Hne, orb_false_r. reflexivity.
Qed.

Lemma discover_fold_consistent : forall rs devs sel,
  consistent_on devs sel ->
  consistent_on (fst (fold_left discover_one rs (devs, sel)))
                (snd (fold_left discover_one rs (devs, sel))).
Proof.
  induction rs as [|r rs IH]; intros devs sel H; [exact H|].
  cbn [fold_left]. destruct (discover_one (devs, sel) r) as [devs' sel'] eqn:E.
  apply IH. pose proof (discover_one_consistent devs sel r H) as H'.
  rewrite E in H'. exact H'.
Qed.

Lemma batch_one_shape : forall devs u,
  fst (batch_optimistic_one devs u) = devs \/
  exists st, fst (batch_optimistic_one devs u) = map_update devs (bu_deviceId u) (set_state st).
Proof.
  intros devs u. unfold batch_optimistic_one.
  destruct (batch_target devs (bu_deviceId u)) as [d|]; [right|left; reflexivity].
  destruct (bu_color u), (bu_brightness u);
    repeat match goal with |- context [if ?b then _ else _] => destruct b end;
    eexists; reflexivity.
Qed.

Lemma batch_optimistic_consistent : forall us devs sel,
  consistent_on devs sel -> consistent_on (fst (batch_optimistic devs us)) sel.
Proof.
  induction us as [|u us IH]; intros devs sel H; [exact H|].
  simpl. pose proof (batch_one_shape devs u) as Hs.
  destruct (batch_optimistic_one devs u) as [devs1 c] eqn:E1. simpl in Hs.
  pose proof (IH devs1 sel) as IH1.
  destruct (batch_optimistic devs1 us) as [devs2 ids] eqn:E2. simpl in *.
  apply IH1. destruct Hs as [->|[st ->]]; [exact H|].
  apply consistent_map_update; [apply set_state_keeps | exact H].
Qed.

Lemma refresh_fold_consistent : forall l devs sel,
  consistent_on devs sel -> consistent_on (fold_left refresh_one l devs) sel.
Proof.
  induction l as [|r l IH]; intros devs sel H; [exact H|].
  simpl. apply IH. unfold refresh_one.
  destruct (get_device devs (r_id r)); [|exact H].
  apply consistent_map_update; [apply set_state_keeps | exact H].
Qed.


(** Extra (discoverDevices): on a first run ([selectedDeviceIds] empty), a
    discovery listing distinct lights selects only the first one: its
    [isSelected] flag is true, every later light's is false, and the
    selection set ends as just the first id. *)
Theorem discover_first_run_selects_only_first : forall h r rs h',
  h_selected h = [] -> NoDup (map r_id (r :: rs)) ->
  discoverDevices h (r :: rs) = Ok h' ->
  h_selected h' = [r_id r] /\
  get_device (h_devices h') (r_id r) = Some (device_info r true) /\
  forall r', In r' rs -> get_device (h_devices h') (r_id r') = Some (device_info r' false).
Proof.
  intros h r rs h' Hsel Hnd H. unfold discoverDevices in H.
  destruct (h_client h); [|discriminate H]. cbn [negb] in H.
  rewrite Hsel in H. cbn [fold_left] in H.
  change (discover_one (h_devices h, []) r)
    with (map_set (h_devices h) (device_info r true), [r_id r]) in H.
  inversion Hnd as [|? ? Hnotin Hnd']; subst.
  rewrite fold_first_run in H.
  2:{ intros r' Hr' He. apply Hnotin. rewrite <- He. apply in_map. exact Hr'. }
  injection H as <-. simpl. split; [reflexivity|]. split.
  - rewrite get_rest_other by exact Hnotin.
    rewrite get_device_map_set. simpl. rewrite String.eqb_refl. reflexivity.
  - intros r' Hr'. apply get_rest_in; assumption.
Qed.

Lemma discover_first_run_selects_only_first_witness :
  let r1 := mkRaw "a"%string "light"%string (Some "Lamp A"%string) None (Some true) (Some 50) (Some 0) None None None in
  let r2 := mkRaw "b"%string "light"%string (Some "Lamp B"%string) None (Some true) (Some 50) (Some 0) None None None in
  let h := mkHub true [] [] None [] [] in
  exists h', discoverDevices h [r1; r2] = Ok h' /\
  h_selected h' = [r_id r1] /\
  get_device (h_devices h') (r_id r1) = Some (device_info r1 true) /\
  forall r', In r' [r2] -> get_device (h_devices h') (r_id r') = Some (device_info r' false).
Proof.
  intros r1 r2 h.
  assert (H1 : h_selected h = []) by reflexivity.
  assert (H2 : NoDup (map r_id [r1; r2])).
  { simpl. constructor; [simpl; intros [H|[]]; discriminate H|].
    constructor; [intros []|constructor]. }
  destruct (discoverDevices h [r1; r2]) as [h'|msg] eqn:E; [|discriminate E].
  exists h'. split; [reflexivity|].
  exact (discover_first_run_selects_only_first h r1 [r2] h' H1 H2 E).
Defined.

(** Extra (DirigeraService): from a registry with unique keys whose
    [isSelected] flags agree with [selectedDeviceIds], discovery,
    [toggleDeviceSelection], hub device updates, [refreshDeviceStates],
    [updateLightsBatch] and [updateSingleLight] all keep that agreement. *)
Theorem selection_stays_consistent : forall h,
  consistent_on (h_devices h) (h_selected h) ->
  (forall rs h', discoverDevices h rs = Ok h' -> consistent_on (h_devices h') (h_selected h')) /\
  (forall key b, let h' := toggleDeviceSelection h key b in
                 consistent_on (h_devices h') (h_selected h')) /\
  (forall m, let h' := handleDeviceUpdate h m in consistent_on (h_devices h') (h_selected h')) /\
  (forall l, let h' := refreshDeviceStates h l in consistent_on (h_devices h') (h_selected h')) /\
  (forall us, let h' := updateLightsBatch h us in consistent_on (h_devices h') (h_selected h')) /\
  (forall u h', updateSingleLight h u = Ok h' -> consistent_on (h_devices h') (h_selected h')).
Proof.
  intros h Hc. split; [|split; [|split; [|split; [|split]]]].
  - intros rs h' H. unfold discoverDevices in H. destruct (h_client h); [|discriminate H].
    simpl in H. pose proof (discover_fold_consistent rs (h_devices h) (h_selected h) Hc) as Hf.
    destruct (fold_left discover_one rs (h_devices h, h_selected h)) as [devs sel].
    injection H as <-. exact Hf.
  - intros key b h'. unfold h', toggleDeviceSelection.
    destruct (get_device (h_devices h) key) as [d|] eqn:Eg; [|exact Hc].
    destruct Hc as [Hnd Hcs]. simpl. split.
    + rewrite map_update_ids; [exact Hnd | reflexivity].
    + intros x Hx.
      destruct (In_map_update_nodup _ key _ x Hnd Hx) as [[d0 [Hd0 [Hid ->]]]|[Hin Hne]].
      * simpl. rewrite Hid. destruct b.
        -- rewrite set_has_add, String.eqb_refl, orb_true_r. reflexivity.
        -- rewrite set_has_delete, String.eqb_refl, andb_false_r. reflexivity.
      * rewrite (Hcs x Hin). apply String.eqb_neq in Hne. destruct b.
        -- rewrite set_has_add, Hne, orb_false_r. reflexivity.
        -- rewrite set_has_delete, Hne, andb_true_r. reflexivity.
  - intros m h'. unfold h', handleDeviceUpdate.
    destruct (m_id m) as [key|]; [|exact Hc].
    destruct (String.eqb key ""%string); [exact Hc|].
    destruct (get_device (h_devices h) key); [|exact Hc].
    destruct (match m_attributes m with Some a => _ | None => _ end) as [s' ch].
    simpl. apply consistent_map_update; [apply set_state_keeps | exact Hc].
  - intros l h'. unfold h', refreshDeviceStates.
    destruct (h_client h); [|exact Hc]. destruct l as [l|]; [|exact Hc].
    simpl. apply refresh_fold_consistent. exact Hc.
  - intros us h'. unfold h', updateLightsBatch.
    destruct (h_client h); [|exact Hc]. simpl.
    pose proof (batch_optimistic_consistent us (h_devices h) (h_selected h) Hc) as Hb.
    destruct (batch_optimistic (h_devices h) us) as [devs ids]. exact Hb.
  - intros u h' H. unfold updateSingleLight in H.
    destruct (h_client h); [|discriminate H]. simpl in H.
    destruct (get_device (h_devices h) (su_deviceId u)) as [d|]; [|injection H as <-; exact Hc].
    destruct (isOn (currentState d)); [|injection H as <-; exact Hc]. simpl in H.
    destruct (match su_color u with Some c => _ | None => _ end) as [s1 c1].
    destruct (truthy_num (su_brightness u) && canChangeBrightness (capabilities d));
      injection H as <-; simpl; apply consistent_map_update;
      [apply set_state_keeps | exact Hc | apply set_state_keeps | exact Hc].
Qed.

Lemma selection_stays_consistent_witness :
  let d := mkDevice "a"%string "Lamp A"%string (mkCaps true true) (mkState true 50 None) true in
  let h := mkHub true [d] ["a"%string] None [] [] in
  consistent_on (h_devices h) (h_selected h) /\
  forall key b, let h' := toggleDeviceSelection h key b in
                consistent_on (h_devices h') (h_selected h').
Proof.
  intros d h.
  assert (Hc : consistent_on (h_devices h) (h_selected h)).
  { split; [constructor; [intros []|constructor]|].
    intros x [<-|[]]. reflexivity. }
  split; [exact Hc|].
  exact (proj1 (proj2 (selection_stays_consistent h Hc))).
Defined.


Lemma Int_part_unique : forall (k : Z) x, IZR k <= x < IZR k + 1 -> Int_part x = k.
Proof.
  intros k x [H1 H2]. destruct (base_Int_part x) as [B1 B2].
  assert (Hlt : (Int_part x < k + 1)%Z) by (apply lt_IZR; rewrite plus_IZR; simpl; lra).
  assert (Hgt : (k - 1 < Int_part x)%Z) by (apply lt_IZR; rewrite minus_IZR; simpl; lra).
  lia.
Qed.

Lemma js_round_bounds : forall (lo hi : Z) x, IZR lo <= x <= IZR hi ->
  (lo <= js_round x <= hi)%Z.
Proof.
  intros lo hi x [H1 H2]. unfold js_round. destruct (base_Int_part (x + /2)) as [B1 B2].
  split.
  - assert (Hgt : (lo - 1 < Int_part (x + / 2))%Z)
      by (apply lt_IZR; rewrite minus_IZR; simpl; lra). lia.
  - assert (Hlt : (Int_part (x + / 2) < hi + 1)%Z)
      by (apply lt_IZR; rewrite plus_IZR; simpl; lra). lia.
Qed.

Lemma js_round_clamp_1_100 : forall b, (1 <= js_round (Rmax 1 (Rmin 100 b)) <= 100)%Z.
Proof.
  intros b. apply js_round_bounds.
  unfold Rmax, Rmin. repeat destruct (Rle_dec _ _); simpl; lra.
Qed.

Lemma js_round_one : js_round 1 = 1%Z.
Proof. unfold js_round. apply Int_part_unique. simpl. lra. Qed.

Lemma apply_attributes_hue : forall a s hue, a_colorHue a = Some hue ->
  exists s', apply_attributes a s = (s', true) /\
             color s' = Some (mkColor hue (num_or (a_colorSaturation a) 1)).
Proof.
  intros a s hue Hh. unfold apply_attributes. rewrite Hh.
  destruct (a_isOn a), (a_lightLevel a);
    repeat match goal with |- context [if ?b then _ else _] => destruct b end;
    eexists; split; reflexivity.
Qed.

Lemma refresh_fold_other : forall l devs key, ~ In key (map r_id l) ->
  get_device (fold_left refresh_one l devs) key = get_device devs key.
Proof.
  induction l as [|r l IH]; intros devs key Hn; [reflexivity|].
  simpl. rewrite IH by (intros Hin; apply Hn; right; exact Hin).
  unfold refresh_one. destruct (get_device devs (r_id r)); [|reflexivity].
  rewrite get_device_map_update by reflexivity.
  destruct (String.eqb (r_id r) key) eqn:E; [|reflexivity].
  apply String.eqb_eq in E. exfalso. apply Hn. left. exact E.
Qed.

Lemma refresh_one_some : forall devs r key d,
  get_device devs key = Some d ->
  exists d', get_device (refresh_one devs r) key = Some d' /\ isSelected d' = isSelected d.
Proof.
  intros devs r key d Hd. unfold refresh_one.
  destruct (get_device devs (r_id r)) as [d0|] eqn:E0; [|exists d; split; [exact Hd | reflexivity]].
  rewrite get_device_map_update by reflexivity.
  destruct (String.eqb (r_id r) key) eqn:E.
  - apply String.eqb_eq in E. subst key. rewrite E0 in Hd. injection Hd as <-.
    rewrite E0. simpl. eexists; split; reflexivity.
  - exists d. split; [exact Hd | reflexivity].
Qed.

Lemma refresh_fold_listed : forall l devs r d, NoDup (map r_id l) -> In r l ->
  get_device devs (r_id r) = Some d ->
  exists d', get_device (fold_left refresh_one l devs) (r_id r) = Some d' /\
    isOn (currentState d') = bool_or_false (r_isOn r) /\
    brightness (currentState d') = num_or (r_lightLevel r) 0 /\
    isSelected d' = isSelected d.
Proof.
  induction l as [|r0 l IH]; intros devs r d Hnd Hin Hd; [destruct Hin|].
  inversion Hnd as [|? ? Hnotin Hnd']; subst. simpl.
  destruct Hin as [<-|Hin].
  - rewrite refresh_fold_other by exact Hnotin.
    unfold refresh_one. rewrite Hd. rewrite get_device_map_update by reflexivity.
    rewrite String.eqb_refl, Hd. simpl.
    eexists; repeat split; reflexivity.
  - destruct (refresh_one_some devs r0 (r_id r) d Hd) as [d1 [Hd1 Hs1]].
    destruct (IH _ r d1 Hnd' Hin Hd1) as (d' & H1 & H2 & H3 & H4).
    exists d'. repeat split; try assumption. congruence.
Qed.

Lemma refresh_fold_shape : forall l devs,
  map (fun d => (id d, name d, capabilities d, isSelected d)) (fold_left refresh_one l devs) =
  map (fun d => (id d, name d, capabilities d, isSelected d)) devs.
Proof.
  induction l as [|r l IH]; intros devs; [reflexivity|].
  simpl. rewrite IH. unfold refresh_one.
  destruct (get_device devs (r_id r)); [|reflexivity].
  generalize (r_id r). induction devs as [|x devs IHd]; intros key; [reflexivity|].
  simpl. destruct (String.eqb (id x) key); simpl; [reflexivity|].
  rewrite IHd. reflexivity.
Qed.


(** Extra (handleDeviceUpdate): a hub message without an id, or for an id
    not in the registry, changes nothing and emits nothing; a message for
    a known device carrying [colorHue] stores that hue with saturation
    [colorSaturation || 1] (so a reported saturation of 0 is stored as 1),
    keeps the device's selection flag and capabilities, and emits one
    ['deviceUpdate'] for it. *)
Theorem device_update_message : forall h m,
  (match m_id m with Some key => get_device (h_devices h) key = None | None => True end ->
   handleDeviceUpdate h m = h) /\
  (forall key a d hue, m = mkMsg (Some key) (Some a) -> key <> ""%string ->
   get_device (h_devices h) key = Some d -> a_colorHue a = Some hue ->
   let h' := handleDeviceUpdate h m in
   exists d', get_device (h_devices h') key = Some d' /\
     color (currentState d') = Some (mkColor hue (num_or (a_colorSaturation a) 1)) /\
     isSelected d' = isSelected d /\ capabilities d' = capabilities d /\
     h_events h' = h_events h ++ [EvDeviceUpdate key]).
Proof.
  intros h m. split.
  - unfold handleDeviceUpdate. destruct (m_id m) as [key|]; [|reflexivity].
    intros Hn. rewrite Hn. destruct (String.eqb key ""); reflexivity.
  - intros key a d hue -> Hne Hd Hh h'. unfold h', handleDeviceUpdate. simpl.
    apply String.eqb_neq in Hne. rewrite Hne, Hd.
    destruct (apply_attributes_hue a (currentState d) hue Hh) as [s' [Ha Hc]].
    rewrite Ha. simpl. rewrite get_device_map_update by reflexivity.
    rewrite String.eqb_refl, Hd. simpl.
    exists (set_state s' d). repeat split; assumption.
Qed.

Lemma device_update_message_witness :
  let d := mkDevice "a"%string "Lamp A"%string (mkCaps true true) (mkState true 50 None) true in
  let h := mkHub true [d] ["a"%string] None [] [] in
  let a := mkAttrs None None (Some 120) (Some 0) in
  (handleDeviceUpdate h (mkMsg (Some "zz"%string) (Some a)) = h) /\
  exists d', get_device (h_devices (handleDeviceUpdate h (mkMsg (Some "a"%string) (Some a)))) "a"%string = Some d' /\
     color (currentState d') = Some (mkColor 120 (num_or (a_colorSaturation a) 1)) /\
     isSelected d' = isSelected d /\ capabilities d' = capabilities d /\
     h_events (handleDeviceUpdate h (mkMsg (Some "a"%string) (Some a))) =
       h_events h ++ [EvDeviceUpdate "a"%string].
Proof.
  intros d h a. split.
  - apply (proj1 (device_update_message h (mkMsg (Some "zz"%string) (Some a)))). reflexivity.
  - apply (proj2 (device_update_message h (mkMsg (Some "a"%string) (Some a))) "a"%string a d 120);
      [reflexivity | discriminate | reflexivity | reflexivity].
Defined.

(** Extra (refreshDeviceStates): a refresh never adds or removes a device
    and never changes an id, name, capability set, the selection flags or
    [selectedDeviceIds]; when connected, a cached device that the listing
    reports (once) gets [isOn || false] and [lightLevel || 0] from it. *)
Theorem refresh_keeps_registry : forall h l,
  map (fun d => (id d, name d, capabilities d, isSelected d)) (h_devices (refreshDeviceStates h l)) =
  map (fun d => (id d, name d, capabilities d, isSelected d)) (h_devices h) /\
  h_selected (refreshDeviceStates h l) = h_selected h /\
  (forall ls r d, h_client h = true -> l = Some ls -> NoDup (map r_id ls) -> In r ls ->
   get_device (h_devices h) (r_id r) = Some d ->
   exists d', get_device (h_devices (refreshDeviceStates h l)) (r_id r) = Some d' /\
     isOn (currentState d') = bool_or_false (r_isOn r) /\
     brightness (currentState d') = num_or (r_lightLevel r) 0 /\
     isSelected d' = isSelected d).
Proof.
  intros h l. unfold refreshDeviceStates.
  split; [|split].
  - destruct (h_client h); [|reflexivity]. destruct l; [|reflexivity].
    apply refresh_fold_shape.
  - destruct (h_client h); [|reflexivity]. destruct l; reflexivity.
  - intros ls r d Hc -> Hnd Hin Hd. rewrite Hc. simpl.
    apply refresh_fold_listed; assumption.
Qed.

Lemma refresh_keeps_registry_witness :
  let d := mkDevice "a"%string "Lamp A"%string (mkCaps true true) (mkState true 50 None) false in
  let h := mkHub true [d] [] None [] [] in
  let r := mkRaw "a"%string "light"%string None None None (Some 0) None None None None in
  exists d', get_device (h_devices (refreshDeviceStates h (Some [r]))) (r_id r) = Some d' /\
     isOn (currentState d') = bool_or_false (r_isOn r) /\
     brightness (currentState d') = num_or (r_lightLevel r) 0 /\
     isSelected d' = isSelected d.
Proof.
  intros d h r.
  apply (proj2 (proj2 (refresh_keeps_registry h (Some [r]))) [r] r d);
    [reflexivity | reflexivity | constructor; [intros [] | constructor] | left; reflexivity | reflexivity].
Defined.


Lemma map_update_map_preserved : forall {B} (g : Device -> B) devs key f,
  (forall d, g (f d) = g d) -> map g (map_update devs key f) = map g devs.
Proof.
  intros B g devs key f Hf. induction devs as [|d rest IH]; simpl; [reflexivity|].
  destruct (String.eqb (id d) key); simpl; rewrite ?Hf, ?IH; reflexivity.
Qed.

Lemma map_update_map_at : forall {B} (g : Device -> B) devs key f d,
  get_device devs key = Some d -> g (f d) = g d ->
  map g (map_update devs key f) = map g devs.
Proof.
  intros B g devs key f d Hd Hf. induction devs as [|x rest IH]; [reflexivity|].
  unfold get_device in Hd. simpl in Hd |- *.
  destruct (String.eqb (id x) key); simpl.
  - injection Hd as ->. rewrite Hf. reflexivity.
  - rewrite IH; [reflexivity|exact Hd].
Qed.

Lemma batch_calls_one_gated : forall devs u c, In c (batch_calls_one devs u) ->
  exists d, get_device devs (bcall_dev c) = Some d /\ isSelected d = true /\
    isOn (currentState d) = true /\
    match c with
    | BSetLightColor _ _ _ _ => canChangeColor (capabilities d) = true
    | BSetLightLevel _ lvl _ => canChangeBrightness (capabilities d) = true /\ (1 <= lvl <= 100)%Z
    end.
Proof.
  intros devs u c Hc. unfold batch_calls_one, batch_target in Hc.
  destruct (get_device devs (bu_deviceId u)) as [d|] eqn:Eg; [|destruct Hc].
  destruct (isSelected d) eqn:Es; [|destruct Hc].
  destruct (isOn (currentState d)) eqn:Eo; [|destruct Hc]. simpl in Hc.
  exists d. apply in_app_or in Hc as [Hc|Hc].
  - destruct (bu_color u) as [col|]; [|destruct Hc].
    destruct (canChangeColor (capabilities d)) eqn:Ec; [|destruct Hc].
    destruct Hc as [<-|[]]. simpl. repeat split; assumption.
  - destruct (bu_brightness u) as [b|]; [|destruct Hc].
    destruct (canChangeBrightness (capabilities d)) eqn:Ec; [|destruct Hc].
    destruct Hc as [<-|[]]. simpl. repeat split; try assumption;
      apply js_round_clamp_1_100.
Qed.

(** Extra (updateLightsBatch): when not connected the call does nothing;
    when connected it queues exactly one unit of work, and whatever the
    registry is when that work runs, every call it makes targets a
    registered device that is selected and on, colour calls only go to
    colour-capable devices, and level calls only to dimmable ones with a
    level in [1, 100]. *)
Theorem batch_update_gated : forall h us,
  (h_client h = false -> updateLightsBatch h us = h) /\
  (h_client h = true -> h_jobs (updateLightsBatch h us) = h_jobs h ++ [HBatch us]) /\
  (forall devs c, In c (run_hub_job devs (HBatch us)) ->
   exists d, get_device devs (bcall_dev c) = Some d /\ isSelected d = true /\
    isOn (currentState d) = true /\
    match c with
    | BSetLightColor _ _ _ _ => canChangeColor (capabilities d) = true
    | BSetLightLevel _ lvl _ => canChangeBrightness (capabilities d) = true /\ (1 <= lvl <= 100)%Z
    end).
Proof.
  intros h us. split; [|split].
  - intros Hc. unfold updateLightsBatch. rewrite Hc. reflexivity.
  - intros Hc. unfold updateLightsBatch. rewrite Hc. simpl.
    destruct (batch_optimistic (h_devices h) us). reflexivity.
  - intros devs c Hc. simpl in Hc. apply in_flat_map in Hc as [u [_ Hc]].
    exact (batch_calls_one_gated devs u c Hc).
Qed.

Lemma batch_update_gated_witness :
  let d := mkDevice "a"%string "Lamp A"%string (mkCaps true true) (mkState true 50 None) true in
  let us := [mkBatch "a"%string (Some (mkColor 30 1)) (Some 250) (Some 500)] in
  let h := mkHub true [d] ["a"%string] None [] [] in
  h_jobs (updateLightsBatch h us) = h_jobs h ++ [HBatch us] /\
  exists d', get_device [d] (bcall_dev (BSetLightLevel "a"%string 100 (Some 500))) = Some d' /\
    isSelected d' = true /\ isOn (currentState d') = true /\
    canChangeBrightness (capabilities d') = true /\ (1 <= 100 <= 100)%Z.
Proof.
  intros d us h. split.
  - apply (proj1 (proj2 (batch_update_gated h us))). reflexivity.
  - apply (proj2 (proj2 (batch_update_gated h us)) [d] (BSetLightLevel "a"%string 100 (Some 500))).
    simpl. right. left. f_equal. unfold js_round. apply Int_part_unique.
    unfold Rmax, Rmin. repeat destruct (Rle_dec _ _); simpl; lra.
Defined.

(** Extra (updateLightsBatch vs updateSingleLight): a brightness of 0 is
    sent by the batch path as light level 1 to a selected, on, dimmable
    device, while [updateSingleLight] treats 0 as absent: it issues no
    level call and leaves every cached brightness unchanged. *)
Theorem zero_brightness_batch_vs_single : forall devs key d col tt,
  get_device devs key = Some d -> isSelected d = true -> isOn (currentState d) = true ->
  canChangeBrightness (capabilities d) = true ->
  In (BSetLightLevel key 1 tt) (batch_calls_one devs (mkBatch key col (Some 0) tt)) /\
  (forall dd c t lvl tt', ~ In (BSetLightLevel key lvl tt') (single_calls dd (mkSingle key c 0 t))) /\
  (forall h h' c t, updateSingleLight h (mkSingle key c 0 t) = Ok h' ->
   map (fun x => brightness (currentState x)) (h_devices h') =
   map (fun x => brightness (currentState x)) (h_devices h)).
Proof.
  intros devs key d col tt Hd Hs Ho Hb. split; [|split].
  - unfold batch_calls_one, batch_target. simpl. rewrite Hd, Hs, Ho. simpl.
    apply in_or_app. right. rewrite Hb.
    replace (js_round (Rmax 1 (Rmin 100 0))) with 1%Z; [left; reflexivity|].
    symmetry. unfold js_round. apply Int_part_unique.
    unfold Rmax, Rmin. repeat destruct (Rle_dec _ _); simpl; lra.
  - intros dd c t lvl tt' Hin. unfold single_calls in Hin. simpl in Hin.
    unfold truthy_num in Hin. destruct (Req_dec_T 0 0) as [_|Hn]; [|apply Hn; reflexivity].
    simpl in Hin. rewrite app_nil_r in Hin.
    destruct c as [c|]; [|destruct Hin].
    destruct (canChangeColor (capabilities dd)); [|destruct Hin].
    destruct Hin as [Hin|[]]. discriminate Hin.
  - intros h h' c t H. unfold updateSingleLight in H. cbn [su_deviceId su_brightness su_color] in H.
    destruct (h_client h); [|discriminate H]. cbn [negb] in H.
    destruct (get_device (h_devices h) key) as [d0|] eqn:Eg; [|injection H as <-; reflexivity].
    destruct (isOn (currentState d0)) eqn:Eo; [|injection H as <-; reflexivity]. cbn [negb] in H.
    unfold truthy_num in H. destruct (Req_dec_T 0 0) as [_|Hn]; [|exfalso; apply Hn; reflexivity].
    cbn [andb] in H.
    assert (Hpres : forall s1, brightness s1 = brightness (currentState d0) ->
      map (fun x => brightness (currentState x)) (map_update (h_devices h) key (set_state s1)) =
      map (fun x => brightness (currentState x)) (h_devices h)).
    { intros s1 Hb1. apply (map_update_map_at _ _ _ _ d0 Eg). exact Hb1. }
    destruct c as [c0|]; [destruct (canChangeColor (capabilities d0))|];
      injection H as <-; cbn [h_devices]; apply Hpres; reflexivity.
Qed.


Lemma zero_brightness_batch_vs_single_witness :
  let d := mkDevice "a"%string "Lamp A"%string (mkCaps true true) (mkState true 50 None) true in
  In (BSetLightLevel "a"%string 1 None)
     (batch_calls_one [d] (mkBatch "a"%string None (Some 0) None)).
Proof.
  intros d. apply (proj1 (zero_brightness_batch_vs_single [d] "a"%string d None None
    eq_refl eq_refl eq_refl eq_refl)).
Defined.

(** Extra (updateSingleLight): without a client it throws; a missing or
    switched-off device leaves the hub unchanged; for a device that is on,
    the selection flag is not consulted: a colour change for a
    colour-capable light is cached, queued and announced even when the
    light is deselected. *)
Theorem single_light_edges : forall h u,
  (h_client h = false -> updateSingleLight h u = Throw "DIRIGERA client not initialized"%string) /\
  (h_client h = true -> get_device (h_devices h) (su_deviceId u) = None -> updateSingleLight h u = Ok h) /\
  (h_client h = true -> forall d, get_device (h_devices h) (su_deviceId u) = Some d ->
     isOn (currentState d) = false -> updateSingleLight h u = Ok h) /\
  (h_client h = true -> forall d c, get_device (h_devices h) (su_deviceId u) = Some d ->
     isOn (currentState d) = true -> canChangeColor (capabilities d) = true ->
     su_color u = Some c ->
     exists h' d', updateSingleLight h u = Ok h' /\
       get_device (h_devices h') (su_deviceId u) = Some d' /\
       isSelected d' = isSelected d /\
       color (currentState d') = Some (mkColor (hue c) (saturation c)) /\
       last (h_events h') (EvDevicesUpdate []) = EvDeviceUpdate (su_deviceId u) /\
       In (BSetLightColor (su_deviceId u) (js_round (hue c)) (saturation c)
             (Some (su_transitionTime u))) (single_calls d' u) /\
       exists j, h_jobs h' = h_jobs h ++ [j] /\ run_hub_job [] j = single_calls d' u).
Proof.
  intros h u. unfold updateSingleLight. split; [|split; [|split]].
  - intros Hc. rewrite Hc. reflexivity.
  - intros Hc Hg. rewrite Hc, Hg. reflexivity.
  - intros Hc d Hg Ho. rewrite Hc, Hg, Ho. reflexivity.
  - intros Hc d c Hg Ho Hcc Hcol. rewrite Hc, Hg, Ho, Hcol, Hcc. cbn [negb].
    set (s1 := mkState true (brightness (currentState d)) (Some (mkColor (hue c) (saturation c)))).
    destruct (truthy_num (su_brightness u) && canChangeBrightness (capabilities d)) eqn:Eb.
    + set (s2 := mkState (isOn s1) (su_brightness u) (color s1)).
      exists (mkHub (h_client h) (map_update (h_devices h) (su_deviceId u) (set_state s2))
                (h_selected h) (h_selection_file h) (h_jobs h ++ [HSingle (set_state s2 d) u])
                (h_events h ++ [EvDeviceUpdate (su_deviceId u)])), (set_state s2 d).
      split; [rewrite Hc; reflexivity|]. cbn [h_devices h_events h_jobs].
      rewrite get_device_map_update by reflexivity. rewrite String.eqb_refl, Hg.
      split; [reflexivity|]. split; [reflexivity|]. split; [reflexivity|].
      split; [apply last_last|]. split.
      * unfold single_calls. rewrite Hcol. cbn [set_state capabilities]. rewrite Hcc.
        apply in_or_app. left. left. reflexivity.
      * eexists. split; reflexivity.
    + exists (mkHub (h_client h) (map_update (h_devices h) (su_deviceId u) (set_state s1))
                (h_selected h) (h_selection_file h) (h_jobs h ++ [HSingle (set_state s1 d) u])
                (h_events h ++ [EvDeviceUpdate (su_deviceId u)])), (set_state s1 d).
      split; [rewrite Hc; reflexivity|]. cbn [h_devices h_events h_jobs].
      rewrite get_device_map_update by reflexivity. rewrite String.eqb_refl, Hg.
      split; [reflexivity|]. split; [reflexivity|]. split; [reflexivity|].
      split; [apply last_last|]. split.
      * unfold single_calls. rewrite Hcol. cbn [set_state capabilities]. rewrite Hcc.
        apply in_or_app. left. left. reflexivity.
      * eexists. split; reflexivity.
Qed.

Lemma single_light_edges_witness :
  let d := mkDevice "a"%string "Lamp A"%string (mkCaps true true) (mkState true 50 None) false in
  let h := mkHub true [d] [] (Some []) [] [] in
  let u := mkSingle "a"%string (Some (mkColor 120 1)) 0 300 in
  exists h' d', updateSingleLight h u = Ok h' /\
    get_device (h_devices h') (su_deviceId u) = Some d' /\
    isSelected d' = isSelected d /\
    color (currentState d') = Some (mkColor (hue (mkColor 120 1)) (saturation (mkColor 120 1))) /\
    last (h_events h') (EvDevicesUpdate []) = EvDeviceUpdate (su_deviceId u) /\
    In (BSetLightColor (su_deviceId u) (js_round (hue (mkColor 120 1))) (saturation (mkColor 120 1))
          (Some (su_transitionTime u))) (single_calls d' u) /\
    exists j, h_jobs h' = h_jobs h ++ [j] /\ run_hub_job [] j = single_calls d' u.
Proof.
  intros d h u.
  apply (proj2 (proj2 (proj2 (single_light_edges h u))) eq_refl d (mkColor 120 1)
           eq_refl eq_refl eq_refl eq_refl).
Defined.

Lemma optimistic_level_only : forall b tt d,
  let d' := fst (optimistic (mkUpdate None (Some b) tt None) d) in
  isSelected d' = isSelected d /\ isOn (currentState d') = isOn (currentState d) /\
  capabilities d' = capabilities d /\
  (isSelected d = true -> isOn (currentState d) = true ->
   canChangeBrightness (capabilities d) = true -> brightness (currentState d') = b).
Proof.
  intros b tt d. unfold optimistic. cbn [u_isOn u_color u_brightness not_turning_on].
  destruct (isSelected d) eqn:Es; cbn [negb fst].
  - destruct (isOn (currentState d)) eqn:Eo; cbn [negb andb fst].
    + destruct (canChangeBrightness (capabilities d)) eqn:Eb; cbn [fst isSelected currentState
        capabilities isOn brightness]; rewrite ?Eo; repeat split; try reflexivity; congruence.
    + repeat split; congruence.
  - repeat split; congruence.
Qed.

Lemma updateLights_level_only : forall svc b tt d',
  client svc = true -> In d' (devices (updateLights svc (mkUpdate None (Some b) tt None))) ->
  exists d, In d (devices svc) /\ d' = fst (optimistic (mkUpdate None (Some b) tt None) d).
Proof.
  intros svc b tt d' Hc Hin. unfold updateLights in Hin. rewrite Hc in Hin. cbn [negb devices] in Hin.
  rewrite map_map in Hin. apply in_map_iff in Hin as [d [<- Hd]]. exists d. split; [exact Hd|reflexivity].
Qed.

(** Extra (executePulseCommand with updateLights): when the pulse asks to
    return, it issues exactly two updates, the flash now and the return
    after the delay; applying both in order leaves every selected, on,
    dimmable light at the brightness of the first registered device, or
    at 50 when that brightness is 0, whatever its own earlier brightness. *)
Theorem pulse_restores_first_brightness : forall svc cmd b d0 rest,
  client svc = true -> devices svc = d0 :: rest ->
  c_brightness cmd = Some b -> c_returnToPrevious cmd = true ->
  exists u1 ms u2,
    executePulseCommand (devices svc) cmd = [Now u1; Later ms u2] /\
    forall d, In d (devices (updateLights (updateLights svc u1) u2)) ->
      isSelected d = true -> isOn (currentState d) = true ->
      canChangeBrightness (capabilities d) = true ->
      (brightness (currentState d0) <> 0 -> brightness (currentState d) = brightness (currentState d0)) /\
      (brightness (currentState d0) = 0 -> brightness (currentState d) = 50).
Proof.
  intros svc cmd b d0 rest Hc Hd Hb Hr.
  set (tt := num_or (c_transitionTime cmd) 50).
  set (ob := num_or (Some (brightness (currentState d0))) 50).
  exists (mkUpdate None (Some b) (Some tt) None), (num_or (c_returnDelay cmd) 100),
         (mkUpdate None (Some ob) (Some tt) None).
  split.
  - unfold executePulseCommand. rewrite Hb, Hd, Hr. reflexivity.
  - intros d Hin Hs Ho Hcb.
    assert (Hc1 : client (updateLights svc (mkUpdate None (Some b) (Some tt) None)) = true)
      by (unfold updateLights; rewrite Hc; reflexivity).
    apply updateLights_level_only in Hin as [d1 [_ ->]]; [|exact Hc1].
    destruct (optimistic_level_only ob (Some tt) d1) as [E1 [E2 [E3 E4]]].
    rewrite E1 in Hs. rewrite E2 in Ho. rewrite E3 in Hcb.
    rewrite (E4 Hs Ho Hcb). unfold ob, num_or.
    destruct (Req_dec_T (brightness (currentState d0)) 0); split; intros; congruence.
Qed.

Lemma pulse_restores_first_brightness_witness :
  let d0 := mkDevice "a"%string "Lamp A"%string (mkCaps true true) (mkState true 0 None) true in
  let d1 := mkDevice "b"%string "Lamp B"%string (mkCaps true true) (mkState true 70 None) true in
  let svc := mkService true [d0; d1] [] [] in
  let cmd := mkCommand PULSE None (Some 100) None true None in
  exists u1 ms u2,
    executePulseCommand (devices svc) cmd = [Now u1; Later ms u2] /\
    forall d, In d (devices (updateLights (updateLights svc u1) u2)) ->
      isSelected d = true -> isOn (currentState d) = true ->
      canChangeBrightness (capabilities d) = true ->
      (brightness (currentState d0) <> 0 -> brightness (currentState d) = brightness (currentState d0)) /\
      (brightness (currentState d0) = 0 -> brightness (currentState d) = 50).
Proof.
  intros d0 d1 svc cmd.
  apply (pulse_restores_first_brightness svc cmd 100 d0 [d1] eq_refl eq_refl eq_refl eq_refl).
Defined.

End HubFacts.

Module SceneLoopsFacts.
Import Dirigera SceneEngine SceneColor Hub SceneLoops SceneColorFacts HubFacts.
Local Open Scope R_scope.

Lemma js_round_mono : forall x y, x <= y -> (js_round x <= js_round y)%Z.
Proof.
  intros x y H. unfold js_round.
  destruct (base_Int_part (x + /2)) as [A1 A2]. destruct (base_Int_part (y + /2)) as [B1 B2].
  assert (Hlt : (Int_part (x + /2) < Int_part (y + /2) + 1)%Z)
    by (apply lt_IZR; rewrite plus_IZR; simpl; lra).
  lia.
Qed.

Lemma randomColor_in : forall pal r, pal <> [] -> 0 <= r < 1 ->
  exists c, randomColor pal r = Some c /\ In c pal.
Proof.
  intros pal r Hne [H0 H1]. unfold randomColor.
  assert (Hn : 0 < INR (List.length pal)).
  { destruct pal as [|x xs]; [congruence|]. simpl List.length. rewrite S_INR.
    pose proof (pos_INR (List.length xs)). lra. }
  assert (Hi : (0 <= Int_part (r * INR (List.length pal)) < Z.of_nat (List.length pal))%Z).
  { apply Int_part_index. split; [apply Rmult_le_pos; lra|].
    rewrite <- (Rmult_1_l (INR (List.length pal))) at 2. apply Rmult_lt_compat_r; lra. }
  destruct (js_at_in_bounds pal _ Hi) as [c Hc]. exists c. split; [exact Hc|].
  unfold js_at in Hc. destruct (_ <? 0)%Z; [discriminate|]. apply nth_error_In in Hc. exact Hc.
Qed.

Lemma filter_random_incl : forall rand k ds d, In d (filter_random rand k ds) -> In d ds.
Proof.
  intros rand k ds. revert k. induction ds as [|x xs IH]; intros k d H; simpl in H; [destruct H|].
  destruct (Rlt_dec _ _); [destruct H as [<-|H]; [left; reflexivity|]|]; right; eapply IH; exact H.
Qed.

Lemma drift_map_spec : forall s rand k ds u, In u (drift_map s rand k ds) ->
  exists d j, In d ds /\
    u = mkSingle (id d) (getRandomColorFromPalette (Some s) (rand j)) (sc_brightness s)
          (IZR (js_round (transitionSpeed s + (rand (S j) * (transitionSpeed s * (4/10))
                                               - transitionSpeed s * (4/10) / 2)))).
Proof.
  intros s rand k ds. revert k. induction ds as [|d ds IH]; intros k u H; [destruct H|].
  destruct H as [<-|H].
  - exists d, k. split; [left; reflexivity | reflexivity].
  - destruct (IH _ u H) as [d' [j [Hin Hu]]]. exists d', j. split; [right; exact Hin | exact Hu].
Qed.

Lemma In_eligible : forall devs d, In d (getEligibleDevices devs) ->
  In d devs /\ isOn (currentState d) = true /\ isSelected d = true /\
  canChangeColor (capabilities d) = true.
Proof.
  intros devs d H. unfold getEligibleDevices in H. apply filter_In in H as [Hin Hb].
  apply andb_prop in Hb as [Hb Hc]. apply andb_prop in Hb as [Ho Hs]. auto.
Qed.

(** Extra (driftLoop): while a scene runs, every [updateSingleLight] call of
    a drift tick targets a registered light that is on, selected and
    colour-capable, carries the scene's brightness and a colour of its
    palette, and a transition time between round(0.8 * transitionSpeed)
    and round(1.2 * transitionSpeed). *)
Theorem drift_loop_updates : forall st devs rand s,
  currentScene st = Some s -> isRunning st = true ->
  0 <= transitionSpeed s -> palette s <> [] -> (forall k, 0 <= rand k < 1) ->
  forall u, In u (driftLoop st devs rand) ->
    exists d, In d devs /\ id d = su_deviceId u /\ isOn (currentState d) = true /\
      isSelected d = true /\ canChangeColor (capabilities d) = true /\
      su_brightness u = sc_brightness s /\
      (exists c, su_color u = Some c /\ In c (palette s)) /\
      IZR (js_round (transitionSpeed s * (8/10))) <= su_transitionTime u <=
      IZR (js_round (transitionSpeed s * (12/10))).
Proof.
  intros st devs rand s Hc Hr Hts Hp Hrand u Hu.
  unfold driftLoop in Hu. rewrite Hc, Hr in Hu.
  destruct (drift_map_spec _ _ _ _ _ Hu) as [d [j [Hd ->]]].
  apply filter_random_incl in Hd. destruct (In_eligible _ _ Hd) as [Hin [Ho [Hs Hcc]]].
  exists d. cbn [su_deviceId su_brightness su_color su_transitionTime].
  do 6 (split; [assumption || reflexivity|]).
  split.
  - unfold getRandomColorFromPalette. apply randomColor_in; [exact Hp | apply Hrand].
  - destruct (Hrand (S j)) as [R0 R1].
    split; apply IZR_le, js_round_mono; nra.
Qed.

Lemma drift_loop_updates_witness :
  let d := mkDevice "a"%string "Lamp A"%string (mkCaps true true) (mkState true 50 None) true in
  let st := mkEngine [savanna_sunset] None (Some savanna_sunset) true 0 [] 0 in
  Forall (fun u =>
    exists d', In d' [d] /\ id d' = su_deviceId u /\ isOn (currentState d') = true /\
      isSelected d' = true /\ canChangeColor (capabilities d') = true /\
      su_brightness u = sc_brightness savanna_sunset /\
      (exists c, su_color u = Some c /\ In c (palette savanna_sunset)) /\
      IZR (js_round (transitionSpeed savanna_sunset * (8/10))) <= su_transitionTime u <=
      IZR (js_round (transitionSpeed savanna_sunset * (12/10))))
    (driftLoop st [d] (fun _ => 1/2)).
Proof.
  intros d st. apply Forall_forall. intros u Hu.
  apply (drift_loop_updates st [d] (fun _ => 1/2) savanna_sunset eq_refl eq_refl); [| | |exact Hu].
  - unfold savanna_sunset. simpl. lra.
  - unfold savanna_sunset. simpl. discriminate.
  - intros k. lra.
Defined.

Lemma batch_optimistic_one_keys : forall devs u,
  map reg_key (fst (batch_optimistic_one devs u)) = map reg_key devs.
Proof.
  intros devs u. unfold batch_optimistic_one.
  destruct (batch_target devs (bu_deviceId u)) as [d|] eqn:Et; [|reflexivity].
  assert (Hg : get_device devs (bu_deviceId u) = Some d).
  { unfold batch_target in Et. destruct (get_device devs (bu_deviceId u)) as [d'|]; [|discriminate].
    destruct (_ && _); [congruence|discriminate]. }
  destruct (bu_color u), (bu_brightness u);
    repeat match goal with |- context [if ?b then _ else _] => destruct b end;
    cbn [fst]; apply (map_update_map_at _ _ _ _ d Hg); reflexivity.
Qed.

Lemma batch_optimistic_keys : forall us devs,
  map reg_key (fst (batch_optimistic devs us)) = map reg_key devs.
Proof.
  induction us as [|u us IH]; intros devs; [reflexivity|]. simpl.
  pose proof (batch_optimistic_one_keys devs u) as H1.
  destruct (batch_optimistic_one devs u) as [devs1 c]. simpl in H1.
  pose proof (IH devs1) as H2. destruct (batch_optimistic devs1 us) as [devs2 ids].
  simpl in *. congruence.
Qed.

Lemma get_device_keys : forall l1 l2 k d1, map reg_key l1 = map reg_key l2 ->
  get_device l1 k = Some d1 -> exists d2, get_device l2 k = Some d2 /\ reg_key d2 = reg_key d1.
Proof.
  induction l1 as [|x xs IH]; intros l2 k d1 Hm Hg; [discriminate|].
  destruct l2 as [|y ys]; [discriminate|]. cbn [map] in Hm.
  assert (Hxy : reg_key x = reg_key y) by congruence.
  assert (Hm' : map reg_key xs = map reg_key ys) by congruence. clear Hm.
  unfold get_device in Hg |- *. simpl in Hg |- *.
  assert (Hid : id y = id x) by (unfold reg_key in Hxy; congruence).
  rewrite Hid. destruct (String.eqb (id x) k).
  - injection Hg as <-. exists y. split; [reflexivity | symmetry; exact Hxy].
  - apply IH; assumption.
Qed.

Lemma get_device_nodup_In : forall devs d, NoDup (map id devs) -> In d devs ->
  get_device devs (id d) = Some d.
Proof.
  induction devs as [|x xs IH]; intros d Hnd Hin; [destruct Hin|].
  inversion Hnd as [|? ? Hx Hnd']; subst. unfold get_device. simpl.
  destruct Hin as [<-|Hin]; [rewrite String.eqb_refl; reflexivity|].
  destruct (String.eqb (id x) (id d)) eqn:E.
  - apply String.eqb_eq in E. exfalso. apply Hx. rewrite E. apply in_map. exact Hin.
  - apply IH; assumption.
Qed.

Lemma initial_map_spec : forall s rand k ds d, In d ds ->
  exists j, In (mkBatch (id d) (getRandomColorFromPalette (Some s) (rand j))
                  (Some (sc_brightness s)) (Some 500)) (initial_map s rand k ds).
Proof.
  intros s rand k ds. revert k. induction ds as [|x xs IH]; intros k d Hd; [destruct Hd|].
  destruct Hd as [<-|Hd].
  - exists k. left. reflexivity.
  - destruct (IH (S k) d Hd) as [j Hj]. exists j. right. exact Hj.
Qed.

(** Extra (applySceneInitialState with updateLightsBatch): starting a scene
    on a connected hub queues one batch which, run on the registry the
    optimistic update left, sends every light that is on, selected and
    colour-capable a colour of the scene's palette with a 500 ms transition,
    and, if it is dimmable, the scene's brightness clamped to [1, 100]. *)
Theorem initial_state_reaches_eligible : forall h s rand us,
  h_client h = true -> NoDup (map id (h_devices h)) ->
  palette s <> [] -> (forall k, 0 <= rand k < 1) ->
  applySceneInitialState (Some s) (h_devices h) rand = Some us ->
  h_jobs (updateLightsBatch h us) = h_jobs h ++ [HBatch us] /\
  forall d, In d (getEligibleDevices (h_devices h)) ->
    exists c, In c (palette s) /\
      In (BSetLightColor (id d) (js_round (hue c)) (saturation c) (Some 500))
         (run_hub_job (h_devices (updateLightsBatch h us)) (HBatch us)) /\
      (canChangeBrightness (capabilities d) = true ->
       In (BSetLightLevel (id d) (js_round (Rmax 1 (Rmin 100 (sc_brightness s)))) (Some 500))
          (run_hub_job (h_devices (updateLightsBatch h us)) (HBatch us))).
Proof.
  intros h s rand us Hc Hnd Hp Hrand Hus.
  assert (Hdevs : map reg_key (h_devices (updateLightsBatch h us)) = map reg_key (h_devices h)).
  { unfold updateLightsBatch. rewrite Hc. cbn [negb].
    pose proof (batch_optimistic_keys us (h_devices h)) as K.
    destruct (batch_optimistic (h_devices h) us). exact K. }
  split.
  - unfold updateLightsBatch. rewrite Hc. cbn [negb].
    destruct (batch_optimistic (h_devices h) us). reflexivity.
  - intros d Hd.
    assert (Hus' : us = initial_map s rand 0 (getEligibleDevices (h_devices h))).
    { unfold applySceneInitialState in Hus.
      destruct (getEligibleDevices (h_devices h)); [discriminate|]. congruence. }
    destruct (initial_map_spec s rand 0 _ d Hd) as [j Hj]. rewrite <- Hus' in Hj.
    destruct (In_eligible _ _ Hd) as [Hin [Ho [Hs Hcc]]].
    destruct (randomColor_in (palette s) (rand j) Hp (Hrand j)) as [c [Hrc Hcin]].
    destruct (get_device_keys (h_devices h) (h_devices (updateLightsBatch h us)) (id d) d
                (eq_sym Hdevs) (get_device_nodup_In _ _ Hnd Hin)) as [d' [Hg' Hk]].
    unfold reg_key in Hk. injection Hk as _ Hs' Ho' Hcap'.
    set (u := mkBatch (id d) (getRandomColorFromPalette (Some s) (rand j))
                (Some (sc_brightness s)) (Some 500)) in Hj.
    assert (Hcalls : batch_calls_one (h_devices (updateLightsBatch h us)) u =
      [BSetLightColor (id d) (js_round (hue c)) (saturation c) (Some 500)] ++
      (if canChangeBrightness (capabilities d)
       then [BSetLightLevel (id d) (js_round (Rmax 1 (Rmin 100 (sc_brightness s)))) (Some 500)]
       else [])).
    { unfold batch_calls_one, batch_target. cbn [bu_deviceId bu_color bu_brightness bu_transitionTime u].
      rewrite Hg', Hs', Ho'. rewrite Hs, Ho. cbn [andb]. unfold getRandomColorFromPalette. rewrite Hrc, Hcap', Hcc.
      reflexivity. }
    exists c. split; [exact Hcin|]. cbn [run_hub_job]. split.
    + apply in_flat_map. exists u. split; [exact Hj|]. rewrite Hcalls. left. reflexivity.
    + intros Hb. apply in_flat_map. exists u. split; [exact Hj|]. rewrite Hcalls, Hb.
      right. left. reflexivity.
Qed.

Lemma initial_state_reaches_eligible_witness :
  let d := mkDevice "a"%string "Lamp A"%string (mkCaps true true) (mkState true 50 None) true in
  let h := mkHub true [d] ["a"%string] None [] [] in
  let us := initial_map savanna_sunset (fun _ => 1/2) 0 [d] in
  h_jobs (updateLightsBatch h us) = h_jobs h ++ [HBatch us].
Proof.
  intros d h us.
  refine (proj1 (initial_state_reaches_eligible h savanna_sunset (fun _ => 1/2) us
                   eq_refl _ _ _ eq_refl)).
  - simpl. constructor; [intros []|constructor].
  - unfold savanna_sunset. simpl. discriminate.
  - intros k. lra.
Defined.

Lemma ov_get_set : forall o k v k',
  ov_get (ov_set o k v) k' = if String.eqb k k' then Some v else ov_get o k'.
Proof.
  induction o as [|[k0 w] rest IH]; intros k v k'; unfold ov_get in *; simpl.
  - destruct (String.eqb k k'); reflexivity.
  - destruct (String.eqb k0 k) eqn:E0.
    + apply String.eqb_eq in E0. subst k0. simpl. destruct (String.eqb k k'); reflexivity.
    + simpl. destruct (String.eqb k0 k') eqn:E1.
      * apply String.eqb_eq in E1. subst k'. rewrite String.eqb_sym, E0. reflexivity.
      * apply IH.
Qed.

Lemma save_fold_other : forall presets l o k, ~ In k (map sc_id l) ->
  ov_get (fold_left (save_one presets) l o) k = ov_get o k.
Proof.
  intros presets l. induction l as [|s l IH]; intros o k Hk; [reflexivity|].
  simpl. rewrite IH by (intros H; apply Hk; right; exact H).
  unfold save_one. destruct (find_scene presets (sc_id s)); [|reflexivity].
  destruct (_ || _); [|reflexivity]. rewrite ov_get_set.
  destruct (String.eqb (sc_id s) k) eqn:E; [|reflexivity].
  apply String.eqb_eq in E. exfalso. apply Hk. left. exact E.
Qed.

Lemma find_scene_nodup : forall scs p, NoDup (map sc_id scs) -> In p scs ->
  find_scene scs (sc_id p) = Some p.
Proof.
  induction scs as [|x xs IH]; intros p Hnd Hin; [destruct Hin|].
  inversion Hnd as [|? ? Hx Hnd']; subst. unfold find_scene. simpl.
  destruct Hin as [<-|Hin]; [rewrite String.eqb_refl; reflexivity|].
  destruct (String.eqb (sc_id x) (sc_id p)) eqn:E.
  - apply String.eqb_eq in E. exfalso. apply Hx. rewrite E. apply in_map. exact Hin.
  - apply IH; assumption.
Qed.

Lemma edited_from_id : forall s p, edited_from s p -> sc_id s = sc_id p.
Proof. intros s p H. unfold edited_from in H. rewrite H at 1. reflexivity. Qed.

Lemma Forall2_edited_ids : forall scs presets, Forall2 edited_from scs presets ->
  map sc_id scs = map sc_id presets.
Proof.
  intros scs presets H. induction H as [|s p scs presets Hsp _ IH]; [reflexivity|].
  simpl. rewrite (edited_from_id s p Hsp), IH. reflexivity.
Qed.

Lemma Forall2_map_back : forall {A B} (R : A -> B -> Prop) (f : B -> A) l1 l2,
  Forall2 R l1 l2 -> (forall a b, In a l1 -> In b l2 -> R a b -> f b = a) -> map f l2 = l1.
Proof.
  intros A B R f l1 l2 H. induction H as [|a b l1 l2 Hab _ IH]; intros Hf; [reflexivity|].
  simpl. rewrite (Hf a b (or_introl eq_refl) (or_introl eq_refl) Hab).
  rewrite IH; [reflexivity|]. intros a' b' Ha Hb. apply Hf; right; assumption.
Qed.

Lemma merge_scene_edited : forall s p u, edited_from s p -> edited_from (merge_scene s u) p.
Proof.
  intros s p [ut ub] H. unfold edited_from in *. rewrite H.
  destruct p. unfold merge_scene. cbn. destruct ut, ub; reflexivity.
Qed.

Lemma replace_first_edited : forall scs presets sid u, Forall2 edited_from scs presets ->
  Forall2 edited_from (replace_first scs sid u) presets.
Proof.
  intros scs presets sid u H. induction H as [|s p scs presets Hsp Ht IH]; [constructor|].
  simpl. destruct (String.eqb (sc_id s) sid).
  - constructor; [apply merge_scene_edited; exact Hsp | exact Ht].
  - constructor; assumption.
Qed.

(** Extra (saveSceneOverrides, loadSceneOverrides, updateScene): if every
    scene differs from the preset at its position at most in its
    transition speed and brightness (which [updateScene] preserves), and
    preset ids are distinct, then loading the saved overrides onto the
    presets gives back exactly the scenes; unedited presets save an empty
    object. *)
Theorem overrides_round_trip : forall presets,
  NoDup (map sc_id presets) ->
  saveSceneOverrides presets presets = [] /\
  (forall st sid u, Forall2 edited_from (scenes st) presets ->
     Forall2 edited_from (scenes (fst (updateScene st sid u))) presets) /\
  (forall scs, Forall2 edited_from scs presets ->
     loadSceneOverrides presets (Some (saveSceneOverrides presets scs)) = scs).
Proof.
  intros presets Hnd. split; [|split].
  - unfold saveSceneOverrides.
    assert (G : forall l o, incl l presets -> fold_left (save_one presets) l o = o).
    { induction l as [|x l IH]; intros o Hi; [reflexivity|]. simpl.
      assert (E : save_one presets o x = o).
      { unfold save_one.
        rewrite find_scene_nodup by (assumption || (apply Hi; left; reflexivity)).
        unfold num_neq. destruct (Req_dec_T _ _) as [_|n]; [|exfalso; apply n; reflexivity].
        destruct (Req_dec_T _ _) as [_|n]; [|exfalso; apply n; reflexivity]. reflexivity. }
      rewrite E. apply IH. intros y Hy. apply Hi. right. exact Hy. }
    apply G. intros y Hy. exact Hy.
  - intros st sid u H. unfold updateScene.
    destruct (find_scene (scenes st) sid); [|exact H].
    assert (H1 : Forall2 edited_from (replace_first (scenes st) sid u) presets)
      by (apply replace_first_edited; exact H).
    destruct (currentScene st) as [cs|]; [|exact H1].
    destruct (String.eqb (sc_id cs) sid); [|exact H1].
    unfold setInterval, set_active, clearInterval, set_current. cbn [isRunning activeInterval].
    destruct (isRunning st), (activeInterval st); try exact H1.
    destruct (type _); exact H1.
  - intros scs H. unfold loadSceneOverrides.
    assert (Hids := Forall2_edited_ids _ _ H).
    assert (Hnds : NoDup (map sc_id scs)) by (rewrite Hids; exact Hnd).
    apply (Forall2_map_back edited_from _ scs presets H).
    intros s p Hs Hp Hsp. pose proof (edited_from_id s p Hsp) as Eid.
    apply in_split in Hs as [l1 [l2 Hsplit]].
    assert (Hn1 : ~ In (sc_id s) (map sc_id l1) /\ ~ In (sc_id s) (map sc_id l2)).
    { rewrite Hsplit, map_app in Hnds. cbn [map] in Hnds.
      apply NoDup_remove_2 in Hnds. split; intros Hc; apply Hnds; apply in_or_app; auto. }
    unfold saveSceneOverrides. rewrite Hsplit, fold_left_app. cbn [fold_left].
    rewrite <- Eid, save_fold_other by apply Hn1.
    unfold save_one. rewrite Eid, find_scene_nodup by assumption. rewrite <- Eid.
    destruct (num_neq (transitionSpeed s) (transitionSpeed p) ||
              num_neq (sc_brightness s) (sc_brightness p)) eqn:Ech.
    + rewrite ov_get_set, String.eqb_refl. symmetry. exact Hsp.
    + fold (save_one presets). rewrite save_fold_other by apply Hn1. unfold ov_get. cbn [find].
      apply orb_false_elim in Ech as [E1 E2]. unfold num_neq in E1, E2.
      destruct (Req_dec_T (transitionSpeed s) (transitionSpeed p)) as [T|]; [|discriminate].
      destruct (Req_dec_T (sc_brightness s) (sc_brightness p)) as [B|]; [|discriminate].
      rewrite Hsp, T, B. destruct p. reflexivity.
Qed.

Lemma overrides_round_trip_witness :
  let edited := merge_scene savanna_sunset (mkSceneUpdate (Some 4000) None) in
  loadSceneOverrides [savanna_sunset; arctic_aurora]
    (Some (saveSceneOverrides [savanna_sunset; arctic_aurora] [edited; arctic_aurora])) =
  [edited; arctic_aurora].
Proof.
  intros edited.
  refine (proj2 (proj2 (overrides_round_trip [savanna_sunset; arctic_aurora] _)) _ _).
  - simpl. constructor; [intros [H|[]]; discriminate H|constructor; [intros []|constructor]].
  - constructor; [reflexivity|constructor; [|constructor]].
    unfold edited_from. destruct arctic_aurora; reflexivity.
Defined.

End SceneLoopsFacts.

Module SyncFacts.
Import Dirigera Hub SceneColor Sync HubFacts SceneLoopsFacts.
Local Open Scope R_scope.




Lemma mapi_ids : forall (f : nat -> Device -> PatternUpdate) i ds,
  (forall j d, p_deviceId (f j d) = id d) -> map p_deviceId (mapi f i ds) = map id ds.
Proof.
  intros f i ds Hf. revert i. induction ds as [|d ds IH]; intros i; [reflexivity|].
  simpl. rewrite Hf, IH. reflexivity.
Qed.

Lemma mapi_Forall : forall (P : PatternUpdate -> Prop) (f : nat -> Device -> PatternUpdate) i ds,
  (forall j d, P (f j d)) -> Forall P (mapi f i ds).
Proof.
  intros P f i ds Hf. revert i. induction ds as [|d ds IH]; intros i; constructor; auto.
Qed.

Lemma band_brightness : forall x, 0 <= x <= 1 ->
  (40 <= js_round (40 + x * (85 - 40)) <= 85)%Z.
Proof. intros x Hx. apply js_round_bounds. simpl. nra. Qed.

Lemma pattern_shape : forall devs now bass mids treble,
  0 <= now -> 0 <= bass <= 1 -> 0 <= mids <= 1 -> 0 <= treble <= 1 ->
  let ds := filter (fun d => isOn (currentState d) && canChangeColor (capabilities d)) devs in
  map p_deviceId (createLightPattern devs now bass mids treble) = map id ds /\
  Forall pattern_ok (createLightPattern devs now bass mids treble).
Proof.
  intros devs now bass mids treble Hn Hb Hm Ht ds.
  pose proof (band_brightness bass Hb) as Bb. pose proof (band_brightness mids Hm) as Bm.
  pose proof (band_brightness treble Ht) as Bt.
  unfold createLightPattern. fold ds.
  destruct ds as [|d0 ds0] eqn:Eds; [split; [reflexivity | constructor]|].
  rewrite <- Eds.
  set (b1 := js_round (40 + bass * (85 - 40))) in *.
  set (b2 := js_round (40 + mids * (85 - 40))) in *.
  set (b3 := js_round (40 + treble * (85 - 40))) in *.
  assert (Hi : (0 <= Int_part (now / 15000))%Z).
  { destruct (base_Int_part (now / 15000)) as [B1 B2].
    assert (0 <= now / 15000) by (unfold Rdiv; apply Rmult_le_pos; [lra | left; apply Rinv_0_lt_compat; lra]).
    assert (-1 < IZR (Int_part (now / 15000))) by lra. apply lt_IZR in H0. lia. }
  assert (Hr : (0 <= Z.rem (Int_part (now / 15000)) 4 < 4)%Z) by (apply Z.rem_bound_pos; lia).
  assert (Hc : Z.rem (Int_part (now / 15000)) 4 = 0%Z \/ Z.rem (Int_part (now / 15000)) 4 = 1%Z \/
                Z.rem (Int_part (now / 15000)) 4 = 2%Z \/ Z.rem (Int_part (now / 15000)) 4 = 3%Z) by lia.
  destruct Hc as [Ep|[Ep|[Ep|Ep]]]; rewrite Ep.
  (* index 0 : alternating *)
  - unfold createAlternatingPattern. split; [apply mapi_ids; intros; reflexivity|].
    apply mapi_Forall. intros j d. unfold pattern_ok. cbn [p_color p_brightness].
    destruct (Nat.even j); (split; [simpl; tauto | eexists; split; [reflexivity | assumption]]).
  (* index 1 : trio *)
  - unfold createTrioPattern. split; [apply mapi_ids; intros; reflexivity|].
    apply mapi_Forall. intros j d. unfold pattern_ok. cbn [p_color p_brightness].
    destruct (Nat.modulo j 3 =? 0)%nat; [|destruct (Nat.modulo j 3 =? 1)%nat];
      (split; [simpl; tauto | eexists; split; [reflexivity | assumption]]).
  (* index 2 : wave *)
  - unfold createWavePattern. split; [apply mapi_ids; intros; reflexivity|].
    apply mapi_Forall. intros j d. unfold pattern_ok. cbn [p_color p_brightness].
    split; [destruct (Rlt_dec _ _); simpl; tauto|].
    eexists. split; [reflexivity|]. apply js_round_bounds.
    match goal with |- context [sin ?a] => pose proof (SIN_bound a) as [S1 S2] end.
    destruct Bb as [Bb1 Bb2]. destruct Bm as [Bm1 Bm2].
    apply IZR_le in Bb1, Bb2, Bm1, Bm2. simpl in *.
    set (w := (sin _ + 1) / 2). assert (0 <= w <= 1) by (unfold w; lra).
    split; nra.
  (* index 3 : quadrant *)
  - unfold createQuadrantPattern. split.
    + apply mapi_ids. intros j d. destruct (Nat.modulo j 4) as [|[|[|]]]; reflexivity.
    + apply mapi_Forall. intros j d. unfold pattern_ok.
      destruct (Nat.modulo j 4) as [|[|[|]]]; cbn [p_color p_brightness];
        (split; [simpl; tauto|]); try (eexists; split; [reflexivity | assumption]).
      eexists. split; [reflexivity|]. apply js_round_bounds.
      destruct Bb as [Bb1 Bb2]. destruct Bm as [Bm1 Bm2].
      apply IZR_le in Bb1, Bb2, Bm1, Bm2. simpl in *. lra.
Qed.

Lemma js_round_IZR : forall k, js_round (IZR k) = k.
Proof. intros k. unfold js_round. apply Int_part_unique. lra. Qed.

Lemma pattern_calls : forall devs pu d,
  get_device devs (p_deviceId pu) = Some d -> isOn (currentState d) = true ->
  canChangeColor (capabilities d) = true -> pattern_ok pu ->
  exists k, (40 <= k <= 85)%Z /\
  backend_updateSingleLight true devs (mkSingle (p_deviceId pu) (Some (p_color pu)) (p_brightness pu) 300) =
  Ok ([BSetLightColor (p_deviceId pu) (js_round (hue (p_color pu))) (saturation (p_color pu)) (Some 300)] ++
      if canChangeBrightness (capabilities d)
      then [BSetLightLevel (p_deviceId pu) k (Some 300)] else []).
Proof.
  intros devs pu d Hg Ho Hc [_ [k [Hk Hr]]]. exists k. split; [exact Hr|].
  unfold backend_updateSingleLight. cbn [negb su_deviceId su_color su_brightness su_transitionTime].
  rewrite Hg, Ho, Hc. cbn [negb]. rewrite Hk.
  assert (Ht : truthy_num (IZR k) = true).
  { unfold truthy_num. destruct (Req_dec_T (IZR k) 0) as [E|]; [|reflexivity].
    apply eq_IZR in E. lia. }
  rewrite Ht. cbn [andb].
  replace (Rmax 1 (Rmin 100 (IZR k))) with (IZR k).
  - rewrite js_round_IZR. reflexivity.
  - destruct Hr as [H1 H2]. apply IZR_le in H1, H2. unfold Rmax, Rmin.
    repeat destruct (Rle_dec _ _); simpl in *; lra.
Qed.

(** Extra (createLightPattern, the four patterns, executePatternUpdates and
    the backend updateSingleLight): for band levels in [0, 1], a pattern
    gives one update per light that is on and colour-capable, in registry
    order, whether or not the light is selected; each such light gets a
    colour call with one of the four pattern colours and, if dimmable, a
    level call in [40, 85]; no call goes to any other light. *)
Theorem pattern_drives_all_on_color_lights : forall devs now bass mids treble,
  NoDup (map id devs) -> 0 <= now ->
  0 <= bass <= 1 -> 0 <= mids <= 1 -> 0 <= treble <= 1 ->
  let pat := createLightPattern devs now bass mids treble in
  map p_deviceId pat =
    map id (filter (fun d => isOn (currentState d) && canChangeColor (capabilities d)) devs) /\
  (forall d, In d devs -> isOn (currentState d) = true -> canChangeColor (capabilities d) = true ->
     exists c k, In c [bassColor; midsColor; trebleColor; accentColor] /\ (40 <= k <= 85)%Z /\
       In (BSetLightColor (id d) (js_round (hue c)) (saturation c) (Some 300))
          (executePatternUpdates devs pat) /\
       (canChangeBrightness (capabilities d) = true ->
        In (BSetLightLevel (id d) k (Some 300)) (executePatternUpdates devs pat))) /\
  (forall call, In call (executePatternUpdates devs pat) ->
     exists d, get_device devs (bcall_dev call) = Some d /\ isOn (currentState d) = true /\
       canChangeColor (capabilities d) = true /\
       match call with
       | BSetLightLevel _ k _ => (40 <= k <= 85)%Z
       | _ => True
       end).
Proof.
  intros devs now bass mids treble Hnd Hn Hb Hm Ht pat.
  destruct (pattern_shape devs now bass mids treble Hn Hb Hm Ht) as [Hids Hok]. fold pat in Hids, Hok.
  assert (Hel : forall x, In x (map p_deviceId pat) -> exists e, get_device devs x = Some e /\
             isOn (currentState e) = true /\ canChangeColor (capabilities e) = true).
  { intros x Hx. rewrite Hids in Hx. apply in_map_iff in Hx as [e [<- He]].
    apply filter_In in He as [He Hb']. apply andb_prop in Hb' as [Ho Hc].
    exists e. split; [apply get_device_nodup_In; assumption | split; assumption]. }
  split; [exact Hids|split].
  - intros d Hd Ho Hc.
    assert (Hin : In (id d) (map p_deviceId pat)).
    { rewrite Hids. apply in_map. apply filter_In. split; [exact Hd|]. rewrite Ho, Hc. reflexivity. }
    apply in_map_iff in Hin as [pu [Hpu Hpin]].
    pose proof (proj1 (Forall_forall _ _) Hok pu Hpin) as Hpo.
    assert (Hg : get_device devs (p_deviceId pu) = Some d)
      by (rewrite Hpu; apply get_device_nodup_In; assumption).
    destruct (pattern_calls devs pu d Hg Ho Hc Hpo) as [k [Hk Hcalls]].
    exists (p_color pu), k. split; [apply Hpo|]. split; [exact Hk|].
    unfold executePatternUpdates. split.
    + apply in_flat_map. exists pu. split; [exact Hpin|]. rewrite Hcalls, <- Hpu. left. reflexivity.
    + intros Hcb. apply in_flat_map. exists pu. split; [exact Hpin|]. rewrite Hcalls, <- Hpu, Hcb.
      right. left. reflexivity.
  - intros call Hcall. unfold executePatternUpdates in Hcall.
    apply in_flat_map in Hcall as [pu [Hpin Hcall]].
    pose proof (proj1 (Forall_forall _ _) Hok pu Hpin) as Hpo.
    destruct (Hel (p_deviceId pu) (in_map _ _ _ Hpin)) as [e [Hg [Ho Hc]]].
    destruct (pattern_calls devs pu e Hg Ho Hc Hpo) as [k [Hk Hcalls]].
    rewrite Hcalls in Hcall. exists e.
    apply in_app_or in Hcall as [[<-|[]]|Hcall].
    + cbn [bcall_dev]. auto.
    + destruct (canChangeBrightness (capabilities e)); [|destruct Hcall].
      destruct Hcall as [<-|[]]. cbn [bcall_dev]. auto.
Qed.

Lemma pattern_drives_all_on_color_lights_witness :
  let d := mkDevice "a"%string "Lamp A"%string (mkCaps true true) (mkState true 50 None) false in
  let pat := createLightPattern [d] 0 (1/2) (1/2) (1/2) in
  map p_deviceId pat = map id (filter (fun d => isOn (currentState d) && canChangeColor (capabilities d)) [d]).
Proof.
  intros d pat.
  refine (proj1 (pattern_drives_all_on_color_lights [d] 0 (1/2) (1/2) (1/2) _ _ _ _ _)).
  - constructor; [intros []|constructor].
  - lra.
  - lra.
  - lra.
  - lra.
Defined.

Lemma all_defined_app : forall {A} (l1 l2 : list (option A)) a b,
  all_defined l1 = Some a -> all_defined l2 = Some b -> all_defined (l1 ++ l2) = Some (a ++ b).
Proof.
  induction l1 as [|[x|] l1 IH]; intros l2 a b H1 H2; simpl in H1 |- *.
  - injection H1 as <-. exact H2.
  - destruct (all_defined l1) as [r|] eqn:E; [|discriminate]. injection H1 as <-.
    rewrite (IH l2 r b eq_refl H2). reflexivity.
  - discriminate.
Qed.

Lemma all_defined_tl : forall {A} (l : list (option A)) a,
  all_defined l = Some a -> all_defined (tl l) = Some (tl a).
Proof.
  intros A [|[x|] l] a H; simpl in H |- *.
  - injection H as <-. reflexivity.
  - destruct (all_defined l); [injection H as <-; reflexivity | discriminate].
  - discriminate.
Qed.

Lemma all_defined_none_in : forall {A} (l : list (option A)), In None l -> all_defined l = None.
Proof.
  induction l as [|[x|] l IH]; intros H; simpl in H |- *; [destruct H| |reflexivity].
  destruct H as [H|H]; [discriminate|]. rewrite (IH H). reflexivity.
Qed.

Lemma Int_part_nonneg : forall x, 0 <= x -> (0 <= Int_part x)%Z.
Proof.
  intros x Hx. destruct (base_Int_part x) as [B1 B2].
  assert (H : -1 < IZR (Int_part x)) by lra. apply lt_IZR in H. lia.
Qed.

Lemma freq_run_spacing : forall msgs st,
  Forall (fun t => lastLightUpdate st + lightUpdateInterval <= t) (freq_run st msgs) /\
  ForallOrdPairs (fun a b => a + lightUpdateInterval <= b) (freq_run st msgs).
Proof.
  induction msgs as [|[[[[[b m] t] now] clock] rnd] rest IH]; intros st; [split; constructor|].
  cbn [freq_run]. unfold handleFrequencyUpdate.
  destruct (Rlt_dec (now - lastLightUpdate st) lightUpdateInterval) as [Hlt|Hge].
  - destruct (smoothColor_js _ _) as [h r]. apply (IH (mkFreqSync (lastLightUpdate st) h (freqSettings st))).
  - destruct (smoothColor_js _ _) as [h r].
    destruct (IH (mkFreqSync now h (freqSettings st))) as [Hf Hp]. cbn [lastLightUpdate] in Hf.
    assert (Hf' : Forall (fun t0 => lastLightUpdate st + lightUpdateInterval <= t0)
                    (freq_run (mkFreqSync now h (freqSettings st)) rest)).
    { eapply Forall_impl; [|exact Hf]. intros x Hx. unfold lightUpdateInterval in *. lra. }
    destruct r; split.
    + constructor; [lra | exact Hf'].
    + constructor; [exact Hf | exact Hp].
    + exact Hf'.
    + exact Hp.
Qed.

(** Extra (handleFrequencyUpdate, mapFrequencyBandsToColor,
    AnalysisState.smoothColor): over any sequence of frequency messages
    handled one after the other, [createLightPattern] is called at least
    3000 ms apart; when it is called it receives the raw band levels, the
    smoothed colour being computed and dropped; for non-negative bands and
    clock the frequency colour is one of the eight vibrant colours, but an
    [undefined] colour (a negative index) makes [smoothColor] throw, so a
    due update then advances [lastLightUpdate] and draws no pattern. *)
Theorem frequency_updates : 
  (forall st msgs, ForallOrdPairs (fun a b => a + lightUpdateInterval <= b) (freq_run st msgs)) /\
  (forall st b m t now clock rnd c l,
     lightUpdateInterval <= now - lastLightUpdate st ->
     all_defined (colorHistory st) = Some l ->
     mapFrequencyToColor (freqSettings st) clock b m t rnd = Some c ->
     snd (handleFrequencyUpdate st b m t now clock rnd) = Some (b + m + t, b, m, t)) /\
  (forall clock b m t, 0 <= clock -> 0 <= b -> 0 <= m -> 0 <= t ->
     exists c, mapFrequencyBandsToColor clock b m t = Some c /\ In c VIBRANT_COLORS) /\
  (forall st b m t now clock rnd,
     lightUpdateInterval <= now - lastLightUpdate st -> colorHistory st <> [] ->
     mapFrequencyToColor (freqSettings st) clock b m t rnd = None ->
     lastLightUpdate (fst (handleFrequencyUpdate st b m t now clock rnd)) = now /\
     snd (handleFrequencyUpdate st b m t now clock rnd) = None).
Proof.
  split; [|split; [|split]].
  - intros st msgs. apply (proj2 (freq_run_spacing msgs st)).
  - intros st b m t now clock rnd c l Hge Hl Hc. unfold handleFrequencyUpdate. rewrite Hc.
    destruct (Rlt_dec _ _) as [Hlt|_]; [lra|].
    unfold smoothColor_js.
    set (h0 := colorHistory st ++ [Some c]).
    assert (Hd0 : all_defined h0 = Some (l ++ [c])) by (apply all_defined_app; [exact Hl | reflexivity]).
    destruct (Smoothing.historySize <? List.length h0)%nat.
    + destruct (List.length (tl h0) =? 1)%nat; [reflexivity|].
      rewrite (all_defined_tl _ _ Hd0). destruct (Smoothing.accumulate _ _ _ _ _ _) as [[? ?] ?].
      reflexivity.
    + destruct (List.length h0 =? 1)%nat; [reflexivity|].
      rewrite Hd0. destruct (Smoothing.accumulate _ _ _ _ _ _) as [[? ?] ?]. reflexivity.
  - intros clock b m t Hc Hb Hm Ht. unfold mapFrequencyBandsToColor.
    pose proof (Int_part_nonneg (clock / 3000)) as H1.
    pose proof (Int_part_nonneg ((b + m + t) * 50)) as H2.
    assert (H1' : (0 <= Int_part (clock / 3000))%Z)
      by (apply H1; unfold Rdiv; apply Rmult_le_pos; [lra | left; apply Rinv_0_lt_compat; lra]).
    assert (H2' : (0 <= Int_part ((b + m + t) * 50))%Z) by (apply H2; nra).
    set (i := Z.rem _ _).
    assert (Hi : (0 <= i < 8)%Z) by (unfold i; apply Z.rem_bound_pos; simpl; lia).
    unfold js_index. destruct (Z.ltb_spec i 0); [lia|].
    destruct (nth_error VIBRANT_COLORS (Z.to_nat i)) as [c|] eqn:E.
    + exists c. split; [reflexivity | apply nth_error_In in E; exact E].
    + apply nth_error_None in E. simpl in E. lia.
  - intros st b m t now clock rnd Hge Hne Hc. unfold handleFrequencyUpdate. rewrite Hc.
    destruct (Rlt_dec _ _) as [Hlt|_]; [lra|].
    unfold smoothColor_js.
    set (h0 := colorHistory st ++ [None]).
    assert (Hlen : (2 <= List.length h0)%nat).
    { unfold h0. rewrite length_app. destruct (colorHistory st); [congruence|]. simpl. lia. }
    assert (Hn : In None (tl h0) /\ In None h0).
    { unfold h0. destruct (colorHistory st) as [|x xs]; [congruence|]. simpl.
      split; [apply in_or_app; right; left; reflexivity|].
      right. apply in_or_app. right. left. reflexivity. }
    destruct (Smoothing.historySize <? List.length h0)%nat eqn:E0.
    + destruct (List.length (tl h0) =? 1)%nat eqn:E1.
      * exfalso. apply Nat.ltb_lt in E0. apply Nat.eqb_eq in E1.
        destruct h0 as [|x xs]; simpl in Hlen, E0, E1; [lia|].
        unfold Smoothing.historySize in E0. lia.
      * rewrite (all_defined_none_in _ (proj1 Hn)). split; reflexivity.
    + destruct (List.length h0 =? 1)%nat eqn:E1; [apply Nat.eqb_eq in E1; lia|].
      rewrite (all_defined_none_in _ (proj2 Hn)). split; reflexivity.
Qed.

Lemma frequency_updates_witness :
  snd (handleFrequencyUpdate (mkFreqSync 0 [] getDefaultSettings) 0 0 0 3000 0 0) = Some (0 + 0 + 0, 0, 0, 0) /\
  (exists c, mapFrequencyBandsToColor 0 0 0 0 = Some c /\ In c VIBRANT_COLORS) /\
  lastLightUpdate (fst (handleFrequencyUpdate
    (mkFreqSync 0 [Some (Smoothing.mkColor 0 (9/10))] getDefaultSettings) (-1) 0 0 3000 0 0)) = 3000.
Proof.
  destruct (proj1 (proj2 (proj2 frequency_updates)) 0 0 0 0 ltac:(lra) ltac:(lra) ltac:(lra) ltac:(lra))
    as [c [Hc Hin]].
  split; [|split].
  - apply (proj1 (proj2 frequency_updates) (mkFreqSync 0 [] getDefaultSettings) 0 0 0 3000 0 0 c []).
    + unfold lightUpdateInterval. cbn [lastLightUpdate]. lra.
    + reflexivity.
    + exact Hc.
  - exact (proj1 (proj2 (proj2 frequency_updates)) 0 0 0 0 ltac:(lra) ltac:(lra) ltac:(lra) ltac:(lra)).
  - refine (proj1 (proj2 (proj2 (proj2 frequency_updates))
      (mkFreqSync 0 [Some (Smoothing.mkColor 0 (9/10))] getDefaultSettings) (-1) 0 0 3000 0 0 _ _ _)).
    + unfold lightUpdateInterval. cbn [lastLightUpdate]. lra.
    + cbn [colorHistory]. discriminate.
    + cbn [freqSettings]. unfold getDefaultSettings, mapFrequencyToColor, mapFrequencyBandsToColor.
      cbn [colorMode].
      rewrite (HubFacts.Int_part_unique 0 (0 / 3000)) by (unfold Rdiv; simpl; lra).
      rewrite (HubFacts.Int_part_unique (-50) ((-1 + 0 + 0) * 50)) by (simpl; lra).
      reflexivity.
Defined.

End SyncFacts.

Module LatencyFacts.
Import Hub Latency.
Local Open Scope R_scope.

Lemma sendTime_le_trans : Relations_1.Transitive (fun a b : ScheduledCommand => sendTime a <= sendTime b).
Proof. intros a b c H1 H2. lra. Qed.

Lemma HdRel_insert : forall y x l,
  sendTime y <= sendTime x -> HdRel (fun a b => sendTime a <= sendTime b) y l ->
  HdRel (fun a b => sendTime a <= sendTime b) y (insert_by_sendTime x l).
Proof.
  intros y x [|z zs] Hyx Hd; simpl.
  - constructor. exact Hyx.
  - destruct (Rlt_dec _ _); constructor; [exact Hyx|]. inversion Hd; assumption.
Qed.

Lemma insert_sorted : forall x l, sorted_buffer l -> sorted_buffer (insert_by_sendTime x l).
Proof.
  unfold sorted_buffer. intros x l. induction l as [|y ys IH]; intros H; simpl.
  - repeat constructor.
  - apply Sorted_inv in H as [Hs Hd]. destruct (Rlt_dec (sendTime x) (sendTime y)) as [Hlt|Hge].
    + constructor; [constructor; assumption | constructor; lra].
    + constructor; [apply IH; exact Hs | apply HdRel_insert; [lra | exact Hd]].
Qed.

Lemma insert_perm : forall x l, Permutation (insert_by_sendTime x l) (x :: l).
Proof.
  intros x l. induction l as [|y ys IH]; simpl; [reflexivity|].
  destruct (Rlt_dec _ _); [reflexivity|].
  transitivity (y :: x :: ys); [constructor; exact IH | constructor].
Qed.

Lemma fold_insert_sorted : forall l acc, sorted_buffer acc ->
  sorted_buffer (fold_left (fun acc x => insert_by_sendTime x acc) l acc).
Proof.
  induction l as [|x l IH]; intros acc H; simpl; [exact H|]. apply IH, insert_sorted, H.
Qed.

Lemma fold_insert_perm : forall l acc,
  Permutation (fold_left (fun acc x => insert_by_sendTime x acc) l acc) (l ++ acc).
Proof.
  induction l as [|x l IH]; intros acc; simpl; [reflexivity|].
  rewrite IH. rewrite insert_perm. symmetry. apply Permutation_middle.
Qed.

Lemma sort_by_sendTime_spec : forall l,
  sorted_buffer (sort_by_sendTime l) /\ Permutation (sort_by_sendTime l) l.
Proof.
  intros l. unfold sort_by_sendTime. split.
  - apply fold_insert_sorted. constructor.
  - rewrite fold_insert_perm. rewrite app_nil_r. reflexivity.
Qed.

Lemma filter_all_true : forall {A} (f : A -> bool) l, Forall (fun x => f x = true) l -> filter f l = l.
Proof.
  intros A f l H. induction H as [|x l Hx _ IH]; simpl; [reflexivity|]. rewrite Hx, IH. reflexivity.
Qed.

Lemma drain_sorted : forall now l, sorted_buffer l ->
  drain now l = (map command (filter (fun sc => if Rle_dec (sendTime sc) now then true else false) l),
                 filter (fun sc => if Rlt_dec now (sendTime sc) then true else false) l).
Proof.
  unfold sorted_buffer. intros now l. induction l as [|x rest IH]; intros H; simpl; [reflexivity|].
  pose proof (Sorted_extends sendTime_le_trans H) as Hext.
  apply Sorted_inv in H as [Hs _].
  destruct (Rle_dec (sendTime x) now) as [Hle|Hgt].
  - rewrite (IH Hs). destruct (Rlt_dec now (sendTime x)) as [Hc|_]; [lra|]. reflexivity.
  - destruct (Rlt_dec now (sendTime x)) as [_|Hc]; [|lra].
    rewrite (filter_all_true (fun sc => if Rlt_dec now (sendTime sc) then true else false) rest).
    + replace (filter _ rest) with (@nil ScheduledCommand); [reflexivity|].
      symmetry. clear IH Hs. induction Hext as [|y ys Hy _ IH2]; simpl; [reflexivity|].
      destruct (Rle_dec (sendTime y) now); [lra | exact IH2].
    + eapply Forall_impl; [|exact Hext]. intros y Hy. simpl.
      destruct (Rlt_dec now (sendTime y)); [reflexivity | lra].
Qed.

Lemma filter_sorted : forall f l, sorted_buffer l -> sorted_buffer (filter f l).
Proof.
  unfold sorted_buffer. intros f l H. apply StronglySorted_Sorted.
  apply Sorted_StronglySorted in H; [|exact sendTime_le_trans].
  induction H as [|x l _ IH Hx]; simpl; [constructor|].
  destruct (f x); [|exact IH]. constructor; [exact IH|].
  apply Forall_forall. intros y Hy. apply filter_In in Hy as [Hy _].
  rewrite Forall_forall in Hx. apply Hx, Hy.
Qed.

(** Extra (LatencyCompensator.scheduleCommand and its processing
    interval): scheduling a command for [targetTime] adds it with
    [sendTime = targetTime - averageLatency] and leaves the buffer sorted by
    [sendTime]; on a sorted buffer one tick of the interval executes exactly
    the commands with [sendTime <= now], in buffer order, and keeps the others
    in order, so the clean-up filter of commands older than five seconds
    never removes anything. *)
Theorem latency_compensator_buffer :
  (forall lc c targetTime,
     sorted_buffer (commandBuffer (scheduleCommand lc c targetTime)) /\
     Permutation (commandBuffer (scheduleCommand lc c targetTime))
                 (commandBuffer lc ++ [mkScheduled c (targetTime - averageLatency lc)])) /\
  (forall lc now, sorted_buffer (commandBuffer lc) ->
     fst (processTick lc now) =
       map command (filter (fun sc => if Rle_dec (sendTime sc) now then true else false) (commandBuffer lc)) /\
     commandBuffer (snd (processTick lc now)) = snd (drain now (commandBuffer lc)) /\
     commandBuffer (snd (processTick lc now)) =
       filter (fun sc => if Rlt_dec now (sendTime sc) then true else false) (commandBuffer lc) /\
     sorted_buffer (commandBuffer (snd (processTick lc now)))).
Proof.
  split.
  - intros lc c t. unfold scheduleCommand. cbn [commandBuffer averageLatency].
    apply sort_by_sendTime_spec.
  - intros lc now Hs. unfold processTick. rewrite (drain_sorted now _ Hs). cbn [fst snd commandBuffer].
    assert (Hf : filter (fun cmd => if Rlt_dec (now - 5000) (sendTime cmd) then true else false)
                   (filter (fun sc => if Rlt_dec now (sendTime sc) then true else false) (commandBuffer lc))
                 = filter (fun sc => if Rlt_dec now (sendTime sc) then true else false) (commandBuffer lc)).
    { apply filter_all_true. apply Forall_forall. intros x Hx. apply filter_In in Hx as [_ Hx].
      destruct (Rlt_dec now (sendTime x)); [|discriminate].
      destruct (Rlt_dec (now - 5000) (sendTime x)); [reflexivity | lra]. }
    rewrite Hf. split; [reflexivity | split; [reflexivity | split; [reflexivity|]]].
    apply filter_sorted, Hs.
Qed.

Lemma latency_compensator_buffer_witness :
  let c := mkCommand PULSE None (Some 80) (Some 50) false None in
  let lc := scheduleCommand (mkCompensator [] 150) c 1000 in
  fst (processTick lc 900) = [c] /\ commandBuffer (snd (processTick lc 900)) = [].
Proof.
  intros c lc.
  assert (Hs : sorted_buffer (commandBuffer lc)) by apply (proj1 (proj1 latency_compensator_buffer (mkCompensator [] 150) c 1000)).
  destruct (proj2 latency_compensator_buffer lc 900 Hs) as (H1 & _ & H2 & _).
  rewrite H1, H2. subst lc. unfold scheduleCommand, sort_by_sendTime. cbn.
  destruct (Rle_dec (1000 - 150) 900) as [_|Hc]; [|lra].
  destruct (Rlt_dec 900 (1000 - 150)) as [Hc|_]; [lra|]. split; reflexivity.
Defined.

End LatencyFacts.

Module AudioFacts.
Import Hub Beat Audio BeatFacts.
Local Open Scope R_scope.

Lemma fold_sum_acc : forall l a,
  fold_left (fun a b => a + IZR b) l a = a + fold_left (fun a b => a + IZR b) l 0.
Proof.
  induction l as [|x l IH]; intros a; simpl; [lra|].
  rewrite (IH (a + IZR x)), (IH (0 + IZR x)). lra.
Qed.

Lemma fold_sum_bounds : forall l, Forall byte l ->
  0 <= fold_left (fun a b => a + IZR b) l 0 <= 255 * INR (List.length l).
Proof.
  induction l as [|x l IH]; intros H; [simpl; lra|].
  cbn [fold_left]. change (List.length (x :: l)) with (S (List.length l)).
  inversion H as [|? ? Hx Hl]; subst. rewrite fold_sum_acc.
  destruct (IH Hl) as [H1 H2]. unfold byte in Hx.
  destruct Hx as [Hx1 Hx2]. apply IZR_le in Hx1. apply IZR_le in Hx2.
  rewrite S_INR. lra.
Qed.

Lemma getAverageVolume_bounds : forall l, Forall byte l -> 0 <= getAverageVolume l <= 255.
Proof.
  intros l H. unfold getAverageVolume.
  destruct (Nat.eqb_spec (List.length l) 0) as [E|E]; [lra|].
  destruct (fold_sum_bounds l H) as [H1 H2].
  assert (Hn : 0 < INR (List.length l)) by (apply lt_0_INR; lia).
  split.
  - apply Rmult_le_pos; [lra | left; apply Rinv_0_lt_compat; lra].
  - apply (Rmult_le_reg_r (INR (List.length l))); [lra|].
    unfold Rdiv. rewrite Rmult_assoc, Rinv_l by lra. lra.
Qed.

Lemma Forall_firstn_any : forall {A} (P : A -> Prop) n l, Forall P l -> Forall P (firstn n l).
Proof.
  intros A P n. induction n as [|n IH]; intros [|x l] H; simpl; try constructor.
  - inversion H; assumption.
  - apply IH. inversion H; assumption.
Qed.

Lemma Forall_skipn_any : forall {A} (P : A -> Prop) n l, Forall P l -> Forall P (skipn n l).
Proof.
  intros A P n. induction n as [|n IH]; intros [|x l] H; simpl; try assumption.
  apply IH. inversion H; assumption.
Qed.

Lemma js_slice_bytes : forall l s e, Forall byte l -> Forall byte (js_slice l s e).
Proof.
  intros l s e H. unfold js_slice. apply Forall_firstn_any, Forall_skipn_any, H.
Qed.

Lemma dominant_loop_inv : forall suf pre m d,
  Forall byte (pre ++ suf) ->
  (0 <= m)%Z ->
  Forall (fun v => (v <= m)%Z) pre ->
  (forall j v, (j < d)%nat -> nth_error pre j = Some v -> (v < m)%Z) ->
  ((pre = [] /\ d = 0%nat /\ m = 0%Z) \/ nth_error pre d = Some m) ->
  (pre ++ suf = [] /\ dominant_loop suf (List.length pre) m d = 0%nat) \/
  (exists mx, nth_error (pre ++ suf) (dominant_loop suf (List.length pre) m d) = Some mx /\
     Forall (fun v => (v <= mx)%Z) (pre ++ suf) /\
     forall j v, (j < dominant_loop suf (List.length pre) m d)%nat ->
       nth_error (pre ++ suf) j = Some v -> (v < mx)%Z).
Proof.
  induction suf as [|v suf IH]; intros pre m d Hb Hm Hle Hlt Hd; cbn [dominant_loop].
  - rewrite app_nil_r in *. destruct Hd as [(-> & -> & ->)|Hd]; [left; split; reflexivity|].
    right. exists m. repeat split; assumption.
  - assert (Hlen : S (List.length pre) = List.length (pre ++ [v])) by (rewrite length_app; simpl; lia).
    assert (Happ : pre ++ v :: suf = (pre ++ [v]) ++ suf) by (rewrite <- app_assoc; reflexivity).
    assert (Hv : byte v).
    { rewrite Forall_forall in Hb. apply Hb. apply in_or_app. right. left. reflexivity. }
    rewrite Hlen, Happ. rewrite Happ in Hb.
    destruct (Z.ltb_spec m v) as [Hmv|Hmv]; apply IH; try exact Hb.
    + lia.
    + apply Forall_app. split; [|constructor; [lia | constructor]].
      eapply Forall_impl; [|exact Hle]. intros x Hx. simpl in Hx. lia.
    + intros j x Hj Hx. rewrite nth_error_app1 in Hx by exact Hj.
      apply nth_error_In in Hx. rewrite Forall_forall in Hle. specialize (Hle x Hx). lia.
    + right. rewrite nth_error_app2 by lia. rewrite Nat.sub_diag. reflexivity.
    + exact Hm.
    + apply Forall_app. split; [exact Hle | constructor; [exact Hmv | constructor]].
    + intros j x Hj Hx. destruct Hd as [(-> & -> & ->)|Hd]; [lia|].
      assert (Hdl : (d < List.length pre)%nat) by (apply nth_error_Some; congruence).
      rewrite nth_error_app1 in Hx by lia. exact (Hlt j x Hj Hx).
    + right. destruct Hd as [(-> & -> & ->)|Hd].
      * simpl. unfold byte in Hv. f_equal. lia.
      * assert (Hdl : (d < List.length pre)%nat) by (apply nth_error_Some; congruence).
        rewrite nth_error_app1 by exact Hdl. exact Hd.
Qed.

Lemma Rmin_unit : forall x, 0 <= x -> 0 <= Rmin 1 x <= 1.
Proof.
  intros x Hx. unfold Rmin. destruct (Rle_dec 1 x); lra.
Qed.

(** Extra (AudioAnalyzer.analyzeFrequencyBands, getAverageVolume): without
    an audio context the analysis throws; otherwise, for byte-valued bins,
    the three bands always lie in [[0, 1]] (bass by the byte range alone,
    mids and treble through their clamp), the spectrum is the input, and
    the dominant frequency is the frequency of the first loudest bin. *)
Theorem frequency_bands_in_range :
  (forall data, analyzeFrequencyBands None data = Throw "Audio context not available") /\
  (forall sampleRate data, 0 < sampleRate -> data <> [] -> Forall byte data ->
   exists fd, analyzeFrequencyBands (Some sampleRate) data = Ok fd /\
     0 <= bass fd <= 1 /\ 0 <= mids fd <= 1 /\ 0 <= treble fd <= 1 /\
     spectrum fd = data /\
     exists r mx, dominantFrequency fd = INR r * (sampleRate / 2 / INR (List.length data)) /\
       nth_error data r = Some mx /\ Forall (fun v => (v <= mx)%Z) data /\
       forall j v, (j < r)%nat -> nth_error data j = Some v -> (v < mx)%Z).
Proof.
  split; [reflexivity|].
  intros sampleRate data Hs Hne Hb. unfold analyzeFrequencyBands.
  eexists. split; [reflexivity|]. cbn [bass mids treble spectrum dominantFrequency fst snd].
  split; [|split; [|split; [|split; [reflexivity|]]]].
  - match goal with |- context [getAverageVolume ?l] =>
      pose proof (getAverageVolume_bounds l (js_slice_bytes _ _ _ Hb)) end. lra.
  - apply Rmin_unit. match goal with |- context [getAverageVolume ?l] =>
      pose proof (getAverageVolume_bounds l (js_slice_bytes _ _ _ Hb)) end.
    apply Rmult_le_pos; [|lra]. lra.
  - apply Rmin_unit. match goal with |- context [getAverageVolume ?l] =>
      pose proof (getAverageVolume_bounds l (js_slice_bytes _ _ _ Hb)) end.
    apply Rmult_le_pos; [|lra]. lra.
  - destruct (dominant_loop_inv data [] 0 0 Hb ltac:(lia) (Forall_nil _)
                ltac:(intros j v Hj; lia) (or_introl (conj eq_refl (conj eq_refl eq_refl))))
      as [[He _]|(mx & H1 & H2 & H3)]; [simpl in He; congruence|].
    exists (dominant_loop data 0 0 0), mx. simpl in H1, H2, H3.
    repeat split; assumption.
Qed.

Lemma frequency_bands_in_range_witness :
  exists fd, analyzeFrequencyBands (Some 44100) [0%Z; 200%Z; 255%Z; 255%Z] = Ok fd /\
     0 <= bass fd <= 1 /\ 0 <= mids fd <= 1 /\ 0 <= treble fd <= 1 /\
     spectrum fd = [0%Z; 200%Z; 255%Z; 255%Z] /\
     exists r mx, dominantFrequency fd = INR r * (44100 / 2 / INR (List.length [0%Z; 200%Z; 255%Z; 255%Z])) /\
       nth_error [0%Z; 200%Z; 255%Z; 255%Z] r = Some mx /\
       Forall (fun v => (v <= mx)%Z) [0%Z; 200%Z; 255%Z; 255%Z] /\
       forall j v, (j < r)%nat -> nth_error [0%Z; 200%Z; 255%Z; 255%Z] j = Some v -> (v < mx)%Z.
Proof.
  apply (proj2 frequency_bands_in_range).
  - lra.
  - discriminate.
  - repeat constructor; unfold byte; lia.
Defined.

Lemma window_length : forall st e, (List.length (energyHistory st) <= historySize)%nat ->
  List.length (window st e) = Nat.min historySize (S (List.length (energyHistory st))).
Proof.
  intros st e H. unfold window.
  destruct (Nat.ltb_spec historySize (List.length (energyHistory st ++ [e]))) as [Hl|Hl];
    rewrite length_app in Hl; cbn [List.length] in Hl.
  - destruct (energyHistory st) as [|x xs]; cbn [app tl List.length] in *.
    + unfold historySize in *. lia.
    + rewrite length_app. cbn [List.length]. lia.
  - rewrite length_app. cbn [List.length]. lia.
Qed.

(** Extra (BeatDetector.detect): the energy history never grows past 43
    entries, one more per frame until it is full, and no beat is reported
    while it is shorter than that, so a fresh detector stays silent for its
    first 42 frames whatever their energy. *)
Theorem beat_detector_warm_up :
  (forall frames st, (List.length (energyHistory st) <= historySize)%nat ->
     List.length (energyHistory (feed st frames)) =
       Nat.min historySize (List.length (energyHistory st) + List.length frames)) /\
  (forall samples st, (List.length (energyHistory st) + List.length samples < historySize)%nat ->
     run st samples = []).
Proof.
  split.
  - induction frames as [|[[now f] t] rest IH]; intros st H; cbn [feed]; cbn [List.length].
    + rewrite Nat.add_0_r. unfold historySize in *. lia.
    + unfold detect.
      pose proof (window_length st (currentEnergy f t) H) as Hw.
      rewrite IH; rewrite detect_energy_hist, Hw; unfold historySize in *; lia.
  - induction samples as [|[now e] rest IH]; intros st H; cbn [run]; [reflexivity|].
    cbn [List.length] in H.
    assert (Hw : List.length (window st e) = S (List.length (energyHistory st))).
    { rewrite window_length by lia. unfold historySize in *. lia. }
    unfold detect_energy at 1.
    destruct (Nat.ltb_spec (List.length (window st e)) historySize) as [_|Hc]; [|lia].
    apply IH. cbn [energyHistory]. rewrite Hw. lia.
Qed.

Lemma beat_detector_warm_up_witness :
  List.length (energyHistory (feed initial [(0, [0%Z], [0%Z])])) = 1%nat /\
  run initial [(0, 1); (10, 2)] = [].
Proof.
  split.
  - rewrite (proj1 beat_detector_warm_up [(0, [0%Z], [0%Z])] initial) by (simpl; unfold historySize; lia).
    reflexivity.
  - apply (proj2 beat_detector_warm_up). simpl. unfold historySize. lia.
Defined.

End AudioFacts.

Module BackendFacts.
Import Dirigera Hub Backend HubFacts.
Local Open Scope R_scope.

Lemma tt_or_default_nonzero : forall t, tt_or_default t <> 0.
Proof.
  intros [v|]; unfold tt_or_default; [destruct (Req_dec_T v 0)|]; lra.
Qed.

Lemma device_calls_spec : forall u d c, In c (device_calls u d) ->
  isOn (currentState d) = true /\ bcall_dev c = id d /\
  bcall_tt c = Some (tt_or_default (u_transitionTime u)) /\
  match c with
  | BSetLightColor _ h _ _ =>
      canChangeColor (capabilities d) = true /\ exists col, u_color u = Some col /\ h = js_round (hue col)
  | BSetLightLevel _ l _ =>
      canChangeBrightness (capabilities d) = true /\
      exists b, u_brightness u = Some b /\ l = js_round (Rmax 1 (Rmin 100 b))
  end.
Proof.
  intros u d c H. unfold device_calls in H.
  destruct (isOn (currentState d)) eqn:Hon; [|destruct H].
  apply in_app_or in H as [H|H].
  - destruct (u_color u) as [col|] eqn:Hc; [|destruct H].
    destruct (canChangeColor (capabilities d)) eqn:Hcc; [|destruct H].
    destruct H as [<-|[]]. repeat split; try reflexivity. exists col. split; reflexivity.
  - destruct (u_brightness u) as [b|] eqn:Hb; [|destruct H].
    destruct (canChangeBrightness (capabilities d)) eqn:Hcb; [|destruct H].
    destruct H as [<-|[]]. repeat split; try reflexivity. exists b. split; reflexivity.
Qed.

Lemma run_updates_true : forall devs us,
  run_updates true devs us = flat_map (fun u => flat_map (device_calls u) devs) us.
Proof.
  intros devs us. induction us as [|u us IH]; simpl; [reflexivity|]. rewrite IH. reflexivity.
Qed.

Lemma run_updates_in : forall client devs us c, In c (run_updates client devs us) ->
  exists u d, In u us /\ In d devs /\ In c (device_calls u d).
Proof.
  intros client devs us c. induction us as [|u us IH]; simpl; [intros []|].
  unfold updateLights. destruct client; simpl; [|intros []].
  intros H. apply in_app_or in H as [H|H].
  - apply in_flat_map in H as [d [Hd Hc]]. exists u, d. auto.
  - destruct (IH H) as (u' & d & Hu & Hd & Hc). exists u', d. auto.
Qed.

Lemma device_calls_dev_indep : forall u (sel : Device -> bool) d,
  device_calls u (mkDevice (id d) (name d) (capabilities d) (currentState d) (sel d)) = device_calls u d.
Proof. reflexivity. Qed.

Lemma round_clamped_level : forall b (lo : Z), (1 <= lo)%Z -> IZR lo <= b <= 100 ->
  (lo <= js_round (Rmax 1 (Rmin 100 b)) <= 100)%Z.
Proof.
  intros b lo Hlo [H1 H2]. apply IZR_le in Hlo.
  assert (E : Rmax 1 (Rmin 100 b) = b).
  { unfold Rmin, Rmax. destruct (Rle_dec 100 b); destruct (Rle_dec 1 _); simpl in *; lra. }
  rewrite E. apply js_round_bounds. split; [exact H1 | exact H2].
Qed.

(** Extra (backend DirigeraService.updateLights, executeCommand and
    executeStrobeCommand): without a client the update throws; otherwise
    every call goes to a registered device that is on, colour calls only to
    colour-capable ones and level calls, clamped to [[1, 100]], only to
    dimmable ones, all with transition time [transitionTime || 100], never
    0; the selection flags play no part; and a strobe sends every on,
    dimmable light levels 100 and 10 with a 100 ms transition instead of
    the 0 ms it asks for. *)
Theorem backend_update_lights :
  (forall devs u, updateLights false devs u = Throw "DIRIGERA client not initialized") /\
  (forall devs u cs c, updateLights true devs u = Ok cs -> In c cs ->
     exists d, In d devs /\ bcall_dev c = id d /\ isOn (currentState d) = true /\
       bcall_tt c = Some (tt_or_default (u_transitionTime u)) /\ bcall_tt c <> Some 0 /\
       match c with
       | BSetLightColor _ _ _ _ => canChangeColor (capabilities d) = true
       | BSetLightLevel _ l _ => canChangeBrightness (capabilities d) = true /\ (1 <= l <= 100)%Z
       end) /\
  (forall devs u (sel : Device -> bool),
     updateLights true (map (fun d => mkDevice (id d) (name d) (capabilities d) (currentState d) (sel d)) devs) u
     = updateLights true devs u) /\
  (forall devs cmd d, c_type cmd = STROBE -> In d devs ->
     isOn (currentState d) = true -> canChangeBrightness (capabilities d) = true ->
     In (BSetLightLevel (id d) 100 (Some 100)) (executeCommand_calls true devs cmd) /\
     In (BSetLightLevel (id d) 10 (Some 100)) (executeCommand_calls true devs cmd) /\
     forall c, In c (executeCommand_calls true devs cmd) -> bcall_tt c = Some 100).
Proof.
  split; [|split; [|split]].
  - reflexivity.
  - intros devs u cs c Hu Hc. unfold updateLights in Hu. simpl in Hu. injection Hu as <-.
    apply in_flat_map in Hc as [d [Hd Hc]]. exists d.
    destruct (device_calls_spec u d c Hc) as (Hon & Hdev & Htt & Hk).
    split; [exact Hd|]. split; [exact Hdev|]. split; [exact Hon|]. split; [exact Htt|].
    split; [rewrite Htt; intros E; injection E; apply tt_or_default_nonzero|].
    destruct c as [dev h sat t|dev l t].
    + apply Hk.
    + destruct Hk as [Hb [b [_ ->]]]. split; [exact Hb | apply js_round_clamp_1_100].
  - intros devs u sel. unfold updateLights. simpl. f_equal.
    induction devs as [|d devs IH]; simpl; [reflexivity|]. rewrite IH. reflexivity.
  - intros devs cmd d Hs Hd Hon Hb.
    unfold executeCommand_calls, executeCommand. rewrite Hs. rewrite run_updates_true.
    assert (Htt0 : tt_or_default (Some 0) = 100).
    { unfold tt_or_default. destruct (Req_dec_T 0 0); [reflexivity | lra]. }
    assert (Hlev : forall v, 1 <= v <= 100 -> js_round (Rmax 1 (Rmin 100 v)) = js_round v).
    { intros v Hv. f_equal. unfold Rmin, Rmax. destruct (Rle_dec 100 v); destruct (Rle_dec 1 _); simpl in *; lra. }
    assert (Hr100 : js_round 100 = 100%Z) by (apply Int_part_unique; simpl; lra).
    assert (Hr10 : js_round 10 = 10%Z) by (apply Int_part_unique; simpl; lra).
    assert (Hstep : forall v, (v = 100 \/ v = 10) ->
      In (BSetLightLevel (id d) (js_round v) (Some 100))
         (flat_map (device_calls (mkUpdate None (Some v) (Some 0) None)) devs)).
    { intros v Hv. apply in_flat_map. exists d. split; [exact Hd|].
      unfold device_calls. rewrite Hon, Hb. cbn [negb u_color u_brightness u_transitionTime app].
      rewrite Htt0, Hlev by lra. left. reflexivity. }
    split; [|split].
    + apply in_flat_map. exists (issued_update (Now (mkUpdate None (Some 100) (Some 0) None))).
      split; [simpl; left; reflexivity|]. simpl issued_update. rewrite <- Hr100 at 1. apply Hstep. left; reflexivity.
    + apply in_flat_map. exists (issued_update (Now (mkUpdate None (Some 10) (Some 0) None))).
      split; [simpl; right; left; reflexivity|]. simpl issued_update.
      pose proof (Hstep 10 (or_intror eq_refl)) as H10. rewrite Hr10 in H10. exact H10.
    + intros c Hc. apply in_flat_map in Hc as [u [Hu Hc]]. apply in_flat_map in Hc as [d' [_ Hc]].
      destruct (device_calls_spec u d' c Hc) as (_ & _ & Htt & _). rewrite Htt.
      unfold executeStrobeCommand in Hu. rewrite map_map in Hu. apply in_map_iff in Hu as [i [<- _]].
      cbn [issued_update u_transitionTime]. rewrite Htt0. reflexivity.
Qed.

Lemma backend_update_lights_witness :
  let d := mkDevice "a"%string "Lamp A"%string (mkCaps true false) (mkState true 50 None) false in
  In (BSetLightLevel "a"%string 100 (Some 100))
     (executeCommand_calls true [d] (mkCommand STROBE None None None false None)).
Proof.
  intros d. refine (proj1 (proj2 (proj2 (proj2 backend_update_lights))
                     [d] (mkCommand STROBE None None None false None) d eq_refl _ eq_refl eq_refl)).
  left. reflexivity.
Defined.

Lemma drop_effect_updates : forall u, In u applyDropEffect ->
  u_transitionTime u = Some 0 /\
  (forall col, u_color u = Some col -> 0 <= hue col <= 360) /\
  (forall b, u_brightness u = Some b -> 15 <= b <= 100).
Proof.
  intros u Hu. unfold applyDropEffect in Hu. apply in_map_iff in Hu as [i [<- Hi]].
  apply in_seq in Hi. simpl. split; [reflexivity|split].
  - intros col Hc. injection Hc as <-. simpl.
    pose proof (Z.rem_bound_pos (Z.of_nat i * 30) 360 ltac:(lia) ltac:(lia)) as [H1 H2].
    apply IZR_le in H1. apply IZR_lt in H2. lra.
  - intros b Hb. injection Hb as <-. destruct (Nat.even i); lra.
Qed.

Lemma build_effect_updates : forall u, In u applyBuildEffect ->
  u_transitionTime u = Some 150 /\
  (forall col, u_color u = Some col -> 0 <= hue col <= 360) /\
  (forall b, u_brightness u = Some b -> 15 <= b <= 100).
Proof.
  intros u Hu. unfold applyBuildEffect in Hu. apply in_map_iff in Hu as [i [<- Hi]].
  apply in_seq in Hi.
  assert (Hp : 0 <= INR i / 20 <= 1).
  { assert (H0 : 0 <= INR i) by apply pos_INR.
    assert (H20 : INR i <= 20) by (replace 20 with (INR 20) by (simpl; lra); apply le_INR; lia).
    split; unfold Rdiv; [apply Rmult_le_pos; lra|].
    apply (Rmult_le_reg_r 20); [lra|]. rewrite Rmult_assoc, Rinv_l by lra. lra. }
  simpl. split; [reflexivity|split].
  - intros col Hc. injection Hc as <-. simpl. lra.
  - intros b Hb. injection Hb as <-. lra.
Qed.

Lemma section_updates : forall t u, In u (handleSongSection t) ->
  u_transitionTime u <> Some 0 \/ t = DROP.
Proof.
  intros [] u Hu; simpl in Hu; try (right; reflexivity).
  - left. destruct (build_effect_updates u Hu) as [-> _]. intros E. injection E. lra.
  - destruct Hu as [<-|[]]. left. simpl. intros E. injection E. lra.
  - destruct Hu.
  - destruct Hu as [<-|[]]. left. simpl. intros E. injection E. lra.
Qed.

(** Extra (handleSongSection and the four effects, through the backend
    updateLights): a verse changes nothing; every light call of a section
    effect has a level in [[15, 100]], a hue in [[0, 360]] and a non-zero
    transition time, the drop's requested 0 ms being sent as 100 ms; and the
    last step of the build sends every on, colour-capable light the hue
    360, at full saturation with a 150 ms transition. *)
Theorem song_section_effects :
  (forall client devs, section_calls client devs VERSE = []) /\
  (forall client devs t c, In c (section_calls client devs t) ->
     bcall_tt c <> Some 0 /\
     match c with
     | BSetLightColor _ h _ _ => (0 <= h <= 360)%Z
     | BSetLightLevel _ l _ => (15 <= l <= 100)%Z
     end) /\
  (forall devs c, In c (section_calls true devs DROP) -> bcall_tt c = Some 100) /\
  (forall devs d, In d devs -> isOn (currentState d) = true -> canChangeColor (capabilities d) = true ->
     In (BSetLightColor (id d) 360 1 (Some 150)) (section_calls true devs BUILD)).
Proof.
  assert (Hall : forall t u, In u (handleSongSection t) ->
            (forall col, u_color u = Some col -> 0 <= hue col <= 360) /\
            (forall b, u_brightness u = Some b -> 15 <= b <= 100)).
  { intros [] u Hu; simpl in Hu.
    - apply (drop_effect_updates u Hu).
    - apply (build_effect_updates u Hu).
    - destruct Hu as [<-|[]]. simpl. split; intros ? E; injection E as <-; simpl; lra.
    - destruct Hu.
    - destruct Hu as [<-|[]]. simpl. split; intros ? E; injection E as <-; simpl; lra. }
  assert (Htt0 : tt_or_default (Some 0) = 100).
  { unfold tt_or_default. destruct (Req_dec_T 0 0); [reflexivity | lra]. }
  split; [|split; [|split]].
  - reflexivity.
  - intros client devs t c Hc. unfold section_calls in Hc.
    destruct (run_updates_in _ _ _ _ Hc) as (u & d & Hu & _ & Hcd).
    destruct (device_calls_spec u d c Hcd) as (_ & _ & Htt & Hk).
    destruct (Hall t u Hu) as [Hh Hb].
    split.
    + rewrite Htt. intros E. injection E. apply tt_or_default_nonzero.
    + destruct c as [dev h sat tt|dev l tt].
      * destruct Hk as [_ [col [Hcol ->]]]. apply js_round_bounds. apply (Hh col Hcol).
      * destruct Hk as [_ [b [Hbr ->]]]. apply round_clamped_level; [lia|]. apply (Hb b Hbr).
  - intros devs c Hc. unfold section_calls in Hc.
    destruct (run_updates_in _ _ _ _ Hc) as (u & d & Hu & _ & Hcd).
    destruct (device_calls_spec u d c Hcd) as (_ & _ & Htt & _).
    destruct (drop_effect_updates u Hu) as [Ht _]. rewrite Htt, Ht, Htt0. reflexivity.
  - intros devs d Hd Hon Hcc. unfold section_calls. rewrite run_updates_true.
    apply in_flat_map.
    set (u20 := mkUpdate (Some (mkColor (200 + 160 * (INR 20 / 20)) (4 / 10 + 6 / 10 * (INR 20 / 20))))
                         (Some (30 + 70 * (INR 20 / 20))) (Some 150) None).
    exists u20. split.
    + unfold handleSongSection, applyBuildEffect. apply in_map_iff. exists 20%nat.
      split; [reflexivity | apply in_seq; lia].
    + apply in_flat_map. exists d. split; [exact Hd|].
      unfold device_calls, u20. rewrite Hon. cbn [negb u_color u_brightness u_transitionTime hue saturation].
      rewrite Hcc. apply in_or_app. left. left.
      assert (E20 : INR 20 / 20 = 1) by (simpl; lra).
      rewrite E20.
      assert (Eh : js_round (200 + 160 * 1) = 360%Z) by (apply Int_part_unique; simpl; lra).
      assert (Es : 4 / 10 + 6 / 10 * 1 = 1) by lra.
      assert (Et : tt_or_default (Some 150) = 150).
      { unfold tt_or_default. destruct (Req_dec_T 150 0); [lra | reflexivity]. }
      rewrite Eh, Es, Et. reflexivity.
Qed.

Lemma song_section_effects_witness :
  let d := mkDevice "a"%string "Lamp A"%string (mkCaps true true) (mkState true 50 None) false in
  In (BSetLightColor "a"%string 360 1 (Some 150)) (section_calls true [d] BUILD).
Proof.
  intros d. exact (proj2 (proj2 (proj2 song_section_effects)) [d] d (or_introl eq_refl) eq_refl eq_refl).
Defined.

End BackendFacts.

Module SelectionFacts.
Import Dirigera Hub Selection HubFacts.

Lemma map_update_nodup_map : forall devs key f, NoDup (map id devs) -> (forall d, id (f d) = id d) ->
  map_update devs key f = map (fun d => if String.eqb (id d) key then f d else d) devs.
Proof.
  induction devs as [|d rest IH]; intros key f Hnd Hf; simpl; [reflexivity|].
  inversion Hnd as [|? ? Hnotin Hnd']; subst.
  destruct (String.eqb (id d) key) eqn:E.
  - f_equal. apply String.eqb_eq in E. subst key. symmetry.
    rewrite <- (map_id rest) at 2. apply map_ext_in. intros x Hx.
    destruct (String.eqb (id x) (id d)) eqn:E2; [|reflexivity].
    apply String.eqb_eq in E2. exfalso. apply Hnotin. rewrite <- E2. apply in_map. exact Hx.
  - f_equal. apply IH; assumption.
Qed.

Lemma get_device_some : forall devs key, In key (map id devs) -> exists d, get_device devs key = Some d.
Proof.
  intros devs key H. unfold get_device.
  destruct (find (fun d => String.eqb (id d) key) devs) as [d|] eqn:E; [exists d; reflexivity|].
  exfalso. apply in_map_iff in H as [d [Hd Hin]].
  pose proof (find_none _ _ E d Hin) as Hf. simpl in Hf. rewrite Hd, String.eqb_refl in Hf. discriminate.
Qed.

Lemma toggle_step : forall h key b, NoDup (map id (h_devices h)) -> In key (map id (h_devices h)) ->
  h_devices (toggleDeviceSelection h key b) =
    map (fun d => if String.eqb (id d) key then set_isSelected b d else d) (h_devices h) /\
  (forall x, set_has (h_selected (toggleDeviceSelection h key b)) x =
             if String.eqb x key then b else set_has (h_selected h) x) /\
  h_selection_file (toggleDeviceSelection h key b) = Some (h_selected (toggleDeviceSelection h key b)) /\
  h_client (toggleDeviceSelection h key b) = h_client h /\
  h_jobs (toggleDeviceSelection h key b) = h_jobs h /\
  h_events (toggleDeviceSelection h key b) = h_events h.
Proof.
  intros h key b Hnd Hin. destruct (get_device_some _ _ Hin) as [d Hd].
  unfold toggleDeviceSelection. rewrite Hd. cbn [h_devices h_selected h_selection_file h_client h_jobs h_events].
  split; [apply map_update_nodup_map; [exact Hnd | reflexivity]|].
  split; [|repeat split; reflexivity].
  intros x. destruct b.
  - rewrite set_has_add. destruct (String.eqb x key); [apply orb_true_r | apply orb_false_r].
  - rewrite set_has_delete. destruct (String.eqb x key); [apply andb_false_r | apply andb_true_r].
Qed.

Lemma fold_toggle : forall L ds h, NoDup (map id (h_devices h)) ->
  Forall (fun d => In (id d) (map id (h_devices h))) ds ->
  let h' := fold_left (fun h d => toggleDeviceSelection h (id d) (set_has L (id d))) ds h in
  h_devices h' = map (fun d => if set_has (map id ds) (id d) then set_isSelected (set_has L (id d)) d else d)
                     (h_devices h) /\
  (forall x, set_has (h_selected h') x = if set_has (map id ds) x then set_has L x else set_has (h_selected h) x) /\
  (ds <> [] -> h_selection_file h' = Some (h_selected h')) /\
  h_client h' = h_client h /\ h_jobs h' = h_jobs h /\ h_events h' = h_events h.
Proof.
  intros L ds. induction ds as [|d0 ds IH]; intros h Hnd Hall h'; subst h'; cbn [fold_left].
  - split; [rewrite <- (map_id (h_devices h)) at 1; apply map_ext; reflexivity|].
    split; [reflexivity|]. split; [intros H; congruence|]. repeat split.
  - inversion Hall as [|? ? Hd0 Hall']; subst.
    destruct (toggle_step h (id d0) (set_has L (id d0)) Hnd Hd0) as (Hdv & Hsel & Hfile & Hc & Hj & He).
    set (h1 := toggleDeviceSelection h (id d0) (set_has L (id d0))) in *.
    assert (Hids : map id (h_devices h1) = map id (h_devices h)).
    { rewrite Hdv, map_map. apply map_ext. intros d. destruct (String.eqb (id d) (id d0)); reflexivity. }
    destruct (IH h1) as (Hdv' & Hsel' & Hfile' & Hc' & Hj' & He').
    + rewrite Hids. exact Hnd.
    + rewrite Hids. exact Hall'.
    + split; [|split; [|split; [|split; [|split]]]].
      * rewrite Hdv', Hdv, map_map. apply map_ext. intros d. cbn [map set_has existsb].
        destruct (String.eqb (id d) (id d0)) eqn:E; cbn [id set_isSelected orb].
        -- apply String.eqb_eq in E. rewrite E. unfold set_has. destruct (existsb _ _); reflexivity.
        -- unfold set_has in *. destruct (existsb _ _); reflexivity.
      * intros x. rewrite Hsel', Hsel. cbn [map set_has existsb] in *. unfold set_has.
        destruct (String.eqb x (id d0)) eqn:E; cbn [orb].
        -- apply String.eqb_eq in E. subst x. destruct (existsb _ _); reflexivity.
        -- reflexivity.
      * intros _. destruct ds as [|d1 ds']; [|apply Hfile'; discriminate].
        cbn [fold_left]. exact Hfile.
      * rewrite Hc'. exact Hc.
      * rewrite Hj'. exact Hj.
      * rewrite He'. exact He.
Qed.

(** Extra (updateLightSelection with toggleDeviceSelection): on a registry
    with unique keys, posting [selectedLights] keeps every device and its
    order, sets each device's [isSelected] to whether its id is listed,
    makes [selectedDeviceIds] agree with the list on registered ids but
    leaves the ids of unregistered devices as they were (a listed unknown id
    is not added, an unknown id selected before is not removed), saves the
    selection when the registry is not empty, and queues no hub work. *)
Theorem light_selection_route : forall h L, NoDup (map id (h_devices h)) ->
  let h' := updateLightSelection h L in
  map id (h_devices h') = map id (h_devices h) /\
  (forall d', In d' (h_devices h') -> isSelected d' = set_has L (id d') /\
     exists d, In d (h_devices h) /\ d' = set_isSelected (set_has L (id d)) d) /\
  (forall x, set_has (h_selected h') x =
     if set_has (map id (h_devices h)) x then set_has L x else set_has (h_selected h) x) /\
  (h_devices h <> [] -> h_selection_file h' = Some (h_selected h')) /\
  h_jobs h' = h_jobs h /\ h_events h' = h_events h.
Proof.
  intros h L Hnd h'. unfold h', updateLightSelection.
  destruct (fold_toggle L (h_devices h) h Hnd) as (Hdv & Hsel & Hfile & _ & Hj & He).
  { apply Forall_forall. intros d Hd. apply in_map. exact Hd. }
  assert (Hall : forall d, In d (h_devices h) -> set_has (map id (h_devices h)) (id d) = true).
  { intros d Hd. unfold set_has. apply existsb_exists. exists (id d).
    split; [apply in_map; exact Hd | apply String.eqb_refl]. }
  split; [|split; [|split; [exact Hsel|split; [exact Hfile | split; assumption]]]].
  - rewrite Hdv, map_map. apply map_ext_in. intros d Hd. rewrite (Hall d Hd). reflexivity.
  - intros d' Hd'. rewrite Hdv in Hd'. apply in_map_iff in Hd' as [d [<- Hd]].
    rewrite (Hall d Hd). split; [reflexivity|]. exists d. split; [exact Hd | reflexivity].
Qed.

Lemma light_selection_route_witness :
  let d := mkDevice "a"%string "Lamp A"%string (mkCaps true true) (mkState true 50 None) false in
  let h := mkHub true [d] ["old"%string] None [] [] in
  NoDup (map id (h_devices h)) /\
  set_has (h_selected (updateLightSelection h ["a"%string; "zz"%string])) "old"%string = true.
Proof.
  intros d h. assert (Hnd : NoDup (map id (h_devices h))) by (repeat constructor; simpl; tauto).
  split; [exact Hnd|].
  destruct (light_selection_route h ["a"%string; "zz"%string] Hnd) as (_ & _ & Hsel & _).
  rewrite Hsel. reflexivity.
Defined.

End SelectionFacts.
